(** * DataScope Enhanced: threat dashboard and collection engine

    A shallow embedding of the cybersecurity threat dashboard
    ([cybersecurity-threat-dashboard/src/api.js] and [App.jsx]) and of the
    collection engine described by the specification, with the properties
    stated about them.

    JavaScript values are modelled as the dashboard uses them: a string
    as a [string] with one character per code unit (the strings whose
    code units are below 256, which holds every string of the dashboard),
    an array as a [list], an object used as a dictionary as the list of
    its own properties in creation order, with what it inherits from
    [Object.prototype], numbers as integers or the [number] type below
    where NaN can occur. What the language leaves to the engine (the
    clock, date parsing, the order of a sort with an inconsistent
    comparator) is a parameter, the class [JS.Host]. *)

From Stdlib Require Import ZArith QArith Ascii String.
From stdpp Require Import base list strings pretty gmap fin_maps sorting.

Local Open Scope string_scope.
Local Open Scope list_scope.
Local Open Scope nat_scope.

(** ** The JavaScript built-ins the dashboard calls *)

Module JS.

(** Strings: a [string] holds the code units of a JavaScript string,
    one [ascii] each, so that its length, its order and its substrings
    are those of the program. A non-ASCII character is written by its
    code, as [App.e_grave] is; typed as such in a literal of this file
    it would stand for the bytes of its UTF-8 encoding, another
    string. *)

(** [String.prototype.toLowerCase] on one code unit below 256: the
    letters A to Z and the letters of U+00C0 to U+00DE (the sign U+00D7
    apart) have their lower case 32 code units above; every other code
    unit is unchanged. *)
Definition lower_code_unit (c : ascii) : ascii :=
  let n := nat_of_ascii c in
  if ((65 <=? n) && (n <=? 90)) || ((192 <=? n) && (n <=? 222) && negb (n =? 215))
  then ascii_of_nat (n + 32) else c.

Fixpoint toLowerCase (s : string) : string :=
  match s with
  | EmptyString => EmptyString
  | String c s' => String (lower_code_unit c) (toLowerCase s')
  end.

(** [haystack.includes(needle)]: [needle] occurs as a substring. *)
Fixpoint includes (haystack needle : string) : bool :=
  String.prefix needle haystack ||
  match haystack with
  | EmptyString => false
  | String _ rest => includes rest needle
  end.

(** [filters.page || d] on an optional integer: [undefined] and [0]
    give [d]. *)
Definition or_default (v : option Z) (d : Z) : Z :=
  match v with
  | Some n => if (n =? 0)%Z then d else n
  | None => d
  end.

(** [Math.ceil(a / b)] on integers ([b] not zero). *)
Definition ceil_div (a b : Z) : Z := (- ((- a) / b))%Z.

(** [Math.ceil(n / d)] on array lengths. *)
Definition ceil_div_nat (n d : nat) : nat := Z.to_nat (ceil_div (Z.of_nat n) (Z.of_nat d)).

(** [arr.slice(start, end)] for non-negative indices: the elements at
    positions [start <= i < end], clamped to the array. *)
Definition slice {A} (arr : list A) (start stop : nat) : list A :=
  take (stop - start) (drop start arr).

(** [arr.slice(-n)]: the last [n] elements. *)
Definition slice_last {A} (arr : list A) (n : nat) : list A :=
  drop (length arr - n) arr.

(** [[...new Set(arr)]]: the distinct elements in order of first
    occurrence. *)
Definition Set_add (seen : list string) (x : string) : list string :=
  if bool_decide (x ∈ seen) then seen else seen ++ [x].

Definition Set_from (arr : list string) : list string :=
  foldl Set_add [] arr.

(** Code-unit order on strings, as [<] and [<=] compare them. *)
Definition string_le (a b : string) : Prop := String.leb a b = true.
Definition string_lt (a b : string) : Prop := String.ltb a b = true.

#[global] Instance string_le_dec : RelDecision string_le.
Proof. intros a b. unfold string_le. apply _. Defined.

(** [arr.sort()] with the default comparison, on an array of strings:
    a merge sort by code-unit order (strings that compare equal are the
    same string, so the result does not depend on the algorithm). *)
Definition sort_strings (arr : list string) : list string :=
  merge_sort string_le arr.

(** Numbers that may be NaN or infinite; the finite ones are rationals,
    which covers every finite double. *)
Inductive number : Type :=
| NaN
| NegInfinity
| Finite (q : Q)
| Infinity.

Definition of_Z (z : Z) : number := Finite (inject_Z z).

(** [a < b] and [a <= b]; every comparison with NaN is false. *)
Definition lt (a b : number) : bool :=
  match a, b with
  | NaN, _ | _, NaN => false
  | NegInfinity, NegInfinity => false
  | NegInfinity, _ => true
  | _, NegInfinity => false
  | Infinity, _ => false
  | Finite _, Infinity => true
  | Finite x, Finite y => negb (Qle_bool y x)
  end.

Definition le (a b : number) : bool :=
  match a, b with
  | NaN, _ | _, NaN => false
  | NegInfinity, _ => true
  | _, NegInfinity => false
  | _, Infinity => true
  | Infinity, Finite _ => false
  | Finite x, Finite y => Qle_bool x y
  end.

(** *** Sorting with a comparator

    [compareFn(a, b)] is given as an integer (a NaN result counts as 0,
    as [sort] takes it); [a] stays before [b] when it is not positive. *)
Definition cmp_le {A} (compareFn : A -> A -> Z) (a b : A) : Prop :=
  (compareFn a b <= 0)%Z.

#[global] Instance cmp_le_dec {A} (compareFn : A -> A -> Z) : RelDecision (cmp_le compareFn).
Proof. intros a b. unfold cmp_le. apply _. Defined.

(** The stable insertion sort: elements that compare equal keep their
    order. *)
Fixpoint sort_insert {A} (compareFn : A -> A -> Z) (x : A) (sorted : list A) : list A :=
  match sorted with
  | [] => [x]
  | y :: rest =>
      if (compareFn x y <=? 0)%Z then x :: y :: rest
      else y :: sort_insert compareFn x rest
  end.

Definition sort_stable {A} (compareFn : A -> A -> Z) (arr : list A) : list A :=
  foldr (sort_insert compareFn) [] arr.

(** A comparator that is consistent on the elements of an array: every
    element equals itself, swapping the arguments swaps the sign, and
    the order is transitive. For such a comparator the language fixes
    the result of [sort]; for any other the order is left to the
    engine. *)
Definition consistent {A} (compareFn : A -> A -> Z) (arr : list A) : Prop :=
  (forall a, a ∈ arr -> compareFn a a = 0%Z) /\
  (forall a b, a ∈ arr -> b ∈ arr -> Z.sgn (compareFn b a) = (- Z.sgn (compareFn a b))%Z) /\
  (forall a b c, a ∈ arr -> b ∈ arr -> c ∈ arr ->
     (compareFn a b <= 0)%Z -> (compareFn b c <= 0)%Z -> (compareFn a c <= 0)%Z).

(** The largest safe integer, [Number.MAX_SAFE_INTEGER], [2^53 - 1]. *)
Definition MAX_SAFE_INTEGER : Z := 9007199254740991.

(** The host environment, the engine that runs the dashboard:
    - the clock read by [new Date()];
    - the date parser behind [new Date(string)] (its time value in
      milliseconds, [None] for an invalid date);
    - [parseInt] ([None] for NaN);
    - the string of an integer-valued number, as [URLSearchParams]
      stores it: the decimal numeral for a safe integer, left to the
      engine (an exponent form, rounded digits) beyond;
    - [Array.prototype.sort] with a comparator: the result is a
      permutation of the array, and the stable sort when the comparator
      is consistent; its order is otherwise the engine's own. *)
Class Host : Type := {
  now : Z;
  Date_parse : string -> option Z;
  parseInt : string -> option Z;
  Number_toString : Z -> string;
  Array_sort : forall A : Type, (A -> A -> Z) -> list A -> list A;
  Number_toString_safe :
    forall n, (Z.abs n <= MAX_SAFE_INTEGER)%Z -> Number_toString n = pretty n;
  Array_sort_Permutation :
    forall (A : Type) (compareFn : A -> A -> Z) (arr : list A),
      Array_sort A compareFn arr ≡ₚ arr;
  Array_sort_consistent :
    forall (A : Type) (compareFn : A -> A -> Z) (arr : list A),
      consistent compareFn arr -> Array_sort A compareFn arr = sort_stable compareFn arr
}.

(** [arr.sort(compareFn)] *)
Definition sort_by `{Host} {A} (compareFn : A -> A -> Z) (arr : list A) : list A :=
  Array_sort A compareFn arr.

(** Milliseconds in a day: [1000 * 60 * 60 * 24]. *)
Definition ms_per_day : Z := 1000 * 60 * 60 * 24.

(** *** Numerals *)

(** The value of a digit or letter as a digit of a numeral, when it is
    below the radix. *)
Definition digit_in_radix (radix : Z) (c : ascii) : option Z :=
  let n := Z.of_nat (nat_of_ascii c) in
  let v :=
    if ((48 <=? n) && (n <=? 57))%Z then Some (n - 48)%Z
    else if ((97 <=? n) && (n <=? 122))%Z then Some (n - 87)%Z
    else if ((65 <=? n) && (n <=? 90))%Z then Some (n - 55)%Z
    else None in
  match v with
  | Some d => if (d <? radix)%Z then Some d else None
  | None => None
  end.

Definition digit_value (c : ascii) : option Z := digit_in_radix 10 c.

(** The number written by the longest prefix of digits; [acc] when
    there is none. *)
Fixpoint leading_digits (radix : Z) (s : string) (acc : option Z) : option Z :=
  match s with
  | EmptyString => acc
  | String c s' =>
      match digit_in_radix radix c with
      | Some d => leading_digits radix s' (Some (radix * default 0%Z acc + d)%Z)
      | None => acc
      end
  end.

Fixpoint all_digits (s : string) : bool :=
  match s with
  | EmptyString => true
  | String c s' => bool_decide (is_Some (digit_value c)) && all_digits s'
  end.

(** The value of a decimal numeral. *)
Definition decimal_value (s : string) : Z := default 0%Z (leading_digits 10 s None).

(** *** A host for the examples

    An engine in the UTC time zone with its clock at 2025-09-26,
    midnight. Its date parser reads the date-time format of the
    language ([YYYY], [YYYY-MM], [YYYY-MM-DD], each with an optional
    [THH:mm], [THH:mm:ss] or [THH:mm:ss.sss] and an optional [Z] or
    [+HH:mm] offset) and no other format, where an engine may accept
    more; it prints every integer in decimal, where an engine does so
    for the safe integers; its sort is the stable insertion sort. *)

(** The white space that [parseInt] skips, below 256. *)
Definition is_white_space (c : ascii) : bool :=
  let n := nat_of_ascii c in
  ((9 <=? n) && (n <=? 13)) || (n =? 32) || (n =? 160).

Fixpoint skip_white_space (s : string) : string :=
  match s with
  | String c s' => if is_white_space c then skip_white_space s' else s
  | EmptyString => s
  end.

(** [parseInt(s)]: white space, a sign, [0x] or [0X] for radix 16, then
    the longest prefix of digits. *)
Definition parse_int (s : string) : option Z :=
  let s := skip_white_space s in
  let '(sign, s) :=
    match s with
    | String "-" s' => ((-1)%Z, s')
    | String "+" s' => (1%Z, s')
    | _ => (1%Z, s)
    end in
  let '(radix, s) :=
    if String.prefix "0x" s || String.prefix "0X" s
    then (16%Z, String.substring 2 (String.length s - 2) s)
    else (10%Z, s) in
  (fun v => sign * v)%Z <$> leading_digits radix s None.

(** Days from 1970-01-01 to the given civil date. *)
Definition days_from_civil (y m d : Z) : Z :=
  let y := (if m <=? 2 then y - 1 else y)%Z in
  let era := (y / 400)%Z in
  let yoe := (y - era * 400)%Z in
  let doy := ((153 * (if 2 <? m then m - 3 else m + 9) + 2) / 5 + d - 1)%Z in
  let doe := (yoe * 365 + yoe / 4 - yoe / 100 + doy)%Z in
  (era * 146097 + doe - 719468)%Z.

(** Exactly [n] decimal digits, and what follows them. *)
Fixpoint take_digits (n : nat) (s : string) (acc : Z) : option (Z * string) :=
  match n with
  | 0 => Some (acc, s)
  | S n' =>
      match s with
      | String c s' =>
          match digit_value c with
          | Some d => take_digits n' s' (10 * acc + d)%Z
          | None => None
          end
      | EmptyString => None
      end
  end.

(** A number of [n] digits between [lo] and [hi]. *)
Definition field (n : nat) (lo hi : Z) (s : string) : option (Z * string) :=
  match take_digits n s 0 with
  | Some (v, rest) => if ((lo <=? v) && (v <=? hi))%Z then Some (v, rest) else None
  | None => None
  end.

(** The offset at the end of a date-time, in minutes: nothing (local
    time, here UTC), [Z], [+HH:mm] or [-HH:mm]. *)
Definition parse_offset (s : string) : option Z :=
  match s with
  | EmptyString => Some 0%Z
  | String "Z" EmptyString => Some 0%Z
  | String c rest =>
      if Ascii.eqb c "+" || Ascii.eqb c "-" then
        match field 2 0 23 rest with
        | Some (h, String ":" rest') =>
            match field 2 0 59 rest' with
            | Some (m, EmptyString) =>
                Some (if Ascii.eqb c "-" then - (h * 60 + m) else h * 60 + m)%Z
            | _ => None
            end
        | _ => None
        end
      else None
  end.

(** The time of day after the [T], in milliseconds, less the offset. *)
Definition parse_time (s : string) : option Z :=
  match field 2 0 24 s with
  | Some (h, String ":" rest) =>
      match field 2 0 59 rest with
      | Some (m, rest) =>
          let '(seconds, rest) :=
            match rest with
            | String ":" rest' =>
                match field 2 0 59 rest' with
                | Some (sec, String "." rest'') =>
                    match field 3 0 999 rest'' with
                    | Some (ms, rest''') => (Some (sec * 1000 + ms)%Z, rest''')
                    | None => (None, rest'')
                    end
                | Some (sec, rest'') => (Some (sec * 1000)%Z, rest'')
                | None => (None, rest')
                end
            | _ => (Some 0%Z, rest)
            end in
          match seconds, parse_offset rest with
          | Some ms, Some offset =>
              if (h =? 24)%Z && negb ((m =? 0)%Z && (ms =? 0)%Z) then None
              else Some (((h * 60 + m) - offset) * 60000 + ms)%Z
          | _, _ => None
          end
      | None => None
      end
  | _ => None
  end.

(** [Date.parse(s)] for the date-time format of the language. *)
Definition parse_date (s : string) : option Z :=
  match field 4 0 9999 s with
  | Some (y, rest) =>
      let at_day (m d : Z) (rest : string) : option Z :=
        match rest with
        | EmptyString => Some (days_from_civil y m d * ms_per_day)%Z
        | String "T" rest' =>
            (fun t => days_from_civil y m d * ms_per_day + t)%Z <$> parse_time rest'
        | _ => None
        end in
      match rest with
      | String "-" rest' =>
          match field 2 1 12 rest' with
          | Some (m, String "-" rest'') =>
              match field 2 1 31 rest'' with
              | Some (d, rest''') => at_day m d rest'''
              | None => None
              end
          | Some (m, rest'') => at_day m 1%Z rest''
          | None => None
          end
      | _ => at_day 1%Z 1%Z rest
      end
  | None => None
  end.

Definition example_host : Host.
Proof.
  refine {| now := days_from_civil 2025 9 26 * ms_per_day;
            Date_parse := parse_date;
            parseInt := parse_int;
            Number_toString := pretty;
            Array_sort := @sort_stable |}.
  - reflexivity.
  - intros A compareFn arr.
    assert (forall x l, sort_insert compareFn x l ≡ₚ x :: l) as Hinsert.
    { intros x l. induction l as [|y l IH]; simpl; [reflexivity |].
      destruct (compareFn x y <=? 0)%Z; [reflexivity |].
      rewrite IH. apply Permutation_swap. }
    induction arr as [|x arr IH]; simpl; [reflexivity |].
    change (foldr (sort_insert compareFn) [] arr) with (sort_stable compareFn arr).
    rewrite Hinsert, IH. reflexivity.
  - reflexivity.
Defined.

End JS.

(** ** Objects used as dictionaries of counters

    A plain object: its own properties in the order of their creation,
    and behind them the properties it inherits from [Object.prototype].
    The values are those that [obj[k] = (obj[k] || 0) + 1] can read or
    store. *)

Module JSObject.

(** The functions inherited from [Object.prototype]. *)
Definition prototype_functions : list string :=
  ["constructor"; "hasOwnProperty"; "isPrototypeOf"; "propertyIsEnumerable";
   "toLocaleString"; "toString"; "valueOf";
   "__defineGetter__"; "__defineSetter__"; "__lookupGetter__"; "__lookupSetter__"].

(** A key that the object inherits: one of the functions, or the
    accessor [__proto__]. *)
Definition inherited (k : string) : Prop := k = "__proto__" \/ k ∈ prototype_functions.

#[global] Instance inherited_dec (k : string) : Decision (inherited k).
Proof. unfold inherited. apply _. Defined.

(** What a string made by the counting code starts with: the source
    text of an inherited function ("function ... { [native code] }"),
    or "[object Object]". *)
Inductive text : Type :=
| FunctionSource (name : string)
| ObjectTag.

(** A primitive value: a counter, or the string [base] followed by
    [ones] characters "1". *)
Inductive primitive : Type :=
| Number (n : nat)
| Text (base : text) (ones : nat).

(** What [obj[k]] reads. *)
Inductive value : Type :=
| Undefined
| Primitive (p : primitive)
| Function (name : string)
| ObjectPrototype.

Definition t : Type := list (string * primitive).

Fixpoint get_own (obj : t) (k : string) : option primitive :=
  match obj with
  | [] => None
  | (k', v) :: rest => if String.eqb k' k then Some v else get_own rest k
  end.

(** [obj[k]]: the own property, or else the inherited one; [__proto__]
    reads the prototype itself. *)
Definition get (obj : t) (k : string) : value :=
  match get_own obj k with
  | Some v => Primitive v
  | None =>
      if String.eqb k "__proto__" then ObjectPrototype
      else if bool_decide (k ∈ prototype_functions) then Function k
      else Undefined
  end.

(** [(v || 0) + 1]: [undefined] and 0 give 1; a function, an object and
    a string are truthy, and [+] appends "1" to their string. *)
Definition or_zero_plus_one (v : value) : primitive :=
  match v with
  | Undefined => Number 1
  | Primitive (Number n) => Number (n + 1)
  | Primitive (Text base ones) => Text base (ones + 1)
  | Function name => Text (FunctionSource name) 1
  | ObjectPrototype => Text ObjectTag 1
  end.

Fixpoint set_own (obj : t) (k : string) (v : primitive) : t :=
  match obj with
  | [] => [(k, v)]
  | (k', v') :: rest =>
      if String.eqb k' k then (k', v) :: rest else (k', v') :: set_own rest k v
  end.

(** [obj[k] = v] for a primitive [v]: the setter of [__proto__] ignores
    a value that is not an object; any other key becomes or stays an own
    property. *)
Definition set (obj : t) (k : string) (v : primitive) : t :=
  if String.eqb k "__proto__" then obj else set_own obj k v.

(** [obj[k] = (obj[k] || 0) + 1] *)
Definition increment (obj : t) (k : string) : t :=
  set obj k (or_zero_plus_one (get obj k)).

(** The number a primitive converts to, [None] for NaN: none of the
    strings is a numeral. *)
Definition to_number (p : primitive) : option Z :=
  match p with
  | Number n => Some (Z.of_nat n)
  | Text _ _ => None
  end.

(** The number a primitive counts for in a total; a string counts for
    nothing. *)
Definition counter (p : primitive) : nat :=
  match p with
  | Number n => n
  | Text _ _ => 0
  end.

(** Every own property holds a counter. *)
Definition counters (obj : t) : Prop :=
  Forall (fun e => exists n, e.2 = Number n) obj.

(** [a - b] as the result of a comparator: NaN counts as 0. *)
Definition subtract (a b : primitive) : Z :=
  match to_number a, to_number b with
  | Some x, Some y => (x - y)%Z
  | _, _ => 0%Z
  end.

(** An array index: a canonical decimal numeral below [2^32 - 1]. *)
Definition is_array_index (k : string) : bool :=
  JS.all_digits k && negb (String.eqb k "") &&
  (String.eqb k "0" || negb (String.prefix "0" k)) &&
  (JS.decimal_value k <? 4294967295)%Z.

Definition index_value (k : string) : Z := JS.decimal_value k.

(** [Object.entries(obj)]: the keys that are array indices first, in
    ascending numeric order, then the other keys in creation order. *)
Definition entries (obj : t) : list (string * primitive) :=
  JS.sort_stable (fun a b => index_value a.1 - index_value b.1)%Z
    (List.filter (fun e => is_array_index e.1) obj)
  ++ List.filter (fun e => negb (is_array_index e.1)) obj.

End JSObject.

(** ** Matching without regard to case, in the words of the claims *)

Module IgnoringCase.

(** The upper-case letters below 256 and, in the same order, their
    lower case. *)
Definition upper_case : list ascii :=
  list_ascii_of_string "ABCDEFGHIJKLMNOPQRSTUVWXYZ"
  ++ (ascii_of_nat <$> seq 192 23 ++ seq 216 7).

Definition lower_case : list ascii :=
  list_ascii_of_string "abcdefghijklmnopqrstuvwxyz"
  ++ (ascii_of_nat <$> seq 224 23 ++ seq 248 7).

(** The same letter, in either case. *)
Definition same_letter (a b : ascii) : Prop :=
  a = b \/ (a, b) ∈ zip upper_case lower_case \/ (b, a) ∈ zip upper_case lower_case.

(** The same text, letter by letter. *)
Inductive same : string -> string -> Prop :=
| same_empty : same "" ""
| same_letters a b s t : same_letter a b -> same s t -> same (String a s) (String b t).

(** [needle] occurs in [haystack], case apart. *)
Definition contains (haystack needle : string) : Prop :=
  exists before middle after,
    haystack = before +:+ middle +:+ after /\ same middle needle.

End IgnoringCase.

(** ** Threat records *)

Record Threat : Type := {
  cveID : string;
  vendorProject : string;
  product : string;
  vulnerabilityName : string;
  dateAdded : string;
  dueDate : string;
  severity : string;
  cwes : list string;
  shortDescription : string;
  knownRansomwareCampaignUse : string;
  requiredAction : string
}.

(** ** api.js *)

Module Api.

(** The value of a property of a [filters] object: a string, an
    integer-valued number, a boolean, or nothing ([undefined], [null] or
    a missing property). *)
Inductive FilterValue : Type :=
| Text (s : string)
| Number (n : Z)
| Flag (b : bool)
| Absent.

Module Filters.
(** The [filters] argument. The page and the limit are integers when
    given ([None] when the property is absent). *)
Record t : Type := {
  search : FilterValue;
  vendor : FilterValue;
  severity : FilterValue;
  cwe : FilterValue;
  dateRange : FilterValue;
  sortBy : FilterValue;
  sortOrder : FilterValue;
  page : option Z;
  limit : option Z
}.

(** [{}], the default argument. *)
Definition empty : t :=
  {| search := Absent; vendor := Absent; severity := Absent; cwe := Absent;
     dateRange := Absent; sortBy := Absent; sortOrder := Absent;
     page := None; limit := None |}.
End Filters.

(** [if (value)]: a string is truthy unless empty, a number unless
    zero. *)
Definition truthy_value (v : FilterValue) : bool :=
  match v with
  | Text s => negb (String.eqb s "")
  | Number n => negb (n =? 0)%Z
  | Flag b => b
  | Absent => false
  end.

(** The string that [queryParams.append(key, value)] stores. *)
Definition value_string `{JS.Host} (v : FilterValue) : string :=
  match v with
  | Text s => s
  | Number n => JS.Number_toString n
  | Flag b => if b then "true" else "false"
  | Absent => "undefined"
  end.

(** A value that is not set, one that [if (value)] takes as false:
    nothing, the empty string, zero or [false]. *)
Definition unset (v : FilterValue) : Prop :=
  v = Absent \/ v = Text "" \/ v = Number 0 \/ v = Flag false.

(** [value !== s] and [s === value] for a string [s]: a value that is
    not a string is never equal to one. *)
Definition strict_equal (s : string) (v : FilterValue) : bool :=
  match v with
  | Text s' => String.eqb s s'
  | _ => false
  end.

Definition API_BASE_URL : string := "http://localhost:5000/api/v1".

(** *** Completions: a call returns a value or throws *)

Inductive Error : Type :=
| HttpError (status : Z)
| FetchError (message : string)
| SyntaxError (message : string)
| TypeError (message : string).

Inductive Completion (A : Type) : Type :=
| Return (a : A)
| Throw (e : Error).
Arguments Return {A} a.
Arguments Throw {A} e.

Definition bind {A B} (c : Completion A) (k : A -> Completion B) : Completion B :=
  match c with
  | Return a => k a
  | Throw e => Throw e
  end.

(** [try { body } catch (error) { handler(error) }] *)
Definition try_catch {A} (body : Completion A) (handler : Error -> Completion A) : Completion A :=
  match body with
  | Return a => Return a
  | Throw e => handler e
  end.

Notation "'await' x ':=' c 'in' k" := (bind c (fun x => k))
  (at level 10, x name, c at level 100, k at level 200).

(** *** The network *)

#[warnings="-register-all"]
Inductive Json : Type :=
| JNull
| JBool (b : bool)
| JNumber (n : Z)
| JString (s : string)
| JArray (items : list Json)
| JObject (fields : list (string * Json)).

(** A response: [ok], [status], and what [response.json()] does (it
    throws when the body is not JSON). *)
Record Response : Type := {
  ok : bool;
  status : Z;
  json : Completion Json
}.

(** A request: the path and the entries of the URLSearchParams. *)
Record Request : Type := {
  url : string;
  queryParams : list (string * string)
}.

(** The network as [fetch] sees it: a response, or a thrown error. *)
Definition Network : Type := Request -> Completion Response.

(** *** getMockData *)

Definition mockThreats : list Threat := [
  {| cveID := "CVE-2025-20362";
     vendorProject := "Cisco";
     product := "Secure Firewall Adaptive Security Appliance";
     vulnerabilityName := "Cisco Secure Firewall Missing Authorization Vulnerability";
     dateAdded := "2025-09-25";
     dueDate := "2025-09-26";
     severity := "Critical";
     cwes := ["CWE-862"];
     shortDescription := "Missing authorization vulnerability that could be chained with CVE-2025-20333";
     knownRansomwareCampaignUse := "Unknown";
     requiredAction := "Apply mitigations per vendor instructions" |};
  {| cveID := "CVE-2025-20333";
     vendorProject := "Cisco";
     product := "Secure Firewall Threat Defense";
     vulnerabilityName := "Cisco Secure Firewall Buffer Overflow Vulnerability";
     dateAdded := "2025-09-25";
     dueDate := "2025-09-26";
     severity := "Critical";
     cwes := ["CWE-120"];
     shortDescription := "Buffer overflow vulnerability allowing remote code execution";
     knownRansomwareCampaignUse := "Unknown";
     requiredAction := "Apply mitigations per vendor instructions" |};
  {| cveID := "CVE-2025-10585";
     vendorProject := "Google";
     product := "Chromium V8";
     vulnerabilityName := "Google Chromium V8 Type Confusion Vulnerability";
     dateAdded := "2025-09-23";
     dueDate := "2025-10-14";
     severity := "High";
     cwes := ["CWE-843"];
     shortDescription := "Type confusion vulnerability in V8 JavaScript engine";
     knownRansomwareCampaignUse := "Unknown";
     requiredAction := "Apply mitigations per vendor instructions" |}
].

Record MockResult : Type := {
  threats : list Threat;
  total : nat;
  page : Z;
  totalPages : Z
}.

(** The callback of the search filter; [searchTerm] is already lower
    case. *)
Definition search_callback (searchTerm : string) (threat : Threat) : bool :=
  JS.includes (JS.toLowerCase (cveID threat)) searchTerm ||
  JS.includes (JS.toLowerCase (vendorProject threat)) searchTerm ||
  JS.includes (JS.toLowerCase (product threat)) searchTerm ||
  JS.includes (JS.toLowerCase (vulnerabilityName threat)) searchTerm.

(** [filters.search.toLowerCase()]: only a string has the method. *)
Definition toLowerCase_of (v : FilterValue) : Completion string :=
  match v with
  | Text s => Return (JS.toLowerCase s)
  | _ => Throw (TypeError "filters.search.toLowerCase is not a function")
  end.

(** [filters.f && filters.f !== 'all'] *)
Definition set_and_not_all (v : FilterValue) : bool :=
  truthy_value v && negb (strict_equal "all" v).

Definition getMockData (filters : Filters.t) : Completion MockResult :=
  let filtered := mockThreats in
  await filtered :=
    (if truthy_value (Filters.search filters) then
       await searchTerm := toLowerCase_of (Filters.search filters) in
       Return (List.filter (search_callback searchTerm) filtered)
     else Return filtered) in
  let filtered :=
    if set_and_not_all (Filters.vendor filters) then
      List.filter (fun threat => strict_equal (vendorProject threat) (Filters.vendor filters))
        filtered
    else filtered in
  let filtered :=
    if set_and_not_all (Filters.severity filters) then
      List.filter (fun threat => strict_equal (severity threat) (Filters.severity filters))
        filtered
    else filtered in
  Return
    {| threats := filtered;
       total := length filtered;
       page := JS.or_default (Filters.page filters) 1;
       totalPages :=
         JS.ceil_div (Z.of_nat (length filtered))
           (JS.or_default (Filters.limit filters) 10) |}.

(** *** fetchThreats *)

(** [if (v) queryParams.append(key, v)] *)
Definition append_value `{JS.Host} (key : string) (v : FilterValue)
    (params : list (string * string)) : list (string * string) :=
  if truthy_value v then params ++ [(key, value_string v)] else params.

Definition append_number `{JS.Host} (key : string) (v : option Z)
    (params : list (string * string)) : list (string * string) :=
  match v with
  | Some n => if (n =? 0)%Z then params else params ++ [(key, JS.Number_toString n)]
  | None => params
  end.

Definition threats_request `{JS.Host} (filters : Filters.t) : Request :=
  let queryParams := [] in
  let queryParams := append_value "search" (Filters.search filters) queryParams in
  let queryParams := append_value "vendor" (Filters.vendor filters) queryParams in
  let queryParams := append_value "severity" (Filters.severity filters) queryParams in
  let queryParams := append_value "cwe" (Filters.cwe filters) queryParams in
  let queryParams := append_value "date_range" (Filters.dateRange filters) queryParams in
  let queryParams := append_value "sort_by" (Filters.sortBy filters) queryParams in
  let queryParams := append_value "sort_order" (Filters.sortOrder filters) queryParams in
  let queryParams := append_number "page" (Filters.page filters) queryParams in
  let queryParams := append_number "limit" (Filters.limit filters) queryParams in
  {| url := API_BASE_URL +:+ "/threats"; queryParams := queryParams |}.

(** What [fetchThreats] resolves to: the parsed body of the response, or
    the mock data. *)
Inductive ThreatsResult : Type :=
| Body (body : Json)
| Mock (data : MockResult).

Definition fetchThreats `{JS.Host} (fetch : Network) (filters : Filters.t)
    : Completion ThreatsResult :=
  try_catch
    (await response := fetch (threats_request filters) in
     if negb (ok response) then Throw (HttpError (status response))
     else
       await body := json response in
       Return (Body body))
    (fun error =>
       await data := getMockData filters in
       Return (Mock data)).

(** The request failed: [fetch] threw, the status was not OK, or the
    body was not JSON. *)
Definition request_failed `{JS.Host} (fetch : Network) (filters : Filters.t) : Prop :=
  match fetch (threats_request filters) with
  | Throw _ => True
  | Return response =>
      ok response = false \/ exists e, json response = Throw e
  end.

(** *** Helpers exported to the components *)

Section Helpers.
Context `{JS.Host}.

Definition getDaysUntilDue (dueDate : string) : JS.number :=
  let due := JS.Date_parse dueDate in
  let now := JS.now in
  let diffTime := (fun d => d - now)%Z <$> due in
  match diffTime with
  | Some d => JS.of_Z (JS.ceil_div d JS.ms_per_day)
  | None => JS.NaN
  end.
End Helpers.

Definition getSeverityColor (severity : string) : string :=
  if String.eqb severity "Critical" then "bg-red-500"
  else if String.eqb severity "High" then "bg-orange-500"
  else if String.eqb severity "Medium" then "bg-yellow-500"
  else if String.eqb severity "Low" then "bg-green-500"
  else "bg-gray-500".

Definition getSeverityBadgeVariant (severity : string) : string :=
  if String.eqb severity "Critical" then "destructive"
  else if String.eqb severity "High" then "destructive"
  else if String.eqb severity "Medium" then "secondary"
  else if String.eqb severity "Low" then "outline"
  else "outline".

Definition getUrgencyColor (daysUntilDue : JS.number) : string :=
  if JS.lt daysUntilDue (JS.of_Z 0) then "text-red-600 font-bold"
  else if JS.le daysUntilDue (JS.of_Z 3) then "text-orange-600 font-semibold"
  else if JS.le daysUntilDue (JS.of_Z 7) then "text-yellow-600"
  else "text-gray-600".

(** *** The other endpoints *)

Definition threat_request (cveId : string) : Request :=
  {| url := API_BASE_URL +:+ "/threats/" +:+ cveId; queryParams := [] |}.

(** [fetchThreatById] resolves to the parsed body, or to [null]. *)
Definition fetchThreatById (fetch : Network) (cveId : string) : Completion Json :=
  try_catch
    (await response := fetch (threat_request cveId) in
     if negb (ok response) then Throw (HttpError (status response))
     else
       await body := json response in
       Return body)
    (fun error => Return JNull).

Record MockAnalytics : Type := {
  mock_vendorStats : list (string * nat);
  mock_severityStats : list (string * nat);
  mock_cweStats : list (string * nat);
  mock_timelineData : list (string * nat)
}.

Definition getMockAnalytics : MockAnalytics :=
  {| mock_vendorStats :=
       [("Microsoft", 340); ("Apple", 84); ("Cisco", 80); ("Adobe", 74); ("Google", 65)];
     mock_severityStats := [("Critical", 14); ("High", 12); ("Medium", 14); ("Low", 15)];
     mock_cweStats := [("CWE-119", 9); ("CWE-20", 8); ("CWE-79", 8); ("CWE-22", 7)];
     mock_timelineData :=
       [("2025-09-20", 2); ("2025-09-21", 1); ("2025-09-22", 4);
        ("2025-09-23", 3); ("2025-09-24", 2); ("2025-09-25", 6)] |}.

Definition analytics_request : Request :=
  {| url := API_BASE_URL +:+ "/analytics"; queryParams := [] |}.

Inductive AnalyticsResult : Type :=
| AnalyticsBody (body : Json)
| AnalyticsMock (data : MockAnalytics).

Definition fetchAnalytics (fetch : Network) : Completion AnalyticsResult :=
  try_catch
    (await response := fetch analytics_request in
     if negb (ok response) then Throw (HttpError (status response))
     else
       await body := json response in
       Return (AnalyticsBody body))
    (fun error => Return (AnalyticsMock getMockAnalytics)).

Module Download.
(** A request with its method, headers and body, and a response read
    with [response.blob()]. *)
Record Request : Type := {
  url : string;
  method : string;
  headers : list (string * string);
  body : option Filters.t;
  queryParams : list (string * string)
}.

Record Response : Type := {
  ok : bool;
  status : Z;
  blob : Completion string
}.

Definition Network : Type := Request -> Completion Response.
End Download.

(** The body of the request is [JSON.stringify(filters)], kept here as
    the filters themselves. *)
Definition report_request (reportType : string) (filters : Filters.t) : Download.Request :=
  {| Download.url := API_BASE_URL +:+ "/reports/" +:+ reportType;
     Download.method := "POST";
     Download.headers := [("Content-Type", "application/json")];
     Download.body := Some filters;
     Download.queryParams := [] |}.

Definition generateReport (fetch : Download.Network) (reportType : string)
    (filters : Filters.t) : Completion string :=
  try_catch
    (await response := fetch (report_request reportType filters) in
     if negb (Download.ok response) then Throw (HttpError (Download.status response))
     else
       await file := Download.blob response in
       Return file)
    (fun error => Throw error).

(** [format] is [None] when the argument is left out; [filters] is given
    by its entries, in the order of [Object.entries]. *)
Definition export_request `{JS.Host} (format : option string)
    (filters : list (string * FilterValue)) : Download.Request :=
  let format := default "json" format in
  let queryParams := [] in
  let queryParams := queryParams ++ [("format", format)] in
  let queryParams :=
    foldl (fun params entry =>
             if truthy_value entry.2 then params ++ [(entry.1, value_string entry.2)]
             else params)
          queryParams filters in
  {| Download.url := API_BASE_URL +:+ "/export";
     Download.method := "GET";
     Download.headers := [];
     Download.body := None;
     Download.queryParams := queryParams |}.

Definition exportData `{JS.Host} (fetch : Download.Network) (format : option string)
    (filters : list (string * FilterValue)) : Completion string :=
  try_catch
    (await response := fetch (export_request format filters) in
     if negb (Download.ok response) then Throw (HttpError (Download.status response))
     else
       await file := Download.blob response in
       Return file)
    (fun error => Throw error).

(** What is sent for a value that is set: the string itself when it is
    not empty, the string of the number when it is not zero, "true" for
    [true]. *)
Definition sent `{JS.Host} (value : FilterValue) (v : string) : Prop :=
  (exists s, value = Text s /\ s <> "" /\ v = s) \/
  (exists n, value = Number n /\ n <> 0%Z /\ v = JS.Number_toString n) \/
  (value = Flag true /\ v = "true").

(** The keys that [fetchThreats] can send, in the order it appends them. *)
Definition threats_request_keys : list string :=
  ["search"; "vendor"; "severity"; "cwe"; "date_range"; "sort_by"; "sort_order";
   "page"; "limit"].

End Api.

(** ** App.jsx *)

Module App.

(** The state of the [App] component ([useState]). [currentPage] is a
    page number starting at 1. *)
Record State : Type := {
  threats : list Threat;
  searchTerm : string;
  selectedVendor : string;
  selectedSeverity : string;
  selectedCWE : string;
  dateRange : string;
  sortBy : string;
  sortOrder : string;
  currentPage : nat
}.

(** [const [itemsPerPage] = useState(10)]: the page size is never set. *)
Definition itemsPerPage : nat := 10.

(** The state after the first render, for a given list of threats. *)
Definition initial (threats : list Threat) : State :=
  {| threats := threats; searchTerm := ""; selectedVendor := "all";
     selectedSeverity := "all"; selectedCWE := "all"; dateRange := "all";
     sortBy := "dateAdded"; sortOrder := "desc"; currentPage := 1 |}.

(** *** Values read by the sort callback *)

Inductive Value : Type :=
| Undefined
| Str (s : string)
| Arr (items : list string)
| DateObject (time : option Z).

(** [threat[key]]: an own property of the threat. A key that the threat
    inherits ([constructor], [__proto__], ...) reads the same function
    or object for every threat, which is neither less nor greater than
    itself, as [undefined] is: it is read as [Undefined] here. *)
Definition get_property (threat : Threat) (key : string) : Value :=
  if String.eqb key "cveID" then Str (cveID threat)
  else if String.eqb key "vendorProject" then Str (vendorProject threat)
  else if String.eqb key "product" then Str (product threat)
  else if String.eqb key "vulnerabilityName" then Str (vulnerabilityName threat)
  else if String.eqb key "dateAdded" then Str (dateAdded threat)
  else if String.eqb key "dueDate" then Str (dueDate threat)
  else if String.eqb key "severity" then Str (severity threat)
  else if String.eqb key "cwes" then Arr (cwes threat)
  else if String.eqb key "shortDescription" then Str (shortDescription threat)
  else if String.eqb key "knownRansomwareCampaignUse" then Str (knownRansomwareCampaignUse threat)
  else if String.eqb key "requiredAction" then Str (requiredAction threat)
  else Undefined.

(** The primitive a value is compared as: a string, or a number
    ([None] for NaN). *)
Inductive Primitive : Type :=
| PString (s : string)
| PNumber (n : option Z).

Definition to_primitive (v : Value) : Primitive :=
  match v with
  | Undefined => PNumber None
  | Str s => PString s
  | Arr items => PString (String.concat "," items)
  | DateObject time => PNumber time
  end.

(** [a < b]. Both operands of the sort callback are read with the same
    key, so they are two strings or two numbers. *)
Definition less_than (a b : Value) : bool :=
  match to_primitive a, to_primitive b with
  | PString x, PString y => String.ltb x y
  | PNumber (Some x), PNumber (Some y) => (x <? y)%Z
  | _, _ => false
  end.

Definition greater_than (a b : Value) : bool := less_than b a.

(** [new Date(number)]: the time value, or an invalid date outside the
    range of dates. *)
Definition time_clip (t : option Z) : option Z :=
  match t with
  | Some v => if (Z.abs v <=? 8640000000000000)%Z then Some v else None
  | None => None
  end.

Section Component.
Context `{JS.Host}.

(** [new Date(value)] in the sort callback. *)
Definition new_Date (v : Value) : Value :=
  match v with
  | Str s => DateObject (JS.Date_parse s)
  | DateObject time => DateObject time
  | Undefined | Arr _ => DateObject None
  end.

(** *** Filter and search logic *)

Definition matchesSearch (st : State) (threat : Threat) : bool :=
  String.eqb (searchTerm st) "" ||
  JS.includes (JS.toLowerCase (cveID threat)) (JS.toLowerCase (searchTerm st)) ||
  JS.includes (JS.toLowerCase (vendorProject threat)) (JS.toLowerCase (searchTerm st)) ||
  JS.includes (JS.toLowerCase (product threat)) (JS.toLowerCase (searchTerm st)) ||
  JS.includes (JS.toLowerCase (vulnerabilityName threat)) (JS.toLowerCase (searchTerm st)).

Definition matchesVendor (st : State) (threat : Threat) : bool :=
  String.eqb (selectedVendor st) "all" ||
  String.eqb (vendorProject threat) (selectedVendor st).

Definition matchesSeverity (st : State) (threat : Threat) : bool :=
  String.eqb (selectedSeverity st) "all" ||
  String.eqb (severity threat) (selectedSeverity st).

Definition matchesCWE (st : State) (threat : Threat) : bool :=
  String.eqb (selectedCWE st) "all" ||
  existsb (String.eqb (selectedCWE st)) (cwes threat).

Definition matchesDate (st : State) (threat : Threat) : bool :=
  if negb (String.eqb (dateRange st) "all") then
    let threatDate := JS.Date_parse (dateAdded threat) in
    let now := JS.now in
    let daysAgo := JS.parseInt (dateRange st) in
    let cutoffDate :=
      time_clip ((fun d => now - d * 24 * 60 * 60 * 1000)%Z <$> daysAgo) in
    match threatDate, cutoffDate with
    | Some t, Some c => (c <=? t)%Z
    | _, _ => false
    end
  else true.

Definition filter_callback (st : State) (threat : Threat) : bool :=
  matchesSearch st threat && matchesVendor st threat &&
  matchesSeverity st threat && matchesCWE st threat && matchesDate st threat.

Definition compareFn (st : State) (a b : Threat) : Z :=
  let aValue := get_property a (sortBy st) in
  let bValue := get_property b (sortBy st) in
  let is_date :=
    String.eqb (sortBy st) "dateAdded" || String.eqb (sortBy st) "dueDate" in
  let aValue := if is_date then new_Date aValue else aValue in
  let bValue := if is_date then new_Date bValue else bValue in
  if String.eqb (sortOrder st) "asc" then
    if greater_than aValue bValue then 1%Z else (-1)%Z
  else
    if less_than aValue bValue then 1%Z else (-1)%Z.

Definition filteredThreats (st : State) : list Threat :=
  let filtered := List.filter (filter_callback st) (threats st) in
  JS.sort_by (compareFn st) filtered.

(** *** Pagination *)

Definition totalPages (st : State) : nat :=
  JS.ceil_div_nat (length (filteredThreats st)) itemsPerPage.

Definition paginatedThreats (st : State) : list Threat :=
  JS.slice (filteredThreats st)
    ((currentPage st - 1) * itemsPerPage)
    (currentPage st * itemsPerPage).

(** *** Helpers defined inside the component *)

Definition getDaysUntilDue (dueDate : string) : JS.number :=
  let due := JS.Date_parse dueDate in
  let now := JS.now in
  let diffTime := (fun d => d - now)%Z <$> due in
  match diffTime with
  | Some d => JS.of_Z (JS.ceil_div d JS.ms_per_day)
  | None => JS.NaN
  end.
End Component.

(** The page shown when [setCurrentPage(page)] has been called. *)
Definition with_page (st : State) (page : nat) : State :=
  {| threats := threats st; searchTerm := searchTerm st;
     selectedVendor := selectedVendor st; selectedSeverity := selectedSeverity st;
     selectedCWE := selectedCWE st; dateRange := dateRange st;
     sortBy := sortBy st; sortOrder := sortOrder st; currentPage := page |}.

(** *** Analytics data *)

Module SeverityStat.
Record t : Type := { severity : string; count : JSObject.primitive }.
End SeverityStat.

(** [const stats = { Critical: 0, High: 0, Medium: 0, Low: 0 }] *)
Definition stats_init : JSObject.t :=
  [("Critical", JSObject.Number 0); ("High", JSObject.Number 0);
   ("Medium", JSObject.Number 0); ("Low", JSObject.Number 0)].

(** [stats[threat.severity] = (stats[threat.severity] || 0) + 1] *)
Definition stats_step (stats : JSObject.t) (threat : Threat) : JSObject.t :=
  JSObject.increment stats (severity threat).

Definition severity_counts (threats : list Threat) : JSObject.t :=
  foldl stats_step stats_init threats.

(** [Object.entries(stats).map(([severity, count]) => ({ severity, count }))] *)
Definition severityStats (threats : list Threat) : list SeverityStat.t :=
  (fun entry => {| SeverityStat.severity := entry.1; SeverityStat.count := entry.2 |})
    <$> JSObject.entries (severity_counts threats).

Definition uniqueVendors (threats : list Threat) : list string :=
  JS.sort_strings (JS.Set_from (vendorProject <$> threats)).

Definition uniqueCWEs (threats : list Threat) : list string :=
  JS.sort_strings (JS.Set_from (flat_map cwes threats)).

Definition getSeverityColor (severity : string) : string :=
  if String.eqb severity "Critical" then "bg-red-500"
  else if String.eqb severity "High" then "bg-orange-500"
  else if String.eqb severity "Medium" then "bg-yellow-500"
  else if String.eqb severity "Low" then "bg-green-500"
  else "bg-gray-500".

Definition getSeverityBadgeVariant (severity : string) : string :=
  if String.eqb severity "Critical" then "destructive"
  else if String.eqb severity "High" then "destructive"
  else if String.eqb severity "Medium" then "secondary"
  else if String.eqb severity "Low" then "outline"
  else "outline".

Definition getUrgencyColor (daysUntilDue : JS.number) : string :=
  if JS.lt daysUntilDue (JS.of_Z 0) then "text-red-600 font-bold"
  else if JS.le daysUntilDue (JS.of_Z 3) then "text-orange-600 font-semibold"
  else if JS.le daysUntilDue (JS.of_Z 7) then "text-yellow-600"
  else "text-gray-600".

(** *** Further analytics data *)

Module VendorStat.
Record t : Type := { vendor : string; count : JSObject.primitive }.
End VendorStat.

Module CweStat.
Record t : Type := { cwe : string; count : JSObject.primitive }.
End CweStat.

Module TimelineEntry.
Record t : Type := { date : string; count : JSObject.primitive }.
End TimelineEntry.

(** The [stats] object of [vendorStats] after the [forEach]. *)
Definition vendor_counts (threats : list Threat) : JSObject.t :=
  foldl (fun stats threat => JSObject.increment stats (vendorProject threat)) [] threats.

(** The [stats] object of [cweStats]: one increment per element of each
    [cwes] array. *)
Definition cwe_counts (threats : list Threat) : JSObject.t :=
  foldl (fun stats threat => foldl JSObject.increment stats (cwes threat)) [] threats.

Definition timeline_counts (threats : list Threat) : JSObject.t :=
  foldl (fun timeline threat => JSObject.increment timeline (dateAdded threat)) [] threats.

Section Statistics.
Context `{JS.Host}.

(** [.sort((a, b) => b.count - a.count).slice(0, 10)] *)
Definition vendorStats (threats : list Threat) : list VendorStat.t :=
  JS.slice
    (JS.sort_by
       (fun a b => JSObject.subtract (VendorStat.count b) (VendorStat.count a))
       ((fun entry => {| VendorStat.vendor := entry.1; VendorStat.count := entry.2 |})
          <$> JSObject.entries (vendor_counts threats)))
    0 10.

Definition cweStats (threats : list Threat) : list CweStat.t :=
  JS.slice
    (JS.sort_by
       (fun a b => JSObject.subtract (CweStat.count b) (CweStat.count a))
       ((fun entry => {| CweStat.cwe := entry.1; CweStat.count := entry.2 |})
          <$> JSObject.entries (cwe_counts threats)))
    0 8.

(** [new Date(a.date) - new Date(b.date)]; a NaN result counts as 0 for
    the sort. *)
Definition compare_dates (a b : TimelineEntry.t) : Z :=
  match JS.Date_parse (TimelineEntry.date a), JS.Date_parse (TimelineEntry.date b) with
  | Some x, Some y => (x - y)%Z
  | _, _ => 0%Z
  end.

Definition timelineData (threats : list Threat) : list TimelineEntry.t :=
  JS.slice_last
    (JS.sort_by compare_dates
       ((fun entry => {| TimelineEntry.date := entry.1; TimelineEntry.count := entry.2 |})
          <$> JSObject.entries (timeline_counts threats)))
    30.
End Statistics.

(** *** The cards of the dashboard tab *)

(** [threats.filter(t => t.severity === 'Critical').length] *)
Definition criticalCount (threats : list Threat) : nat :=
  length (List.filter (fun t => String.eqb (severity t) "Critical") threats).

(** [threats.filter(t => t.severity === 'Critical').slice(0, 5)] *)
Definition recentCritical (threats : list Threat) : list Threat :=
  JS.slice (List.filter (fun t => String.eqb (severity t) "Critical") threats) 0 5.

Section Cards.
Context `{JS.Host}.

(** [threats.filter(t => getDaysUntilDue(t.dueDate) < 0).length] *)
Definition overdueCount (threats : list Threat) : nat :=
  length (List.filter (fun t => JS.lt (getDaysUntilDue (dueDate t)) (JS.of_Z 0)) threats).

(** *** The pagination controls *)

(** [totalPages > 1 && ...]: the controls are rendered. *)
Definition pagination_visible (st : State) : bool := 1 <? totalPages st.

(** The numbered buttons: [Array.from({ length: Math.min(5, totalPages) },
    (_, i) => i + 1)]. *)
Definition page_buttons (st : State) : list nat :=
  (fun i => i + 1) <$> seq 0 (5 `min` totalPages st).

Definition previous_disabled (st : State) : bool := currentPage st =? 1.
Definition next_disabled (st : State) : bool := currentPage st =? totalPages st.

(** [setCurrentPage(Math.max(1, currentPage - 1))] *)
Definition previous_page (st : State) : State :=
  with_page st (1 `max` (currentPage st - 1)).

(** [setCurrentPage(Math.min(totalPages, currentPage + 1))] *)
Definition next_page (st : State) : State :=
  with_page st (totalPages st `min` (currentPage st + 1)).

(** A click on one of the controls: they exist only when rendered, and a
    disabled button does nothing. *)
Inductive click : State -> State -> Prop :=
| click_previous st :
    pagination_visible st = true -> previous_disabled st = false ->
    click st (previous_page st)
| click_number st page :
    pagination_visible st = true -> page ∈ page_buttons st ->
    click st (with_page st page)
| click_next st :
    pagination_visible st = true -> next_disabled st = false ->
    click st (next_page st).

(** The page number lies between 1 and the number of pages (1 when there
    is no page). *)
Definition page_in_range (st : State) : Prop :=
  1 <= currentPage st <= 1 `max` totalPages st.
End Cards.

(** *** The mock data of the component *)

(** The letter e with a grave accent, U+00E8. *)
Definition e_grave : ascii := "232"%char.

Definition mockThreatData : list Threat := [
  {| cveID := "CVE-2025-20362";
     vendorProject := "Cisco";
     product := "Secure Firewall Adaptive Security Appliance";
     vulnerabilityName := "Cisco Secure Firewall Missing Authorization Vulnerability";
     dateAdded := "2025-09-25";
     dueDate := "2025-09-26";
     severity := "Critical";
     cwes := ["CWE-862"];
     shortDescription := "Missing authorization vulnerability that could be chained with CVE-2025-20333";
     knownRansomwareCampaignUse := "Unknown";
     requiredAction := "Apply mitigations per vendor instructions" |};
  {| cveID := "CVE-2025-20333";
     vendorProject := "Cisco";
     product := "Secure Firewall Threat Defense";
     vulnerabilityName := "Cisco Secure Firewall Buffer Overflow Vulnerability";
     dateAdded := "2025-09-25";
     dueDate := "2025-09-26";
     severity := "Critical";
     cwes := ["CWE-120"];
     shortDescription := "Buffer overflow vulnerability allowing remote code execution";
     knownRansomwareCampaignUse := "Unknown";
     requiredAction := "Apply mitigations per vendor instructions" |};
  {| cveID := "CVE-2025-10585";
     vendorProject := "Google";
     product := "Chromium V8";
     vulnerabilityName := "Google Chromium V8 Type Confusion Vulnerability";
     dateAdded := "2025-09-23";
     dueDate := "2025-10-14";
     severity := "High";
     cwes := ["CWE-843"];
     shortDescription := "Type confusion vulnerability in V8 JavaScript engine";
     knownRansomwareCampaignUse := "Unknown";
     requiredAction := "Apply mitigations per vendor instructions" |};
  {| cveID := "CVE-2025-5086";
     vendorProject := "Dassault Syst" +:+ String e_grave "mes";
     product := "DELMIA Apriso";
     vulnerabilityName :=
       "Dassault Syst" +:+ String e_grave "mes DELMIA Apriso Deserialization Vulnerability";
     dateAdded := "2025-09-11";
     dueDate := "2025-10-02";
     severity := "High";
     cwes := ["CWE-502"];
     shortDescription := "Deserialization of untrusted data vulnerability leading to RCE";
     knownRansomwareCampaignUse := "Unknown";
     requiredAction := "Apply mitigations per vendor instructions" |};
  {| cveID := "CVE-2025-38352";
     vendorProject := "Linux";
     product := "Kernel";
     vulnerabilityName := "Linux Kernel TOCTOU Race Condition Vulnerability";
     dateAdded := "2025-09-04";
     dueDate := "2025-09-25";
     severity := "High";
     cwes := ["CWE-367"];
     shortDescription := "Time-of-check time-of-use race condition vulnerability";
     knownRansomwareCampaignUse := "Unknown";
     requiredAction := "Apply mitigations per vendor instructions" |}
].

(** The random draws of [generateMockData], by the rank of the call of
    [Math.random()]: [floor_random k n] is [Math.floor(Math.random() * n)]
    at call [k], [random_above k] tells whether [Math.random() > 0.8] at
    call [k]; and the date string of a local date,
    [new Date(y, m, d).toISOString().split('T')[0]]. [Math.random()] is
    at least 0 and less than 1, so that a draw among [n] choices is less
    than [n]. *)
Class MathRandom : Type := {
  floor_random : nat -> nat -> nat;
  random_above : nat -> bool;
  local_iso_date : Z -> Z -> Z -> string;
  floor_random_lt : forall k n, 0 < n -> floor_random k n < n
}.

Definition vendors : list string :=
  ["Microsoft"; "Apple"; "Adobe"; "Oracle"; "VMware"; "Ivanti"; "D-Link"; "Apache"].
Definition severities : list string := ["Critical"; "High"; "Medium"; "Low"].
Definition cwe_ids : list string :=
  ["CWE-20"; "CWE-78"; "CWE-787"; "CWE-416"; "CWE-119"; "CWE-79"; "CWE-89"; "CWE-22"].

Section MockData.
Context `{MathRandom}.

(** The threat pushed by iteration [i] of the loop; six calls of
    [Math.random()] per iteration ([level] is the [severity] drawn). The
    indices drawn are in range ([floor_random_lt]): the default of [nth]
    is never read. *)
Definition additional_threat (i : nat) : Threat :=
  let vendor := nth (floor_random (6 * i) (length vendors)) vendors "undefined" in
  let level := nth (floor_random (6 * i + 1) (length severities)) severities "undefined" in
  let cwe := nth (floor_random (6 * i + 2) (length cwe_ids)) cwe_ids "undefined" in
  {| cveID := "CVE-2025-" +:+ pretty (10000 + Z.of_nat i)%Z;
     vendorProject := vendor;
     product := vendor +:+ " Product " +:+ pretty i;
     vulnerabilityName := vendor +:+ " " +:+ level +:+ " Vulnerability " +:+ pretty i;
     dateAdded := local_iso_date 2025 8 (Z.of_nat (floor_random (6 * i + 3) 25) + 1);
     dueDate := local_iso_date 2025 9 (Z.of_nat (floor_random (6 * i + 4) 30) + 1);
     severity := level;
     cwes := [cwe];
     shortDescription :=
       "Sample " +:+ JS.toLowerCase level +:+ " vulnerability in " +:+ vendor +:+ " product";
     knownRansomwareCampaignUse := if random_above (6 * i + 5) then "Known" else "Unknown";
     requiredAction := "Apply mitigations per vendor instructions" |}.

Definition generateMockData : list Threat :=
  let additionalData := additional_threat <$> seq 0 50 in
  mockThreatData ++ additionalData.
End MockData.

(** Two digits of a month or a day. *)
Definition two_digits (n : Z) : string :=
  if (n <? 10)%Z then "0" +:+ pretty n else pretty n.

(** A draw that always gives the first choice ([Math.random()] is 0), in
    a time zone where the local date is the UTC date. *)
Definition first_choice : MathRandom :=
  {| floor_random := fun _ _ => 0; random_above := fun _ => false;
     local_iso_date := fun y m d =>
       pretty y +:+ "-" +:+ two_digits (m + 1) +:+ "-" +:+ two_digits d;
     floor_random_lt := fun _ n Hn => Hn |}.

End App.

(** ** components/ThreatDetailsModal.jsx *)

Module ThreatDetailsModal.

(** [if (!isOpen || !threat) return null]: the modal is rendered. *)
Definition rendered (threat : option Threat) (isOpen : bool) : bool :=
  negb (negb isOpen || negb (bool_decide (is_Some threat))).

(** The text of the Urgency field of the risk assessment. *)
Definition urgency (daysUntilDue : JS.number) : string :=
  if JS.le daysUntilDue (JS.of_Z 0) then "Immediate"
  else if JS.le daysUntilDue (JS.of_Z 3) then "High"
  else "Medium".

(** The class of the Impact Level field. *)
Definition impact_class (threat : Threat) : string :=
  if String.eqb (severity threat) "Critical" then "text-red-600"
  else if String.eqb (severity threat) "High" then "text-orange-600"
  else "text-yellow-600".

(** The text of the Exploitation field. *)
Definition exploitation (threat : Threat) : string :=
  if String.eqb (knownRansomwareCampaignUse threat) "Known" then "Active" else "Potential".

Section Modal.
Context `{JS.Host}.

Definition daysUntilDue (threat : Threat) : JS.number := Api.getDaysUntilDue (dueDate threat).
Definition urgencyColor (threat : Threat) : string := Api.getUrgencyColor (daysUntilDue threat).
End Modal.

End ThreatDetailsModal.

(** ** The collection engine

    The definitions of this part follow the specification of the engine,
    section by section. Time is counted in seconds. *)

Module Engine.

(** *** Data model (specification, section 3) *)

(** Modelled from the spec: the kinds of source. *)
Inductive SourceKind : Type := api | scrape | interactive.

(** Modelled from the spec: the SourceDescriptor, an immutable
    configuration entry. *)
Record SourceDescriptor : Type := {
  name : string;
  location : string;
  kind : SourceKind;
  extraction_rules : list (string * string);
  auth_required : bool
}.

(** Modelled from the spec: the Record, one unit of collected
    intelligence. *)
Record DataRecord : Type := {
  source_name : string;
  collected_at : Z;
  domain : string;
  fields : list (string * string)
}.

(** Modelled from the spec: the CollectionResult, with the top-level
    [degraded] flag of section 4.5. *)
Record CollectionResult : Type := {
  result_domain : string;
  result_location : string;
  result_collected_at : Z;
  records : list DataRecord;
  sources_attempted : nat;
  sources_succeeded : nat;
  available_filters : list (string * list string);
  degraded : bool
}.

(** Modelled from the spec: the CacheEntry. *)
Record CacheEntry : Type := {
  key : string;
  payload : CollectionResult;
  fetched_at : Z
}.

(** Modelled from the spec: the stages of an interactive session and the
    SessionState. *)
Inductive FailureReason : Type :=
| login_timeout
| login_rejected
| session_dropped.

Inductive Stage : Type :=
| not_started
| logging_in
| authenticated
| extracting
| done
| failed (reason : FailureReason).

Record SessionState : Type := {
  stage : Stage;
  items_extracted : nat;
  scroll_count : nat
}.

(** *** Source Registry (section 4.1) *)

(** Modelled from the spec: the generic descriptor synthesized for a
    domain without configured sources, of kind [scrape], with the domain
    name templated into a search URL. *)
Definition generic_source (domain : string) : SourceDescriptor :=
  {| name := "generic-" +:+ domain;
     location := "https://www.google.com/search?q=" +:+ domain;
     kind := scrape;
     extraction_rules := [];
     auth_required := false |}.

(** Modelled from the spec: the Source Registry's [resolve]. A known
    domain gives its configured list, an unknown one the single generic
    descriptor. *)
Definition resolve (registry : gmap string (list SourceDescriptor))
    (domain : string) : list SourceDescriptor :=
  match registry !! domain with
  | Some sources => sources
  | None => [generic_source domain]
  end.

(** A registry in which no configured domain has an empty source
    list. *)
Definition well_formed (registry : gmap string (list SourceDescriptor)) : Prop :=
  forall domain sources, registry !! domain = Some sources -> sources <> [].

(** The configuration of the examples: two cybersecurity feeds. *)
Definition example_registry : gmap string (list SourceDescriptor) :=
  {[ "cybersecurity" :=
       [ {| name := "CISA KEV"; location := "https://www.cisa.gov/kev.json";
            kind := api; extraction_rules := [("items", "vulnerabilities")];
            auth_required := false |};
         {| name := "FBI IC3"; location := "https://www.ic3.gov/{location}";
            kind := scrape; extraction_rules := [("items", "article")];
            auth_required := false |} ] ]}.

(** *** Cache Store (section 4.2) *)

(** What the store holds for a key: an entry, or a persisted entry that
    cannot be read back. *)
Inductive Persisted : Type :=
| Readable (entry : CacheEntry)
| Corrupt.

(** Modelled from the spec: the Cache Store's [get]; a corrupt entry is
    a miss. *)
Definition get (cache : gmap string Persisted) (k : string) : option CacheEntry :=
  match cache !! k with
  | Some (Readable entry) => Some entry
  | Some Corrupt | None => None
  end.

(** Modelled from the spec: the Cache Store's [put], at clock time
    [now]. *)
Definition put (now : Z) (cache : gmap string Persisted) (k : string)
    (p : CollectionResult) : gmap string Persisted :=
  <[k := Readable {| key := k; payload := p; fetched_at := now |}]> cache.

(** Modelled from the spec: the Cache Store's [is_fresh], at clock time
    [now]: [now - entry.fetched_at < ttl]. *)
Definition is_fresh (now : Z) (entry : CacheEntry) (ttl : Z) : bool :=
  (now - fetched_at entry <? ttl)%Z.

(** Modelled from the spec: the Cache Store's [invalidate]. *)
Definition invalidate (key_prefix : string) (cache : gmap string Persisted)
    : gmap string Persisted :=
  filter (fun entry => String.prefix key_prefix entry.1 = false) cache.

(** The default time to live: 24 hours. *)
Definition default_ttl : Z := 24 * 60 * 60.

(** *** Interactive Collector: the scroll-and-extract loop (section 4.4) *)

(** Modelled from the spec: an extracted item with its identifier. *)
Record Item : Type := {
  item_id : string;
  item_fields : list (string * string)
}.

(** What one scroll shows: the items visible after it, or an
    unrecoverable error. *)
Inductive ScrollResult : Type :=
| Visible (items : list Item)
| Unrecoverable.

(** The behaviour of a source during extraction: what the [n]-th scroll
    shows and how long the page takes to settle after it. *)
Record Feed : Type := {
  scroll : nat -> ScrollResult;
  settle_time : nat -> nat
}.

(** Modelled from the spec: the hard caps and the timing policy of the
    loop (pacing interval and session timeout). *)
Record CollectionParams : Type := {
  max_items : nat;
  max_scrolls : nat;
  pacing : nat;
  session_timeout : nat
}.

(** The variables of the loop. *)
Record LoopState : Type := {
  extracted : list Item;
  scrolls : nat;
  unproductive : nat;
  elapsed : nat;
  dropped : bool
}.

Definition loop_start : LoopState :=
  {| extracted := []; scrolls := 0; unproductive := 0; elapsed := 0; dropped := false |}.

Definition seen (ids : list string) (it : Item) : bool :=
  existsb (String.eqb (item_id it)) ids.

(** De-duplication against the identifiers already extracted, and
    within the batch. *)
Fixpoint new_items (ids : list string) (batch : list Item) : list Item :=
  match batch with
  | [] => []
  | it :: rest =>
      if seen ids it then new_items ids rest
      else it :: new_items (item_id it :: ids) rest
  end.

Section Loop.
(** The specification does not say whether the [max_scrolls]
    iterations without new items have to be consecutive; the loop is
    modelled for both readings. *)
Variable consecutive : bool.
Variable params : CollectionParams.
Variable feed : Feed.

(** Modelled from the spec: the exits of the loop: [max_items] reached,
    [max_scrolls] iterations without new items, the wall-clock timeout,
    or an unrecoverable error. *)
Definition finished (st : LoopState) : bool :=
  dropped st ||
  (max_items params <=? length (extracted st)) ||
  (max_scrolls params <=? unproductive st) ||
  (session_timeout params <=? elapsed st).

(** Modelled from the spec: one iteration: scroll, wait the pacing
    interval, extract the newly visible items up to the cap. *)
Definition iteration (st : LoopState) : LoopState :=
  let time := elapsed st + pacing params + settle_time feed (scrolls st) in
  match scroll feed (scrolls st) with
  | Unrecoverable =>
      {| extracted := extracted st; scrolls := S (scrolls st);
         unproductive := unproductive st; elapsed := time; dropped := true |}
  | Visible batch =>
      let fresh := new_items (item_id <$> extracted st) batch in
      let room := max_items params - length (extracted st) in
      {| extracted := extracted st ++ take room fresh;
         scrolls := S (scrolls st);
         unproductive :=
           match fresh with
           | [] => S (unproductive st)
           | _ :: _ => if consecutive then 0 else unproductive st
           end;
         elapsed := time;
         dropped := false |}
  end.

(** Modelled from the spec: the scroll-and-extract loop, run for at
    most [fuel] iterations; [None] when the fuel does not suffice. *)
Fixpoint scroll_loop (fuel : nat) (st : LoopState) : option LoopState :=
  if finished st then Some st
  else
    match fuel with
    | O => None
    | S fuel' => scroll_loop fuel' (iteration st)
    end.

(** The loop variables after [n] iterations from [st]. *)
Definition after (n : nat) (st : LoopState) : LoopState := Nat.iter n iteration st.

(** What is left to do: items below the cap, then unproductive
    iterations below the threshold. *)
Definition measure (st : LoopState) : nat :=
  (max_items params - length (extracted st)) * S (max_scrolls params)
  + (max_scrolls params - unproductive st).

(** A number of iterations that always suffices. *)
Definition enough_fuel : nat :=
  S (max_items params) * S (max_scrolls params).

(** The clock after [n] iterations. *)
Fixpoint elapsed_after (n : nat) : nat :=
  match n with
  | O => 0
  | S n' => elapsed_after n' + pacing params + settle_time feed n'
  end.

(** Modelled from the spec: [collect_public_data], which starts at
    [extracting] and returns the records accumulated with the final
    session state. *)
Definition collect_public_data : SessionState * list Item :=
  match scroll_loop enough_fuel loop_start with
  | Some st =>
      ({| stage := if dropped st then failed session_dropped else done;
          items_extracted := length (extracted st);
          scroll_count := scrolls st |},
       extracted st)
  | None =>
      ({| stage := extracting; items_extracted := 0; scroll_count := 0 |}, [])
  end.
End Loop.

(** Every scroll shows exactly one item that was not shown before. *)
Definition one_new_item_per_scroll (feed : Feed) : Prop :=
  (forall n, exists it, scroll feed n = Visible [it]) /\
  (forall n m a b, scroll feed n = Visible [a] -> scroll feed m = Visible [b] ->
     item_id a = item_id b -> n = m).

(** No scroll shows anything. *)
Definition no_new_items (feed : Feed) : Prop :=
  forall n, scroll feed n = Visible [].

(** The feeds of the examples. *)
Definition endless_feed : Feed :=
  {| scroll := fun n => Visible [ {| item_id := pretty n; item_fields := [] |} ];
     settle_time := fun _ => 0 |}.

Definition empty_feed : Feed :=
  {| scroll := fun _ => Visible []; settle_time := fun _ => 0 |}.

(** *** Collectors as the Orchestrator calls them (sections 4.3, 4.4) *)

Record Credentials : Type := {
  username : string;
  password : string
}.

Inductive ErrorReason : Type := timeout | unreachable.

Record CollectionError : Type := {
  error_source : string;
  reason : ErrorReason
}.

(** What a request to a source gives: the items matched by the
    extraction rules, or no response. *)
Inductive FetchOutcome : Type :=
| Responded (items : list (list (string * string)))
| NoResponse (why : ErrorReason).

Inductive LoginOutcome : Type :=
| marker_observed
| marker_missing
| credentials_rejected.

(** The sources as the engine meets them during one collection. *)
Record World : Type := {
  respond : SourceDescriptor -> string -> list (string * string) -> FetchOutcome;
  login : SourceDescriptor -> Credentials -> LoginOutcome;
  feed_of : SourceDescriptor -> Feed
}.

Record Config : Type := {
  registry : gmap string (list SourceDescriptor);
  ttl : Z;
  collection_params : CollectionParams;
  consecutive_exhaustion : bool;
  max_items_per_source : nat
}.

Definition to_record (now : Z) (dom : string) (source : SourceDescriptor)
    (item : list (string * string)) : DataRecord :=
  {| source_name := name source; collected_at := now; domain := dom; fields := item |}.

(** Modelled from the spec: the Fetch Collector's [collect]: the records
    of the matched items, capped, or a CollectionError. *)
Definition collect (cfg : Config) (w : World) (now : Z) (dom : string)
    (source : SourceDescriptor) (loc : string) (filters : list (string * string))
    : list DataRecord + CollectionError :=
  match respond w source loc filters with
  | Responded items =>
      inl (take (max_items_per_source cfg) (to_record now dom source <$> items))
  | NoResponse why => inr {| error_source := name source; reason := why |}
  end.

(** Modelled from the spec: the Interactive Collector's
    [collect_with_login]: log in, then extract. *)
Definition collect_with_login (cfg : Config) (w : World)
    (source : SourceDescriptor) (credentials : Credentials)
    : SessionState * list Item :=
  match login w source credentials with
  | marker_observed =>
      collect_public_data (consecutive_exhaustion cfg) (collection_params cfg)
        (feed_of w source)
  | marker_missing =>
      ({| stage := failed login_timeout; items_extracted := 0; scroll_count := 0 |}, [])
  | credentials_rejected =>
      ({| stage := failed login_rejected; items_extracted := 0; scroll_count := 0 |}, [])
  end.

(** *** Collection Orchestrator (section 4.5) *)

(** What became of one source: it yielded records, it errored (the
    records accumulated before the error are kept), or it was skipped
    without being run. *)
Inductive SourceOutcome : Type :=
| Succeeded (rs : list DataRecord)
| Errored (partial : list DataRecord)
| Skipped.

Definition is_succeeded (o : SourceOutcome) : bool :=
  match o with Succeeded _ => true | _ => false end.

Definition is_errored (o : SourceOutcome) : bool :=
  match o with Errored _ => true | _ => false end.

(** The source was run (attempted). *)
Definition ran (o : SourceOutcome) : bool := is_succeeded o || is_errored o.

Definition outcome_records (o : SourceOutcome) : list DataRecord :=
  match o with
  | Succeeded rs => rs
  | Errored partial => partial
  | Skipped => []
  end.

(** Modelled from the spec: step 3 of [collect_domain_data], the
    dispatch of one source on its kind; an interactive source is skipped
    when no credentials were supplied. *)
Definition dispatch (cfg : Config) (w : World) (now : Z) (dom loc : string)
    (filters : list (string * string)) (credentials : option Credentials)
    (source : SourceDescriptor) : SourceOutcome :=
  match kind source with
  | api | scrape =>
      match collect cfg w now dom source loc filters with
      | inl rs => Succeeded rs
      | inr _ => Errored []
      end
  | interactive =>
      match credentials with
      | None => Skipped
      | Some c =>
          let '(session, items) := collect_with_login cfg w source c in
          let rs := (fun it => to_record now dom source (item_fields it)) <$> items in
          match stage session with
          | done => Succeeded rs
          | _ => Errored rs
          end
      end
  end.

(** The counters and records kept while the sources are run. *)
Record Tally : Type := {
  merged : list DataRecord;
  attempted : nat;
  succeeded : nat
}.

(** Modelled from the spec: step 4, the merge of one source outcome: a
    source that ran counts as attempted, one that yielded as succeeded. *)
Definition merge_outcome (t : Tally) (o : SourceOutcome) : Tally :=
  match o with
  | Succeeded rs =>
      {| merged := merged t ++ rs; attempted := S (attempted t); succeeded := S (succeeded t) |}
  | Errored partial =>
      {| merged := merged t ++ partial; attempted := S (attempted t); succeeded := succeeded t |}
  | Skipped => t
  end.

(** Modelled from the spec: step 7, every source that ran errored (and
    at least one ran). *)
Definition every_source_errored (outcomes : list SourceOutcome) : bool :=
  existsb is_errored outcomes && forallb (fun o => negb (is_succeeded o)) outcomes.

(** The facet fields scanned for [available_filters]. *)
Definition facet_fields : list string := ["vendor"; "category"; "severity"].

Definition field_values (facet : string) (rs : list DataRecord) : list string :=
  JS.Set_from
    (flat_map (fun r => snd <$> List.filter (fun f => String.eqb (fst f) facet) (fields r)) rs).

(** Modelled from the spec: step 5, the distinct values of the facet
    fields. *)
Definition compute_filters (rs : list DataRecord) : list (string * list string) :=
  (fun facet => (facet, field_values facet rs)) <$> facet_fields.

Definition cache_key (dom loc : string) (filters : list (string * string)) : string :=
  dom +:+ "|" +:+ loc +:+ "|" +:+
  String.concat "&" ((fun f => fst f +:+ "=" +:+ snd f) <$> filters).

(** Modelled from the spec: steps 3 to 5 and 7 of [collect_domain_data],
    a collection from the sources. *)
Definition collect_from_sources (cfg : Config) (w : World) (now : Z)
    (dom loc : string) (filters : list (string * string))
    (credentials : option Credentials) : CollectionResult :=
  let sources := resolve (registry cfg) dom in
  let outcomes := dispatch cfg w now dom loc filters credentials <$> sources in
  let t := foldl merge_outcome {| merged := []; attempted := 0; succeeded := 0 |} outcomes in
  {| result_domain := dom;
     result_location := loc;
     result_collected_at := now;
     records := merged t;
     sources_attempted := attempted t;
     sources_succeeded := succeeded t;
     available_filters := compute_filters (merged t);
     degraded := every_source_errored outcomes |}.

(** Modelled from the spec: the Orchestrator's [collect_domain_data], at
    clock time [now] and on the cache [cache]; it returns the result and
    the cache after the call. *)
Definition collect_domain_data (cfg : Config) (w : World) (now : Z)
    (cache : gmap string Persisted) (dom loc : string)
    (filters : list (string * string)) (use_cache : bool)
    (credentials : option Credentials) : CollectionResult * gmap string Persisted :=
  let k := cache_key dom loc filters in
  let collected := collect_from_sources cfg w now dom loc filters credentials in
  match (if use_cache then get cache k else None) with
  | Some entry =>
      if is_fresh now entry (ttl cfg) then (payload entry, cache)
      else (collected, put now cache k collected)
  | None => (collected, put now cache k collected)
  end.

(** The caches the engine can hold: empty at start, then changed only by
    collections and invalidations. *)
Inductive reachable (cfg : Config) : gmap string Persisted -> Prop :=
| reachable_empty : reachable cfg ∅
| reachable_collect w now cache dom loc filters use_cache credentials :
    reachable cfg cache ->
    reachable cfg
      (collect_domain_data cfg w now cache dom loc filters use_cache credentials).2
| reachable_invalidate key_prefix cache :
    reachable cfg cache ->
    reachable cfg (invalidate key_prefix cache).

(** The flag agrees with the counters. *)
Definition degraded_consistent (r : CollectionResult) : Prop :=
  degraded r = true <-> sources_succeeded r = 0 /\ 0 < sources_attempted r.

Definition cache_consistent (cache : gmap string Persisted) : Prop :=
  forall k entry, get cache k = Some entry -> degraded_consistent (payload entry).

Definition example_config : Config :=
  {| registry := example_registry;
     ttl := default_ttl;
     collection_params :=
       {| max_items := 50; max_scrolls := 5; pacing := 2; session_timeout := 120 |};
     consecutive_exhaustion := true;
     max_items_per_source := 100 |}.

(** A world in which the first cybersecurity feed answers with three
    items and every other source times out, and one in which no source
    can be reached. *)
Definition example_world : World :=
  {| respond := fun source _ _ =>
       if String.eqb (name source) "CISA KEV" then
         Responded [ [("cveID", "CVE-2025-20362"); ("vendor", "Cisco"); ("severity", "Critical")];
                     [("cveID", "CVE-2025-20333"); ("vendor", "Cisco"); ("severity", "Critical")];
                     [("cveID", "CVE-2025-10585"); ("vendor", "Google"); ("severity", "High")] ]
       else NoResponse timeout;
     login := fun _ _ => credentials_rejected;
     feed_of := fun _ => empty_feed |}.

Definition unreachable_world : World :=
  {| respond := fun _ _ _ => NoResponse unreachable;
     login := fun _ _ => marker_missing;
     feed_of := fun _ => empty_feed |}.

(** The first collection of the cybersecurity domain, on an empty cache. *)
Definition example_collection : CollectionResult * gmap string Persisted :=
  collect_domain_data example_config example_world 1000 ∅
    "cybersecurity" "federal" [] true None.

(** A session that runs into the wall-clock limit: 100 items wanted, one
    scroll every 2 seconds, 120 seconds in all. *)
Definition slow_params : CollectionParams :=
  {| max_items := 100; max_scrolls := 5; pacing := 2; session_timeout := 120 |}.

End Engine.

(** * Properties *)

(** ** Pagination *)

Lemma ceil_div_up (a b : Z) :
  (0 < b)%Z -> (0 <= a)%Z -> JS.ceil_div a b = ((a + (b - 1)) / b)%Z.
Proof.
  intros Hb Ha. unfold JS.ceil_div.
  pose proof (Z.div_mod (- a) b ltac:(lia)) as E1.
  pose proof (Z.mod_pos_bound (- a) b Hb) as B1.
  apply Z.div_unique with (r := (b - 1 - (- a) mod b)%Z); lia.
Qed.

Section Pagination.
Context {A : Type}.
Implicit Types (l : list A) (n k : nat).

Lemma ceil_div_nat_up n d : 0 < d -> JS.ceil_div_nat n d = (n + (d - 1)) / d.
Proof.
  intros Hd. unfold JS.ceil_div_nat.
  rewrite ceil_div_up by lia.
  replace (Z.of_nat n + (Z.of_nat d - 1))%Z with (Z.of_nat (n + (d - 1))) by lia.
  rewrite <- Nat2Z.inj_div. apply Nat2Z.id.
Qed.

Lemma slice_length l start stop : length (JS.slice l start stop) <= stop - start.
Proof. unfold JS.slice. rewrite length_take. lia. Qed.

Lemma concat_slices l n k :
  concat ((fun p => JS.slice l ((p - 1) * n) (p * n)) <$> seq 1 k) = take (k * n) l.
Proof.
  induction k as [|k IH]; [done |].
  rewrite seq_S, fmap_app, concat_app, IH. simpl.
  rewrite app_nil_r. unfold JS.slice.
  replace (k - 0) with k by lia.
  replace (n + k * n - k * n) with n by lia.
  rewrite take_take_drop. f_equal. lia.
Qed.

Lemma slice_lookup l start stop j :
  JS.slice l start stop !! j = if decide (j < stop - start) then l !! (start + j) else None.
Proof.
  unfold JS.slice. case_decide.
  - rewrite lookup_take_lt by done. by rewrite lookup_drop.
  - rewrite lookup_take_ge by lia. done.
Qed.

End Pagination.

Lemma filteredThreats_with_page `{JS.Host} (st : App.State) (p : nat) :
  App.filteredThreats (App.with_page st p) = App.filteredThreats st.
Proof. reflexivity. Qed.

Lemma totalPages_covers `{JS.Host} (st : App.State) :
  length (App.filteredThreats st) <= App.totalPages st * App.itemsPerPage.
Proof.
  unfold App.totalPages. rewrite ceil_div_nat_up by (unfold App.itemsPerPage; lia).
  unfold App.itemsPerPage.
  pose proof (Nat.div_mod (length (App.filteredThreats st) + (10 - 1)) 10 ltac:(lia)).
  pose proof (Nat.mod_upper_bound (length (App.filteredThreats st) + (10 - 1)) 10 ltac:(lia)).
  lia.
Qed.

(** C9: [totalPages] is the ceiling of the number of filtered threats
    divided by the page size 10; no page holds more than 10 threats; the
    pages 1 to [totalPages], one after the other, give back
    [filteredThreats]; page [p] holds exactly the positions
    [(p - 1) * 10 .. p * 10 - 1], so that every position of the filtered
    list lies on exactly one page. *)
Theorem pagination_partitions `{JS.Host} (st : App.State) :
  App.totalPages st = (length (App.filteredThreats st) + 9) / 10 /\
  (forall p, length (App.paginatedThreats (App.with_page st p)) <= App.itemsPerPage) /\
  concat ((fun p => App.paginatedThreats (App.with_page st p)) <$> seq 1 (App.totalPages st))
    = App.filteredThreats st /\
  (forall p j, 1 <= p -> j < App.itemsPerPage ->
     App.paginatedThreats (App.with_page st p) !! j
       = App.filteredThreats st !! ((p - 1) * App.itemsPerPage + j)) /\
  (forall i, i < length (App.filteredThreats st) ->
     exists p, (1 <= p <= App.totalPages st /\
                (p - 1) * App.itemsPerPage <= i < p * App.itemsPerPage) /\
       forall q, 1 <= q <= App.totalPages st /\
                 (q - 1) * App.itemsPerPage <= i < q * App.itemsPerPage -> q = p).
Proof.
  pose proof (totalPages_covers st) as Hcover.
  split; [| split; [| split; [| split]]].
  - unfold App.totalPages. rewrite ceil_div_nat_up; [done | unfold App.itemsPerPage; lia].
  - intros p. unfold App.paginatedThreats. rewrite filteredThreats_with_page.
    etrans; [apply slice_length |]. simpl. unfold App.itemsPerPage. lia.
  - transitivity (take (App.totalPages st * App.itemsPerPage) (App.filteredThreats st)).
    + exact (concat_slices (App.filteredThreats st) App.itemsPerPage (App.totalPages st)).
    + by apply take_ge.
  - intros p j Hp Hj. unfold App.paginatedThreats. rewrite filteredThreats_with_page.
    rewrite slice_lookup. simpl. rewrite decide_True; [done |].
    unfold App.itemsPerPage in *. lia.
  - intros i Hi. unfold App.itemsPerPage in *.
    exists (S (i / 10)).
    pose proof (Nat.div_mod i 10 ltac:(lia)) as Hdm.
    pose proof (Nat.mod_upper_bound i 10 ltac:(lia)) as Hmod.
    split.
    + split; [| lia].
      split; [lia |].
      destruct (decide (S (i / 10) <= App.totalPages st)); [done | lia].
    + intros q [_ Hq]. lia.
Qed.

(** ** The helpers of App.jsx and of api.js *)

(** C10: the helpers defined inside [App] and the ones exported by api.js
    return the same output on every severity string, every due-date
    string (read at the same clock time) and every number of days. *)
Theorem helpers_agree `{JS.Host} (severity dueDate : string) (daysUntilDue : JS.number) :
  App.getSeverityColor severity = Api.getSeverityColor severity /\
  App.getSeverityBadgeVariant severity = Api.getSeverityBadgeVariant severity /\
  App.getDaysUntilDue dueDate = Api.getDaysUntilDue dueDate /\
  App.getUrgencyColor daysUntilDue = Api.getUrgencyColor daysUntilDue.
Proof.
  split; [| split; [| split]].
  - unfold App.getSeverityColor, Api.getSeverityColor. reflexivity.
  - unfold App.getSeverityBadgeVariant, Api.getSeverityBadgeVariant. reflexivity.
  - unfold App.getDaysUntilDue, Api.getDaysUntilDue.
    destruct (JS.Date_parse dueDate); reflexivity.
  - unfold App.getUrgencyColor, Api.getUrgencyColor.
    destruct daysUntilDue; reflexivity.
Qed.

(** ** Code-unit order on strings *)

Lemma ascii_compare_N (a b : ascii) :
  Ascii.compare a b = N.compare (N_of_ascii a) (N_of_ascii b).
Proof. reflexivity. Qed.

Lemma string_compare_refl (a : string) : String.compare a a = Eq.
Proof.
  induction a as [|x a IH]; simpl; [done |].
  by rewrite ascii_compare_N, N.compare_refl.
Qed.

Lemma string_compare_lt_trans (a b c : string) :
  String.compare a b = Lt -> String.compare b c = Lt -> String.compare a c = Lt.
Proof.
  revert b c. induction a as [|x a IH]; intros [|y b] [|z c]; simpl; try congruence.
  rewrite !ascii_compare_N.
  destruct (N.compare_spec (N_of_ascii x) (N_of_ascii y)) as [Exy|Lxy|Gxy];
    destruct (N.compare_spec (N_of_ascii y) (N_of_ascii z)) as [Eyz|Lyz|Gyz];
    try congruence; intros Hab Hbc.
  - rewrite Exy, Eyz, N.compare_refl. eauto.
  - rewrite Exy. by apply N.compare_lt_iff in Lyz as ->.
  - rewrite <- Eyz. by apply N.compare_lt_iff in Lxy as ->.
  - assert (N_of_ascii x < N_of_ascii z)%N as Hxz by lia.
    by apply N.compare_lt_iff in Hxz as ->.
Qed.

Lemma string_lt_compare (a b : string) : JS.string_lt a b <-> String.compare a b = Lt.
Proof.
  unfold JS.string_lt, String.ltb. destruct (String.compare a b); split; congruence.
Qed.

Lemma string_le_lt_eq (a b : string) : JS.string_le a b <-> JS.string_lt a b \/ a = b.
Proof.
  rewrite string_lt_compare. unfold JS.string_le, String.leb.
  destruct (String.compare a b) eqn:E.
  - apply String.compare_eq_iff in E. tauto.
  - tauto.
  - split; [congruence |]. intros [? | ->]; [congruence |].
    pose proof (string_compare_refl b). congruence.
Qed.

#[local] Instance string_le_total : Total JS.string_le.
Proof. intros a b. apply String.leb_total. Qed.

#[local] Instance string_lt_trans : Transitive JS.string_lt.
Proof.
  intros a b c. rewrite !string_lt_compare. apply string_compare_lt_trans.
Qed.

Lemma string_lt_irrefl (a : string) : ~ JS.string_lt a a.
Proof.
  rewrite string_lt_compare.
  pose proof (string_compare_refl a). congruence.
Qed.

(** ** Sets and sorting of strings *)

Lemma Set_add_elem_of (seen : list string) (x y : string) :
  y ∈ JS.Set_add seen x <-> y ∈ seen \/ y = x.
Proof.
  unfold JS.Set_add. case_bool_decide.
  - split; [tauto |]. intros [? | ->]; done.
  - rewrite elem_of_app, list_elem_of_singleton. done.
Qed.

Lemma Set_add_NoDup (seen : list string) (x : string) :
  NoDup seen -> NoDup (JS.Set_add seen x).
Proof.
  intros Hnd. unfold JS.Set_add. case_bool_decide; [done |].
  apply NoDup_app. split; [done |]. split.
  - intros y Hy ->%list_elem_of_singleton. done.
  - apply NoDup_singleton.
Qed.

Lemma foldl_Set_add (seen arr : list string) :
  NoDup seen ->
  NoDup (foldl JS.Set_add seen arr) /\
  forall y, y ∈ foldl JS.Set_add seen arr <-> y ∈ seen \/ y ∈ arr.
Proof.
  revert seen. induction arr as [|x arr IH]; intros seen Hnd; simpl.
  - split; [done |]. intros y. rewrite elem_of_nil. tauto.
  - destruct (IH (JS.Set_add seen x) (Set_add_NoDup _ _ Hnd)) as [Hnd' Hin].
    split; [done |]. intros y. rewrite Hin, Set_add_elem_of, elem_of_cons. tauto.
Qed.

Lemma Set_from_NoDup (arr : list string) : NoDup (JS.Set_from arr).
Proof. apply (foldl_Set_add [] arr), NoDup_nil_2. Qed.

Lemma Set_from_elem_of (arr : list string) (y : string) : y ∈ JS.Set_from arr <-> y ∈ arr.
Proof.
  unfold JS.Set_from.
  destruct (foldl_Set_add [] arr (NoDup_nil_2)) as [_ Hin].
  rewrite Hin, elem_of_nil. tauto.
Qed.

Lemma sort_strings_Permutation (arr : list string) : JS.sort_strings arr ≡ₚ arr.
Proof. apply merge_sort_Permutation. Qed.

Lemma Sorted_le_NoDup_lt (l : list string) :
  Sorted JS.string_le l -> NoDup l -> Sorted JS.string_lt l.
Proof.
  induction 1 as [|x l Hs IH Hhd]; intros Hnd; [constructor |].
  apply NoDup_cons in Hnd as [Hx Hnd].
  constructor; [by apply IH |].
  destruct Hhd as [|y l Hxy]; constructor.
  apply string_le_lt_eq in Hxy as [? | ->]; [done |].
  exfalso. apply Hx. left.
Qed.

Lemma sort_strings_ascending (arr : list string) :
  NoDup arr -> StronglySorted JS.string_lt (JS.sort_strings arr).
Proof.
  intros Hnd. apply Sorted_StronglySorted; [apply _ |].
  apply Sorted_le_NoDup_lt.
  - apply Sorted_merge_sort, _.
  - by rewrite sort_strings_Permutation.
Qed.

(** C3: [uniqueVendors] holds exactly the [vendorProject] values of the
    threats, each once, in strictly ascending code-unit order; and
    [uniqueCWEs] holds exactly the identifiers found in the [cwes] arrays
    of the threats, each once, in strictly ascending order. *)
Theorem unique_values_sorted (threats : list Threat) :
  (NoDup (App.uniqueVendors threats) /\
   (forall v, v ∈ App.uniqueVendors threats <->
      exists t, t ∈ threats /\ vendorProject t = v) /\
   StronglySorted JS.string_lt (App.uniqueVendors threats)) /\
  (NoDup (App.uniqueCWEs threats) /\
   (forall c, c ∈ App.uniqueCWEs threats <->
      exists t, t ∈ threats /\ c ∈ cwes t) /\
   StronglySorted JS.string_lt (App.uniqueCWEs threats)).
Proof.
  unfold App.uniqueVendors, App.uniqueCWEs. split.
  - split; [| split].
    + rewrite sort_strings_Permutation. apply Set_from_NoDup.
    + intros v. rewrite sort_strings_Permutation, Set_from_elem_of, list_elem_of_fmap.
      split; intros (t & ? & ?); exists t; done.
    + apply sort_strings_ascending, Set_from_NoDup.
  - split; [| split].
    + rewrite sort_strings_Permutation. apply Set_from_NoDup.
    + intros c. rewrite sort_strings_Permutation, Set_from_elem_of.
      rewrite list_elem_of_In, in_flat_map.
      split; intros (t & Ht & Hc); exists t; rewrite ?list_elem_of_In in *; done.
    + apply sort_strings_ascending, Set_from_NoDup.
Qed.

(** ** Sorting *)

Section StableSort.
Context {A : Type} (compareFn : A -> A -> Z).

Lemma sort_insert_Permutation (x : A) (l : list A) :
  JS.sort_insert compareFn x l ≡ₚ x :: l.
Proof.
  induction l as [|y l IH]; simpl; [done |].
  destruct (compareFn x y <=? 0)%Z; [done |].
  rewrite IH. apply Permutation_swap.
Qed.

Lemma sort_stable_Permutation (l : list A) : JS.sort_stable compareFn l ≡ₚ l.
Proof.
  induction l as [|x l IH]; simpl; [done |].
  by rewrite sort_insert_Permutation, IH.
Qed.

Lemma sort_insert_Sorted (x : A) (l : list A) :
  Total (JS.cmp_le compareFn) ->
  Sorted (JS.cmp_le compareFn) l ->
  Sorted (JS.cmp_le compareFn) (JS.sort_insert compareFn x l).
Proof.
  intros Htotal. induction 1 as [|y l Hsorted IH Hhd]; simpl.
  - by repeat constructor.
  - destruct (compareFn x y <=? 0)%Z eqn:Hxy.
    + apply Z.leb_le in Hxy. by repeat constructor.
    + apply Z.leb_gt in Hxy.
      assert (JS.cmp_le compareFn y x) as Hyx.
      { destruct (Htotal x y) as [Hle | Hle]; [unfold JS.cmp_le in Hle; lia | done]. }
      constructor; [done |].
      destruct Hhd as [|z l Hyz]; simpl; [by constructor |].
      destruct (compareFn x z <=? 0)%Z; by constructor.
Qed.

Lemma sort_stable_Sorted (l : list A) :
  Total (JS.cmp_le compareFn) -> Sorted (JS.cmp_le compareFn) (JS.sort_stable compareFn l).
Proof.
  intros Htotal. induction l as [|x l IH]; simpl; [constructor |].
  by apply sort_insert_Sorted.
Qed.

End StableSort.

(** Whatever the comparator, [sort] permutes the array. *)
Lemma sort_by_Permutation `{JS.Host} {A} (compareFn : A -> A -> Z) (arr : list A) :
  JS.sort_by compareFn arr ≡ₚ arr.
Proof. apply JS.Array_sort_Permutation. Qed.

Lemma sort_by_consistent `{JS.Host} {A} (compareFn : A -> A -> Z) (arr : list A) :
  JS.consistent compareFn arr -> JS.sort_by compareFn arr = JS.sort_stable compareFn arr.
Proof. apply JS.Array_sort_consistent. Qed.

Lemma filter_partition_Permutation {A} (f : A -> bool) (l : list A) :
  List.filter f l ++ List.filter (fun x => negb (f x)) l ≡ₚ l.
Proof.
  induction l as [|x l IH]; simpl; [done |].
  destruct (f x); simpl.
  - by rewrite IH.
  - rewrite <- Permutation_middle. by rewrite IH.
Qed.

(** ** Objects as dictionaries of counters *)

Lemma get_own_set_own (obj : JSObject.t) (k k' : string) (v : JSObject.primitive) :
  JSObject.get_own (JSObject.set_own obj k v) k'
  = if decide (k = k') then Some v else JSObject.get_own obj k'.
Proof.
  induction obj as [|[k0 v0] obj IH]; simpl.
  - case_decide as Hk.
    + subst. by rewrite String.eqb_refl.
    + by apply String.eqb_neq in Hk as ->.
  - destruct (String.eqb k0 k) eqn:E0; simpl.
    + apply String.eqb_eq in E0 as ->.
      case_decide as Hk.
      * subst. by rewrite String.eqb_refl.
      * by apply String.eqb_neq in Hk as ->.
    + destruct (String.eqb k0 k') eqn:E1; [| done].
      apply String.eqb_eq in E1 as ->. apply String.eqb_neq in E0.
      by rewrite decide_False by congruence.
Qed.

Lemma get_own_None (obj : JSObject.t) (k : string) :
  JSObject.get_own obj k = None <-> k ∉ obj.*1.
Proof.
  induction obj as [|[k0 v0] obj IH]; simpl.
  - split; [intros _; apply not_elem_of_nil | done].
  - rewrite not_elem_of_cons. destruct (String.eqb k0 k) eqn:E.
    + apply String.eqb_eq in E as ->. split; [done | tauto].
    + apply String.eqb_neq in E. rewrite IH. split; [| tauto]. intros ?. split; [congruence | done].
Qed.

Lemma set_own_keys (obj : JSObject.t) (k : string) (v : JSObject.primitive) :
  (JSObject.set_own obj k v).*1 = if decide (k ∈ obj.*1) then obj.*1 else obj.*1 ++ [k].
Proof.
  induction obj as [|[k0 v0] obj IH].
  - rewrite decide_False; [done | apply not_elem_of_nil].
  - cbn [JSObject.set_own]. rewrite !fmap_cons. cbn [fst].
    destruct (String.eqb k0 k) eqn:E.
    + rewrite fmap_cons. cbn [fst].
      apply String.eqb_eq in E as ->. rewrite decide_True; [done | left].
    + rewrite fmap_cons. cbn [fst].
      apply String.eqb_neq in E. rewrite IH.
      destruct (decide (k ∈ obj.*1)) as [Hin | Hnin].
      * rewrite decide_True; [done | by right].
      * rewrite decide_False; [done |]. rewrite not_elem_of_cons. split; [congruence | done].
Qed.

Lemma set_own_NoDup (obj : JSObject.t) (k : string) (v : JSObject.primitive) :
  NoDup obj.*1 -> NoDup (JSObject.set_own obj k v).*1.
Proof.
  intros Hnd. rewrite set_own_keys. case_decide as Hk; [done |].
  apply NoDup_app. split; [done |]. split; [| apply NoDup_singleton].
  intros x Hx ->%list_elem_of_singleton. done.
Qed.

Lemma elem_of_get_own (obj : JSObject.t) (k : string) (v : JSObject.primitive) :
  NoDup obj.*1 -> (k, v) ∈ obj <-> JSObject.get_own obj k = Some v.
Proof.
  induction obj as [|[k0 v0] obj IH]; simpl; intros Hnd.
  - split; [intros Hin; by apply elem_of_nil in Hin | done].
  - apply NoDup_cons in Hnd as [Hk0 Hnd]. rewrite elem_of_cons.
    destruct (String.eqb k0 k) eqn:E.
    + apply String.eqb_eq in E as ->. split.
      * intros [[= ->] | Hin]; [done |]. exfalso. apply Hk0.
        apply list_elem_of_fmap. by exists (k, v).
      * intros [= ->]. by left.
    + apply String.eqb_neq in E. rewrite <- IH by done. split.
      * intros [[= -> ->] | Hin]; [done | done].
      * tauto.
Qed.

Lemma not_inherited_proto (k : string) : ~ JSObject.inherited k -> String.eqb k "__proto__" = false.
Proof. intros Hk. apply String.eqb_neq. intros ->. apply Hk. by left. Qed.

(** One increment under a key that is not inherited: the own property,
    when there is one, decides. *)
Lemma increment_not_inherited (obj : JSObject.t) (k : string) :
  ~ JSObject.inherited k ->
  JSObject.increment obj k
  = JSObject.set_own obj k
      (JSObject.or_zero_plus_one
         (match JSObject.get_own obj k with
          | Some v => JSObject.Primitive v
          | None => JSObject.Undefined
          end)).
Proof.
  intros Hk. unfold JSObject.increment, JSObject.set, JSObject.get.
  rewrite (not_inherited_proto k Hk).
  destruct (JSObject.get_own obj k); [done |].
  rewrite bool_decide_eq_false_2; [done |]. intros Hin. apply Hk. by right.
Qed.

Lemma increment_NoDup (obj : JSObject.t) (k : string) :
  NoDup obj.*1 -> NoDup (JSObject.increment obj k).*1.
Proof.
  intros Hnd. unfold JSObject.increment, JSObject.set.
  destruct (String.eqb k "__proto__"); [done | by apply set_own_NoDup].
Qed.

(** An increment leaves the other keys alone, inherited or not. *)
Lemma increment_other (obj : JSObject.t) (k k' : string) :
  k <> k' -> JSObject.get_own (JSObject.increment obj k) k' = JSObject.get_own obj k'.
Proof.
  intros Hne. unfold JSObject.increment, JSObject.set.
  destruct (String.eqb k "__proto__"); [done |].
  by rewrite get_own_set_own, decide_False.
Qed.

Lemma increment_keys (obj : JSObject.t) (k k' : string) :
  k' ∈ (JSObject.increment obj k).*1 <-> k' ∈ obj.*1 \/ (k' = k /\ k <> "__proto__").
Proof.
  unfold JSObject.increment, JSObject.set.
  destruct (String.eqb k "__proto__") eqn:E.
  - apply String.eqb_eq in E. split; [by left | intros [? | [_ ?]]; done].
  - apply String.eqb_neq in E. rewrite set_own_keys. case_decide as Hin.
    + split; [by left | intros [? | [-> _]]; done].
    + rewrite elem_of_app, list_elem_of_singleton. split.
      * intros [? | ->]; [by left | by right].
      * intros [? | [-> _]]; [by left | by right].
Qed.

Lemma increment_same (obj : JSObject.t) (k : string) (n : nat) :
  ~ JSObject.inherited k ->
  match JSObject.get_own obj k with
  | Some v => v = JSObject.Number n
  | None => n = 0
  end ->
  JSObject.get_own (JSObject.increment obj k) k = Some (JSObject.Number (n + 1)).
Proof.
  intros Hk Hn. rewrite increment_not_inherited by done.
  rewrite get_own_set_own, decide_True by done.
  destruct (JSObject.get_own obj k) as [v|]; subst; done.
Qed.

Lemma counters_get_own (obj : JSObject.t) (k : string) (v : JSObject.primitive) :
  JSObject.counters obj -> JSObject.get_own obj k = Some v -> exists n, v = JSObject.Number n.
Proof.
  intros Hall. induction Hall as [|[k0 v0] obj [n Hn] _ IH]; simpl; [done |].
  destruct (String.eqb k0 k); [| done]. intros [= <-]. by exists n.
Qed.

Lemma set_own_total (obj : JSObject.t) (k : string) (n : nat) :
  sum_list_with (fun e => JSObject.counter e.2) (JSObject.set_own obj k (JSObject.Number n))
  + match JSObject.get_own obj k with Some v => JSObject.counter v | None => 0 end
  = sum_list_with (fun e => JSObject.counter e.2) obj + n.
Proof.
  induction obj as [|[k0 v0] obj IH]; simpl; [lia |].
  destruct (String.eqb k0 k); simpl; lia.
Qed.

Lemma set_own_counters (obj : JSObject.t) (k : string) (n : nat) :
  JSObject.counters obj -> JSObject.counters (JSObject.set_own obj k (JSObject.Number n)).
Proof.
  intros Hall. induction Hall as [|[k0 v0] obj Hv Hall IH]; simpl.
  - repeat constructor. by exists n.
  - destruct (String.eqb k0 k); (constructor; [| done]); [by exists n | done].
Qed.

Lemma increment_counters (obj : JSObject.t) (k : string) :
  ~ JSObject.inherited k -> JSObject.counters obj ->
  JSObject.counters (JSObject.increment obj k) /\
  sum_list_with (fun e => JSObject.counter e.2) (JSObject.increment obj k)
  = sum_list_with (fun e => JSObject.counter e.2) obj + 1.
Proof.
  intros Hk Hall. rewrite increment_not_inherited by done.
  destruct (JSObject.get_own obj k) as [v|] eqn:Hget.
  - destruct (counters_get_own obj k v Hall Hget) as [n ->]. simpl.
    split; [by apply set_own_counters |].
    pose proof (set_own_total obj k (n + 1)) as Htotal. rewrite Hget in Htotal.
    simpl in Htotal. lia.
  - simpl. split; [by apply set_own_counters |].
    pose proof (set_own_total obj k 1) as Htotal. rewrite Hget in Htotal. lia.
Qed.

(** *** The counters after one increment per key *)

Section Tally.
Variable init : JSObject.t.

Lemma tally_snoc (keys : list string) (k : string) :
  foldl JSObject.increment init (keys ++ [k])
  = JSObject.increment (foldl JSObject.increment init keys) k.
Proof. apply foldl_snoc. Qed.

Lemma tally_NoDup (keys : list string) :
  NoDup init.*1 -> NoDup (foldl JSObject.increment init keys).*1.
Proof.
  intros Hnd. induction keys as [|k keys IH] using rev_ind; [done |].
  rewrite tally_snoc. by apply increment_NoDup.
Qed.

(** Every key counted becomes an own property, [__proto__] apart. *)
Lemma tally_keys (keys : list string) (k : string) :
  k ∈ (foldl JSObject.increment init keys).*1 <->
  k ∈ init.*1 \/ (k ∈ keys /\ k <> "__proto__").
Proof.
  induction keys as [|k0 keys IH] using rev_ind.
  - simpl. split; [by left | intros [? | [Hin _]]; [done | by apply elem_of_nil in Hin]].
  - rewrite tally_snoc, increment_keys, IH, elem_of_app, list_elem_of_singleton.
    split.
    + intros [[? | [? ?]] | [-> ?]]; [by left | right; split; [by left | done] |].
      right. split; [by right | done].
    + intros [? | [[? | ->] ?]]; [left; by left | left; right; done | by right].
Qed.

(** The counter of a key that is not inherited, whatever the other keys
    are: what it started with plus the number of its occurrences. *)
Lemma tally_get (keys : list string) (k : string) (base : nat) :
  ~ JSObject.inherited k ->
  match JSObject.get_own init k with
  | Some v => v = JSObject.Number base
  | None => base = 0
  end ->
  JSObject.get_own (foldl JSObject.increment init keys) k
  = if decide (k ∈ init.*1 \/ k ∈ keys)
    then Some (JSObject.Number (base + length (filter (fun x => x = k) keys)))
    else None.
Proof.
  intros Hk Hbase. induction keys as [|k0 keys IH] using rev_ind.
  - simpl. destruct (JSObject.get_own init k) as [v|] eqn:Hget.
    + subst v. rewrite decide_True; [by rewrite Nat.add_0_r |].
      left. apply dec_stable. intros Hnot. apply get_own_None in Hnot. congruence.
    + rewrite decide_False; [done |]. apply get_own_None in Hget.
      intros [? | Hin]; [done | by apply elem_of_nil in Hin].
  - rewrite tally_snoc, filter_app, length_app, filter_cons.
    destruct (decide (k0 = k)) as [-> | Hne].
    + rewrite (decide_True (P := k ∈ init.*1 \/ k ∈ keys ++ [k]))
        by (right; apply elem_of_app; right; left).
      simpl. rewrite Nat.add_assoc.
      apply increment_same; [done |]. rewrite IH.
      case_decide as Hin; [done |].
      assert (filter (fun x => x = k) keys = []) as ->.
      { apply elem_of_nil_inv. intros x [-> ?]%list_elem_of_filter. tauto. }
      destruct (JSObject.get_own init k) eqn:Hget; [| simpl; lia].
      exfalso. apply Hin. left. apply dec_stable. intros Hnot.
      apply get_own_None in Hnot. congruence.
    + rewrite increment_other by done. rewrite IH. simpl. rewrite Nat.add_0_r.
      destruct (decide (k ∈ init.*1 \/ k ∈ keys)) as [Hin | Hnin].
      * rewrite decide_True; [done |]. destruct Hin; [by left | right].
        apply elem_of_app. by left.
      * rewrite decide_False; [done |].
        rewrite elem_of_app, list_elem_of_singleton. intros [? | [? | ?]]; [tauto | tauto | congruence].
Qed.

(** When no key is inherited, every own property holds a counter and
    the counters add up. *)
Lemma tally_total (keys : list string) :
  Forall (fun k => ~ JSObject.inherited k) keys -> JSObject.counters init ->
  JSObject.counters (foldl JSObject.increment init keys) /\
  sum_list_with (fun e => JSObject.counter e.2) (foldl JSObject.increment init keys)
  = sum_list_with (fun e => JSObject.counter e.2) init + length keys.
Proof.
  intros Hkeys Hinit. induction keys as [|k keys IH] using rev_ind.
  - simpl. split; [done | lia].
  - apply Forall_app in Hkeys as [Hkeys Hk]. rewrite Forall_singleton in Hk.
    destruct (IH Hkeys) as [Hall Hsum].
    rewrite tally_snoc, length_app. simpl.
    destruct (increment_counters _ k Hk Hall) as [Hall' Hsum'].
    split; [done | lia].
Qed.

End Tally.

Lemma entries_Permutation (obj : JSObject.t) : JSObject.entries obj ≡ₚ obj.
Proof.
  unfold JSObject.entries. rewrite sort_stable_Permutation.
  apply (filter_partition_Permutation (fun e => JSObject.is_array_index e.1)).
Qed.

(** A list of counters, and its total. *)
Lemma counters_numbers {A} (cnt : A -> JSObject.primitive) (l : list A) :
  Forall (fun e => exists n, cnt e = JSObject.Number n) l ->
  cnt <$> l = JSObject.Number <$> ((fun e => JSObject.counter (cnt e)) <$> l) /\
  sum_list ((fun e => JSObject.counter (cnt e)) <$> l)
  = sum_list_with (fun e => JSObject.counter (cnt e)) l.
Proof.
  induction 1 as [|e l [n Hn] _ [IH1 IH2]]; [done |].
  rewrite !fmap_cons. simpl. rewrite Hn at 1. simpl. rewrite Hn. simpl.
  split; [by f_equal | by f_equal].
Qed.

(** ** Severity statistics *)

Lemma stats_init_NoDup : NoDup App.stats_init.*1.
Proof. apply (bool_decide_unpack _). vm_compute. exact I. Qed.

Lemma level_not_inherited (level : string) :
  level ∈ ["Critical"; "High"; "Medium"; "Low"] -> ~ JSObject.inherited level.
Proof.
  intros Hin.
  repeat (apply elem_of_cons in Hin as [-> | Hin];
          [apply (bool_decide_unpack _); vm_compute; exact I |]).
  by apply elem_of_nil in Hin.
Qed.

Lemma severity_counts_tally (threats : list Threat) :
  App.severity_counts threats = foldl JSObject.increment App.stats_init (severity <$> threats).
Proof. unfold App.severity_counts, App.stats_step. by rewrite foldl_fmap. Qed.

Lemma filter_fmap_length {A} (f : A -> string) (k : string) (l : list A) :
  length (filter (fun x => x = k) (f <$> l)) = length (filter (fun t => f t = k) l).
Proof.
  induction l as [|t l IH]; [done |].
  rewrite fmap_cons, !filter_cons. destruct (decide (f t = k)); simpl; by rewrite IH.
Qed.

(** The counter of a severity that is not an inherited key. *)
Lemma severity_counts_get (threats : list Threat) (s : string) :
  ~ JSObject.inherited s ->
  JSObject.get_own (App.severity_counts threats) s
  = if decide (s ∈ ["Critical"; "High"; "Medium"; "Low"] \/ s ∈ severity <$> threats)
    then Some (JSObject.Number (length (filter (fun t => severity t = s) threats)))
    else None.
Proof.
  intros Hs. rewrite severity_counts_tally, (tally_get App.stats_init _ s 0 Hs).
  - by rewrite filter_fmap_length.
  - unfold App.stats_init. cbn [JSObject.get_own].
    repeat match goal with
           | |- context [String.eqb ?a s] => destruct (String.eqb a s)
           end; done.
Qed.

Lemma severityStats_elem_of (threats : list Threat) (e : App.SeverityStat.t) :
  e ∈ App.severityStats threats <->
  JSObject.get_own (App.severity_counts threats) (App.SeverityStat.severity e)
  = Some (App.SeverityStat.count e).
Proof.
  unfold App.severityStats.
  rewrite entries_Permutation, list_elem_of_fmap.
  assert (NoDup (App.severity_counts threats).*1) as Hnd.
  { rewrite severity_counts_tally. apply tally_NoDup, stats_init_NoDup. }
  split.
  - intros ([s n] & -> & Hin). simpl. by apply elem_of_get_own.
  - intros Hl. exists (App.SeverityStat.severity e, App.SeverityStat.count e).
    split; [by destruct e |]. by apply elem_of_get_own.
Qed.

Lemma severityStats_keys (threats : list Threat) (s : string) :
  (exists e, e ∈ App.severityStats threats /\ App.SeverityStat.severity e = s) <->
  s ∈ ["Critical"; "High"; "Medium"; "Low"] \/ (s ∈ severity <$> threats /\ s <> "__proto__").
Proof.
  change ["Critical"; "High"; "Medium"; "Low"] with (App.stats_init.*1).
  rewrite <- tally_keys, <- severity_counts_tally. split.
  - intros (e & He%severityStats_elem_of & <-).
    apply dec_stable. intros Hnot. apply get_own_None in Hnot. congruence.
  - intros Hin. destruct (JSObject.get_own (App.severity_counts threats) s) as [v|] eqn:Hget.
    + exists {| App.SeverityStat.severity := s; App.SeverityStat.count := v |}.
      split; [| done]. by apply severityStats_elem_of.
    + by apply get_own_None in Hget.
Qed.

(** C2, as amended: [severityStats] always has an entry for each of
    Critical, High, Medium and Low, and one entry per severity; an entry
    whose severity is not a key that objects inherit from
    [Object.prototype] carries the number of threats of that severity
    (0 for a level that no threat has). When no threat has an inherited
    key as its severity, the entries are those of the four levels and of
    the severities of the threats, each with its number of threats, and
    the counts add up to the number of threats. *)
Theorem severityStats_counts (threats : list Threat) :
  (forall level, level ∈ ["Critical"; "High"; "Medium"; "Low"] ->
     exists e, e ∈ App.severityStats threats /\ App.SeverityStat.severity e = level) /\
  NoDup (App.SeverityStat.severity <$> App.severityStats threats) /\
  (forall e, e ∈ App.severityStats threats ->
     ~ JSObject.inherited (App.SeverityStat.severity e) ->
     App.SeverityStat.count e
     = JSObject.Number
         (length (filter (fun t => severity t = App.SeverityStat.severity e) threats))) /\
  (Forall (fun t => ~ JSObject.inherited (severity t)) threats ->
   (forall s,
      (exists e, e ∈ App.severityStats threats /\ App.SeverityStat.severity e = s) <->
      (s ∈ ["Critical"; "High"; "Medium"; "Low"] \/
       exists t, t ∈ threats /\ severity t = s)) /\
   (forall e, e ∈ App.severityStats threats ->
      App.SeverityStat.count e
      = JSObject.Number
          (length (filter (fun t => severity t = App.SeverityStat.severity e) threats))) /\
   exists counts,
     App.SeverityStat.count <$> App.severityStats threats = JSObject.Number <$> counts /\
     sum_list counts = length threats).
Proof.
  assert (forall e, e ∈ App.severityStats threats ->
            ~ JSObject.inherited (App.SeverityStat.severity e) ->
            App.SeverityStat.count e
            = JSObject.Number
                (length (filter (fun t => severity t = App.SeverityStat.severity e) threats)))
    as Hcount.
  { intros e He%severityStats_elem_of Hclean.
    rewrite severity_counts_get in He by done. case_decide; congruence. }
  split; [| split; [| split; [exact Hcount |]]].
  - intros level Hlevel. apply severityStats_keys. by left.
  - unfold App.severityStats. rewrite <- list_fmap_compose.
    change (App.SeverityStat.severity ∘ _) with (@fst string JSObject.primitive).
    rewrite entries_Permutation, severity_counts_tally.
    apply tally_NoDup, stats_init_NoDup.
  - intros Hclean.
    assert (forall e, e ∈ App.severityStats threats ->
              ~ JSObject.inherited (App.SeverityStat.severity e)) as Hkeys.
    { intros e He.
      destruct (proj1 (severityStats_keys threats (App.SeverityStat.severity e)))
        as [Hlevel | [Hin _]]; [by exists e | by apply level_not_inherited |].
      apply list_elem_of_fmap in Hin as (t & -> & Ht).
      by apply (proj1 (Forall_forall _ _) Hclean). }
    split; [| split].
    + intros s. rewrite severityStats_keys. split.
      * intros [? | [(t & -> & Ht)%list_elem_of_fmap _]]; [by left | right; by exists t].
      * intros [? | (t & Ht & <-)]; [by left | right]. split.
        -- apply list_elem_of_fmap. by exists t.
        -- intros Hproto. apply (proj1 (Forall_forall _ _) Hclean t Ht).
           left. done.
    + intros e He. apply Hcount; [done | by apply Hkeys].
    + destruct (tally_total App.stats_init (severity <$> threats)) as [Hall Hsum].
      { apply Forall_fmap. exact Hclean. }
      { unfold JSObject.counters, App.stats_init; repeat constructor; by eexists. }
      rewrite <- severity_counts_tally in Hall, Hsum.
      destruct (counters_numbers App.SeverityStat.count (App.severityStats threats))
        as [Hnumbers Htotal].
      { apply Forall_forall. intros e He. eexists. apply Hcount; [done | by apply Hkeys]. }
      eexists. split; [exact Hnumbers |]. rewrite Htotal.
      unfold App.severityStats. 
      transitivity (sum_list_with (fun e => JSObject.counter e.2)
                      (JSObject.entries (App.severity_counts threats))).
      { generalize (JSObject.entries (App.severity_counts threats)). intros l.
        induction l as [|e l IH]; [done |]. rewrite fmap_cons. simpl. f_equal. exact IH. }
      rewrite entries_Permutation, Hsum, length_fmap. done.
Qed.

Lemma severityStats_counts_witness :
  exists counts,
    App.SeverityStat.count <$> App.severityStats App.mockThreatData
    = JSObject.Number <$> counts /\
    sum_list counts = length App.mockThreatData.
Proof.
  apply (severityStats_counts App.mockThreatData).
  apply (bool_decide_unpack _). vm_compute. exact I.
Defined.

(** A threat whose severity is [__proto__] is counted nowhere, and a
    severity [constructor] gets a string for its count: the counts of the
    entries do not add up to the number of threats. *)
Lemma severityStats_inherited_counterexample :
  let threat level :=
    {| cveID := "CVE-2025-20362"; vendorProject := "Cisco";
       product := "Secure Firewall Adaptive Security Appliance";
       vulnerabilityName := "Cisco Secure Firewall Missing Authorization Vulnerability";
       dateAdded := "2025-09-25"; dueDate := "2025-09-26"; severity := level;
       cwes := ["CWE-862"];
       shortDescription := "Missing authorization vulnerability";
       knownRansomwareCampaignUse := "Unknown";
       requiredAction := "Apply mitigations per vendor instructions" |} in
  App.severityStats [threat "__proto__"]
  = [ {| App.SeverityStat.severity := "Critical"; App.SeverityStat.count := JSObject.Number 0 |};
      {| App.SeverityStat.severity := "High"; App.SeverityStat.count := JSObject.Number 0 |};
      {| App.SeverityStat.severity := "Medium"; App.SeverityStat.count := JSObject.Number 0 |};
      {| App.SeverityStat.severity := "Low"; App.SeverityStat.count := JSObject.Number 0 |} ] /\
  ~ (exists counts,
       App.SeverityStat.count <$> App.severityStats [threat "__proto__"]
       = JSObject.Number <$> counts /\
       sum_list counts = length [threat "__proto__"]) /\
  App.SeverityStat.count <$> App.severityStats [threat "constructor"]
  = [JSObject.Number 0; JSObject.Number 0; JSObject.Number 0; JSObject.Number 0;
     JSObject.Text (JSObject.FunctionSource "constructor") 1].
Proof.
  intros threat. split; [reflexivity |]. split; [| reflexivity].
  intros (counts & Hcounts & Hsum).
  change (App.SeverityStat.count <$> App.severityStats [threat "__proto__"])
    with (JSObject.Number <$> [0; 0; 0; 0]) in Hcounts.
  destruct counts as [|a [|b [|c [|d [|? ?]]]]]; try discriminate Hcounts.
  injection Hcounts as <- <- <- <-. discriminate Hsum.
Qed.

(** ** Substrings and case *)

Lemma append_cons (c : ascii) (s t : string) : String c s +:+ t = String c (s +:+ t).
Proof. reflexivity. Qed.

Lemma append_nil (t : string) : "" +:+ t = t.
Proof. reflexivity. Qed.

Lemma prefix_spec (needle haystack : string) :
  String.prefix needle haystack = true <-> exists post, haystack = needle +:+ post.
Proof.
  revert haystack. induction needle as [|a needle IH]; intros haystack.
  - destruct haystack; simpl; split; eauto.
  - destruct haystack as [|b haystack]; simpl.
    + split; [done |]. intros [post Hpost]. rewrite append_cons in Hpost. discriminate.
    + destruct (ascii_dec a b) as [-> | Hne].
      * rewrite IH. split; intros [post Hpost]; exists post;
          rewrite append_cons in *; congruence.
      * split; [done |]. intros [post Hpost]. rewrite append_cons in Hpost. congruence.
Qed.

(** [includes] holds exactly when the needle is a substring. *)
Lemma includes_spec (haystack needle : string) :
  JS.includes haystack needle = true <->
  exists pre post, haystack = pre +:+ needle +:+ post.
Proof.
  induction haystack as [|c haystack IH].
  - change (JS.includes "" needle) with (String.prefix needle "" || false).
    rewrite orb_false_r, prefix_spec. split.
    + intros [post Hpost]. by exists "", post.
    + intros ([|? pre] & post & Hpost); [by exists post |].
      rewrite append_cons in Hpost. discriminate.
  - change (JS.includes (String c haystack) needle)
      with (String.prefix needle (String c haystack) || JS.includes haystack needle).
    rewrite orb_true_iff, IH, prefix_spec. split.
    + intros [[post Hpost] | (pre & post & Hpost)].
      * by exists "", post.
      * exists (String c pre), post. rewrite append_cons. by rewrite Hpost.
    + intros ([|c' pre] & post & Hpost).
      * left. by exists post.
      * right. exists pre, post. rewrite append_cons in Hpost. congruence.
Qed.

(** The lower case of a code unit, by the table of letters: a letter of
    the upper-case list goes to its partner, and every other code unit
    stays. Checked on the 256 code units and on the pairs of the table. *)
Lemma lower_code_unit_table :
  (forall c, JS.lower_code_unit c = c \/
             (c, JS.lower_code_unit c) ∈ zip IgnoringCase.upper_case IgnoringCase.lower_case) /\
  (forall a b, (a, b) ∈ zip IgnoringCase.upper_case IgnoringCase.lower_case ->
     JS.lower_code_unit a = b /\ JS.lower_code_unit b = b).
Proof.
  split.
  - assert (Forall (fun c => JS.lower_code_unit c = c \/
                      (c, JS.lower_code_unit c)
                        ∈ zip IgnoringCase.upper_case IgnoringCase.lower_case)
              (ascii_of_nat <$> seq 0 256)) as Hall
      by (apply (bool_decide_unpack _); vm_compute; exact I).
    intros c. apply (proj1 (Forall_forall _ _) Hall).
    apply list_elem_of_fmap. exists (nat_of_ascii c).
    split; [by rewrite ascii_nat_embedding |].
    apply elem_of_seq. pose proof (nat_ascii_bounded c). lia.
  - assert (Forall (fun p => JS.lower_code_unit p.1 = p.2 /\ JS.lower_code_unit p.2 = p.2)
              (zip IgnoringCase.upper_case IgnoringCase.lower_case)) as Hall
      by (apply (bool_decide_unpack _); vm_compute; exact I).
    intros a b Hin. apply (proj1 (Forall_forall _ _) Hall (a, b) Hin).
Qed.

(** Two code units have the same lower case exactly when they are the
    same letter. *)
Lemma lower_code_unit_same_letter (a b : ascii) :
  JS.lower_code_unit a = JS.lower_code_unit b <-> IgnoringCase.same_letter a b.
Proof.
  destruct lower_code_unit_table as [Hlower Hpairs]. unfold IgnoringCase.same_letter. split.
  - intros Heq. destruct (Hlower a) as [Ha | Ha], (Hlower b) as [Hb | Hb].
    + left. congruence.
    + right. right. rewrite <- Heq, Ha in Hb. done.
    + right. left. rewrite Heq, Hb in Ha. done.
    + destruct (decide (a = b)) as [-> | Hne]; [by left |]. exfalso.
      rewrite Heq in Ha.
      assert (Forall (fun p => Forall (fun q => p.2 = q.2 -> p.1 = q.1)
                                 (zip IgnoringCase.upper_case IgnoringCase.lower_case))
                (zip IgnoringCase.upper_case IgnoringCase.lower_case)) as Hinj
        by (apply (bool_decide_unpack _); vm_compute; exact I).
      pose proof (proj1 (Forall_forall _ _) Hinj _ Ha) as Hinj'.
      apply Hne. by apply (proj1 (Forall_forall _ _) Hinj' _ Hb).
  - intros [-> | [Hin | Hin]]; [done | |].
    + destruct (Hpairs a b Hin) as [-> ->]. done.
    + destruct (Hpairs b a Hin) as [-> ->]. done.
Qed.

Lemma toLowerCase_same (s t : string) :
  JS.toLowerCase s = JS.toLowerCase t <-> IgnoringCase.same s t.
Proof.
  split.
  - revert t. induction s as [|a s IH]; intros [|b t]; simpl; try discriminate.
    + intros _. constructor.
    + intros [= Hab Hst]. constructor; [by apply lower_code_unit_same_letter | by apply IH].
  - induction 1 as [|a b s t Hab _ IH]; simpl; [done |].
    apply lower_code_unit_same_letter in Hab. congruence.
Qed.

Lemma toLowerCase_app (s t : string) :
  JS.toLowerCase (s +:+ t) = JS.toLowerCase s +:+ JS.toLowerCase t.
Proof.
  induction s as [|a s IH]; [done |].
  rewrite append_cons. simpl. rewrite append_cons. by rewrite IH.
Qed.

Lemma toLowerCase_split (s x y : string) :
  JS.toLowerCase s = x +:+ y ->
  exists s1 s2, s = s1 +:+ s2 /\ JS.toLowerCase s1 = x /\ JS.toLowerCase s2 = y.
Proof.
  revert s. induction x as [|c x IH]; intros s Hs.
  - exists "", s. done.
  - destruct s as [|a s]; [discriminate |].
    rewrite append_cons in Hs. simpl in Hs. injection Hs as Hc Hs.
    destruct (IH s Hs) as (s1 & s2 & -> & H1 & H2).
    exists (String a s1), s2. rewrite append_cons. simpl. by rewrite Hc, H1, H2.
Qed.

(** [a.toLowerCase().includes(b.toLowerCase())]: [b] occurs in [a], case
    apart. *)
Lemma includes_toLowerCase (haystack needle : string) :
  JS.includes (JS.toLowerCase haystack) (JS.toLowerCase needle) = true <->
  IgnoringCase.contains haystack needle.
Proof.
  rewrite includes_spec. unfold IgnoringCase.contains. split.
  - intros (pre & post & Hlower).
    apply toLowerCase_split in Hlower as (before & rest & -> & Hbefore & Hrest).
    apply toLowerCase_split in Hrest as (middle & after & -> & Hmiddle & Hafter).
    exists before, middle, after. split; [done |]. by apply toLowerCase_same.
  - intros (before & middle & after & -> & Hsame).
    exists (JS.toLowerCase before), (JS.toLowerCase after).
    rewrite !toLowerCase_app. by apply toLowerCase_same in Hsame as ->.
Qed.

(** ** Filtering and sorting in App *)

Lemma filter_all {A} (f : A -> bool) (l : list A) :
  (forall x, x ∈ l -> f x = true) -> List.filter f l = l.
Proof.
  induction l as [|x l IH]; intros Hall; simpl; [done |].
  rewrite Hall by left. f_equal. apply IH. intros y Hy. apply Hall. by right.
Qed.

Lemma filter_callback_true `{JS.Host} (st : App.State) (t : Threat) :
  App.filter_callback st t = true <->
  App.matchesSearch st t = true /\ App.matchesVendor st t = true /\
  App.matchesSeverity st t = true /\ App.matchesCWE st t = true /\
  App.matchesDate st t = true.
Proof. unfold App.filter_callback. rewrite !andb_true_iff. tauto. Qed.

Lemma filteredThreats_Permutation `{JS.Host} (st : App.State) :
  App.filteredThreats st ≡ₚ List.filter (App.filter_callback st) (App.threats st).
Proof. apply sort_by_Permutation. Qed.

Lemma eqb_all_or (a b c : string) :
  String.eqb a "all" || String.eqb b c = true <-> a = "all" \/ b = c.
Proof. by rewrite orb_true_iff, !String.eqb_eq. Qed.

Lemma matchesSearch_spec `{JS.Host} (st : App.State) (t : Threat) :
  App.matchesSearch st t = true <->
  App.searchTerm st = "" \/
  exists field, field ∈ [cveID t; vendorProject t; product t; vulnerabilityName t] /\
    IgnoringCase.contains field (App.searchTerm st).
Proof.
  unfold App.matchesSearch.
  rewrite !orb_true_iff, !includes_toLowerCase, String.eqb_eq. split.
  - intros [[[[? | ?] | ?] | ?] | ?]; [by left | right ..];
      [exists (cveID t) | exists (vendorProject t) | exists (product t)
      | exists (vulnerabilityName t)];
      (split; [| done]); rewrite !elem_of_cons; tauto.
  - intros [? | (field & Hin & Hfield)]; [tauto |].
    repeat (apply elem_of_cons in Hin as [-> | Hin]; [tauto |]).
    by apply elem_of_nil in Hin.
Qed.

Lemma matchesCWE_spec `{JS.Host} (st : App.State) (t : Threat) :
  App.matchesCWE st t = true <-> App.selectedCWE st = "all" \/ App.selectedCWE st ∈ cwes t.
Proof.
  unfold App.matchesCWE. rewrite orb_true_iff, String.eqb_eq, existsb_exists.
  split; (intros [? | Hin]; [by left | right]).
  - destruct Hin as (c & Hc & ->%String.eqb_eq). by apply list_elem_of_In.
  - exists (App.selectedCWE st). split; [by apply list_elem_of_In | apply String.eqb_refl].
Qed.

Lemma matchesDate_spec `{JS.Host} (st : App.State) (t : Threat) :
  App.matchesDate st t = true <->
  App.dateRange st = "all" \/
  exists added days,
    JS.Date_parse (dateAdded t) = Some added /\
    JS.parseInt (App.dateRange st) = Some days /\
    (Z.abs (JS.now - days * JS.ms_per_day) <= 8640000000000000)%Z /\
    (JS.now - days * JS.ms_per_day <= added)%Z.
Proof.
  unfold App.matchesDate, App.time_clip. change JS.ms_per_day with 86400000%Z.
  destruct (String.eqb (App.dateRange st) "all") eqn:Hall; simpl.
  - apply String.eqb_eq in Hall. split; [by left | done].
  - apply String.eqb_neq in Hall.
    destruct (JS.Date_parse (dateAdded t)) as [added|],
      (JS.parseInt (App.dateRange st)) as [days|]; simpl.
    + replace (JS.now - days * 24 * 60 * 60 * 1000)%Z with (JS.now - days * 86400000)%Z by lia.
      destruct (Z.leb_spec (Z.abs (JS.now - days * 86400000)) 8640000000000000).
      * rewrite Z.leb_le. split.
        -- intros Hle. right. by exists added, days.
        -- intros [? | (added' & days' & [= <-] & [= <-] & _ & ?)]; done.
      * split; [done |].
        intros [? | (added' & days' & [= <-] & [= <-] & ? & _)]; [done | lia].
    + split; [done |]. intros [? | (? & ? & _ & ? & _)]; done.
    + split; [done |]. intros [? | (? & ? & ? & _)]; done.
    + split; [done |]. intros [? | (? & ? & ? & _)]; done.
Qed.

(** C8: a threat is in [filteredThreats] exactly when it is one of the
    threats and at once: the search term is empty or occurs, case apart,
    in its cveID, vendorProject, product or vulnerabilityName; the
    selected vendor is 'all' or its vendorProject; the selected severity
    is 'all' or its severity; the selected CWE is 'all' or one of its
    cwes; the date range is 'all', or it is a number of days and the
    threat was added at or after that many days before now. It is there
    as often as it passes the filter; and with an empty search term and
    every selection at 'all', [filteredThreats] is a permutation of the
    whole list. *)
Theorem filteredThreats_conjunctive `{JS.Host} (st : App.State) :
  (forall t, t ∈ App.filteredThreats st <->
     t ∈ App.threats st /\
     (App.searchTerm st = "" \/
      exists field, field ∈ [cveID t; vendorProject t; product t; vulnerabilityName t] /\
        IgnoringCase.contains field (App.searchTerm st)) /\
     (App.selectedVendor st = "all" \/ vendorProject t = App.selectedVendor st) /\
     (App.selectedSeverity st = "all" \/ severity t = App.selectedSeverity st) /\
     (App.selectedCWE st = "all" \/ App.selectedCWE st ∈ cwes t) /\
     (App.dateRange st = "all" \/
      exists added days,
        JS.Date_parse (dateAdded t) = Some added /\
        JS.parseInt (App.dateRange st) = Some days /\
        (Z.abs (JS.now - days * JS.ms_per_day) <= 8640000000000000)%Z /\
        (JS.now - days * JS.ms_per_day <= added)%Z)) /\
  App.filteredThreats st ≡ₚ List.filter (App.filter_callback st) (App.threats st) /\
  (App.searchTerm st = "" -> App.selectedVendor st = "all" ->
   App.selectedSeverity st = "all" -> App.selectedCWE st = "all" ->
   App.dateRange st = "all" ->
   App.filteredThreats st ≡ₚ App.threats st).
Proof.
  split; [| split].
  - intros t. rewrite (filteredThreats_Permutation st).
    rewrite list_elem_of_In, filter_In, <- list_elem_of_In, filter_callback_true.
    rewrite matchesSearch_spec, matchesCWE_spec, matchesDate_spec.
    unfold App.matchesVendor, App.matchesSeverity. rewrite !eqb_all_or. done.
  - apply filteredThreats_Permutation.
  - intros Hsearch Hvendor Hseverity Hcwe Hdate.
    rewrite (filteredThreats_Permutation st), filter_all; [done |].
    intros t _. apply filter_callback_true.
    unfold App.matchesSearch, App.matchesVendor, App.matchesSeverity,
      App.matchesCWE, App.matchesDate.
    rewrite Hsearch, Hvendor, Hseverity, Hcwe, Hdate. done.
Qed.

Lemma filteredThreats_conjunctive_witness :
  @App.filteredThreats JS.example_host (App.initial Api.mockThreats) ≡ₚ Api.mockThreats.
Proof.
  apply (@filteredThreats_conjunctive JS.example_host (App.initial Api.mockThreats));
    reflexivity.
Defined.

(** ** fetchThreats and the mock data *)

Lemma truthy_value_false (v : Api.FilterValue) :
  Api.truthy_value v = false <-> Api.unset v.
Proof.
  unfold Api.unset. destruct v as [s | n | [|] |]; cbn [Api.truthy_value].
  - rewrite negb_false_iff, String.eqb_eq. split.
    + intros ->. right. by left.
    + intros [? | [[= ->] | [? | ?]]]; done.
  - rewrite negb_false_iff, Z.eqb_eq. split.
    + intros ->. right. right. by left.
    + intros [? | [? | [[= ->] | ?]]]; done.
  - split; [done |]. intros [? | [? | [? | ?]]]; done.
  - split; [| done]. intros _. right. right. by right.
  - split; [| done]. intros _. by left.
Qed.

Lemma truthy_value_true (v : Api.FilterValue) :
  Api.truthy_value v = true <-> ~ Api.unset v.
Proof. rewrite <- truthy_value_false. by destruct (Api.truthy_value v). Qed.

(** What [if (filters.f && filters.f !== 'all')] with the callback
    [threat.g === filters.f] keeps. *)
Lemma equality_stage_spec (v : Api.FilterValue) (x : string) :
  (if Api.set_and_not_all v then Api.strict_equal x v else true) = true <->
  Api.unset v \/ v = Api.Text "all" \/ v = Api.Text x.
Proof.
  unfold Api.set_and_not_all, Api.unset.
  destruct v as [s | n | b |]; cbn [Api.truthy_value Api.strict_equal].
  - destruct (String.eqb_spec s "") as [-> | Hs]; cbn [negb andb].
    + split; [intros _; left; right; by left | done].
    + destruct (String.eqb_spec "all" s) as [<- | Hall]; cbn [negb].
      * split; [intros _; right; by left | done].
      * rewrite String.eqb_eq. split; [intros ->; right; by right |].
        intros [[? | [[= ?] | [? | ?]]] | [[= ?] | [= ?]]]; done.
  - destruct (Z.eqb_spec n 0) as [-> | Hn]; cbn [negb andb].
    + split; [intros _; left; right; right; by left | done].
    + split; [done |]. intros [[? | [? | [[= ?] | ?]]] | [? | ?]]; done.
  - destruct b; cbn [andb negb].
    + split; [done |]. intros [[? | [? | [? | ?]]] | [? | ?]]; done.
    + split; [intros _; left; right; right; by right | done].
  - split; [intros _; left; by left | done].
Qed.

Lemma search_callback_spec (s : string) (t : Threat) :
  Api.search_callback (JS.toLowerCase s) t = true <->
  exists field, field ∈ [cveID t; vendorProject t; product t; vulnerabilityName t] /\
    IgnoringCase.contains field s.
Proof.
  unfold Api.search_callback. rewrite !orb_true_iff, !includes_toLowerCase. split.
  - intros [[[? | ?] | ?] | ?];
      [exists (cveID t) | exists (vendorProject t) | exists (product t)
      | exists (vulnerabilityName t)];
      (split; [| done]); rewrite !elem_of_cons; tauto.
  - intros (field & Hin & Hfield).
    repeat (apply elem_of_cons in Hin as [-> | Hin]; [tauto |]).
    by apply elem_of_nil in Hin.
Qed.

Lemma filter_bool_sublist {A} (f : A -> bool) (l : list A) : List.filter f l `sublist_of` l.
Proof.
  induction l as [|x l IH]; simpl; [done |].
  destruct (f x); [by apply sublist_skip | by apply sublist_cons].
Qed.

Lemma filter_bool_filter {A} (f g : A -> bool) (l : list A) :
  List.filter g (List.filter f l) = List.filter (fun x => f x && g x) l.
Proof.
  induction l as [|x l IH]; simpl; [done |].
  destruct (f x); simpl; [destruct (g x) |]; by rewrite IH.
Qed.

Lemma filter_stage_filter {A} (enabled : bool) (f : A -> bool) (l : list A) :
  (if enabled then List.filter f l else l)
  = List.filter (fun x => if enabled then f x else true) l.
Proof. destruct enabled; [done |]. symmetry. by apply filter_all. Qed.

(** The mock data, when the search term can be put in lower case: the
    mock threats that pass the three steps, in their order. *)
Lemma getMockData_Return (filters : Api.Filters.t) (searchTerm : string) :
  (Api.truthy_value (Api.Filters.search filters) = true ->
   Api.toLowerCase_of (Api.Filters.search filters) = Api.Return searchTerm) ->
  exists data,
    Api.getMockData filters = Api.Return data /\
    Api.threats data
    = List.filter
        (fun t =>
           (if Api.truthy_value (Api.Filters.search filters)
            then Api.search_callback searchTerm t else true) &&
           ((if Api.set_and_not_all (Api.Filters.vendor filters)
             then Api.strict_equal (vendorProject t) (Api.Filters.vendor filters) else true) &&
            (if Api.set_and_not_all (Api.Filters.severity filters)
             then Api.strict_equal (severity t) (Api.Filters.severity filters) else true)))
        Api.mockThreats /\
    Api.total data = length (Api.threats data) /\
    Api.page data = JS.or_default (Api.Filters.page filters) 1 /\
    Api.totalPages data
    = JS.ceil_div (Z.of_nat (Api.total data)) (JS.or_default (Api.Filters.limit filters) 10).
Proof.
  intros Hterm. unfold Api.getMockData.
  destruct (Api.truthy_value (Api.Filters.search filters)) eqn:Htruthy.
  - rewrite Hterm by done. cbn [Api.bind]. eexists. split; [reflexivity |].
    cbn [Api.threats Api.total Api.page Api.totalPages].
    split; [| done].
    rewrite (filter_stage_filter (Api.set_and_not_all (Api.Filters.severity filters))).
    rewrite (filter_stage_filter (Api.set_and_not_all (Api.Filters.vendor filters))).
    by rewrite !filter_bool_filter.
  - cbn [Api.bind]. eexists. split; [reflexivity |].
    cbn [Api.threats Api.total Api.page Api.totalPages].
    split; [| done].
    rewrite (filter_stage_filter (Api.set_and_not_all (Api.Filters.severity filters))).
    rewrite (filter_stage_filter (Api.set_and_not_all (Api.Filters.vendor filters))).
    rewrite filter_bool_filter.
    rewrite <- (filter_all (fun _ => true) Api.mockThreats) at 1 by done.
    by rewrite filter_bool_filter.
Qed.

(** A search value that is unset or a string can be put in lower case. *)
Lemma toLowerCase_of_Return (v : Api.FilterValue) :
  Api.unset v \/ (exists s, v = Api.Text s) ->
  exists searchTerm,
    (Api.truthy_value v = true -> Api.toLowerCase_of v = Api.Return searchTerm) /\
    (forall s, v = Api.Text s -> s <> "" -> searchTerm = JS.toLowerCase s).
Proof.
  intros [Hunset | [s ->]].
  - exists "". split.
    + intros Htruthy%truthy_value_true. done.
    + intros s -> Hs. destruct Hunset as [? | [[= ?] | [? | ?]]]; done.
  - exists (JS.toLowerCase s). split; [done |]. by intros ? [= <-] _.
Qed.

Lemma getMockData_Throw (filters : Api.Filters.t) :
  Api.truthy_value (Api.Filters.search filters) = true ->
  (forall s, Api.Filters.search filters <> Api.Text s) ->
  Api.getMockData filters
  = Api.Throw (Api.TypeError "filters.search.toLowerCase is not a function").
Proof.
  intros Htruthy Hnot. unfold Api.getMockData. rewrite Htruthy.
  destruct (Api.Filters.search filters) as [s | n | b |]; [by destruct (Hnot s) | done ..].
Qed.

(** The threats of the mock data are the mock threats that pass the
    three filters. *)
Lemma getMockData_threats (filters : Api.Filters.t) (data : Api.MockResult) (t : Threat) :
  Api.getMockData filters = Api.Return data ->
  t ∈ Api.threats data <->
  t ∈ Api.mockThreats /\
  (Api.unset (Api.Filters.search filters) \/
   exists s field,
     Api.Filters.search filters = Api.Text s /\
     field ∈ [cveID t; vendorProject t; product t; vulnerabilityName t] /\
     IgnoringCase.contains field s) /\
  (Api.unset (Api.Filters.vendor filters) \/
   Api.Filters.vendor filters = Api.Text "all" \/
   Api.Filters.vendor filters = Api.Text (vendorProject t)) /\
  (Api.unset (Api.Filters.severity filters) \/
   Api.Filters.severity filters = Api.Text "all" \/
   Api.Filters.severity filters = Api.Text (severity t)).
Proof.
  intros Hdata.
  destruct (Api.truthy_value (Api.Filters.search filters)) eqn:Htruthy.
  - destruct (Api.Filters.search filters) as [s | n | b |] eqn:Hsearch;
      [| by rewrite getMockData_Throw in Hdata by (by rewrite ?Hsearch) ..].
    destruct (getMockData_Return filters (JS.toLowerCase s)) as (data' & Hdata' & Hthreats & _).
    { by rewrite Hsearch. }
    rewrite Hdata in Hdata'. injection Hdata' as <-. rewrite Hthreats.
    rewrite list_elem_of_In, filter_In, <- list_elem_of_In, !andb_true_iff.
    rewrite Hsearch, Htruthy, search_callback_spec, !equality_stage_spec.
    apply truthy_value_true in Htruthy. split.
    + intros (? & (field & ? & ?) & ? & ?). split; [done |]. split; [| done].
      right. by exists s, field.
    + intros (? & [? | (s' & field & [= <-] & ? & ?)] & ? & ?); [done |].
      split; [done |]. split; [| done]. by exists field.
  - destruct (getMockData_Return filters "") as (data' & Hdata' & Hthreats & _).
    { by rewrite Htruthy. }
    rewrite Hdata in Hdata'. injection Hdata' as <-. rewrite Hthreats.
    rewrite list_elem_of_In, filter_In, <- list_elem_of_In, !andb_true_iff.
    rewrite Htruthy, !equality_stage_spec.
    apply truthy_value_false in Htruthy. split.
    + intros (? & _ & ? & ?). split; [done |]. split; [by left | done].
    + intros (? & _ & ? & ?). done.
Qed.

Lemma getMockData_sublist (filters : Api.Filters.t) (data : Api.MockResult) :
  Api.getMockData filters = Api.Return data -> Api.threats data `sublist_of` Api.mockThreats.
Proof.
  intros Hdata.
  destruct (Api.truthy_value (Api.Filters.search filters)) eqn:Htruthy.
  - destruct (Api.Filters.search filters) as [s | n | b |] eqn:Hsearch;
      [| by rewrite getMockData_Throw in Hdata by (by rewrite ?Hsearch) ..].
    destruct (getMockData_Return filters (JS.toLowerCase s)) as (data' & Hdata' & Hthreats & _).
    { by rewrite Hsearch. }
    rewrite Hdata in Hdata'. injection Hdata' as <-. rewrite Hthreats.
    apply filter_bool_sublist.
  - destruct (getMockData_Return filters "") as (data' & Hdata' & Hthreats & _).
    { by rewrite Htruthy. }
    rewrite Hdata in Hdata'. injection Hdata' as <-. rewrite Hthreats.
    apply filter_bool_sublist.
Qed.




(** ** Source Registry *)

(** C6, as amended: for a domain that is not configured, [resolve] gives
    exactly the one generic descriptor, of kind [scrape]; for a
    configured domain it gives the configured list as it is, so that the
    list is empty exactly when the domain is configured with an empty
    list. [resolve] gives a non-empty list for every domain exactly when
    no domain is configured with an empty list. [resolve] is a total
    function: it has no failure case. *)
Theorem resolve_nonempty (registry : gmap string (list Engine.SourceDescriptor))
    (domain : string) :
  (registry !! domain = None ->
     Engine.resolve registry domain = [Engine.generic_source domain] /\
     Engine.kind (Engine.generic_source domain) = Engine.scrape) /\
  (forall sources,
     registry !! domain = Some sources -> Engine.resolve registry domain = sources) /\
  (Engine.resolve registry domain = [] <-> registry !! domain = Some []) /\
  ((forall domain', Engine.resolve registry domain' <> []) <-> Engine.well_formed registry).
Proof.
  unfold Engine.resolve. split; [| split; [| split]].
  - intros ->. done.
  - intros sources ->. done.
  - destruct (registry !! domain) as [sources|]; split; try done; congruence.
  - unfold Engine.well_formed. split.
    + intros Hall domain' sources Hl ->. apply (Hall domain'). by rewrite Hl.
    + intros Hwf domain'. destruct (registry !! domain') as [sources|] eqn:Hl; [| done].
      by apply (Hwf domain').
Qed.

(** A registry that configures a domain with an empty list of sources:
    [resolve] gives the empty list for this known domain. *)
Lemma resolve_empty_counterexample :
  ({[ "cybersecurity" := [] ]} : gmap string (list Engine.SourceDescriptor))
    !! "cybersecurity" = Some [] /\
  Engine.resolve {[ "cybersecurity" := [] ]} "cybersecurity" = [].
Proof. split; vm_compute; reflexivity. Qed.

(** ** Cache Store *)

(** C5, as amended: with a positive time to live, [put] followed at once
    by [get] on the same key gives an entry with the payload that was
    put, fetched at the time of the [put] and fresh; whatever the store
    held for the key before is overwritten (a second [put] replaces the
    first), and the other keys are left as they were. *)
Theorem cache_round_trip (cache : gmap string Engine.Persisted) (k : string)
    (p : Engine.CollectionResult) (now ttl : Z) :
  (0 < ttl)%Z ->
  (exists entry,
     Engine.get (Engine.put now cache k p) k = Some entry /\
     Engine.payload entry = p /\
     Engine.fetched_at entry = now /\
     Engine.is_fresh now entry ttl = true) /\
  (forall before q, Engine.put now (Engine.put before cache k q) k p = Engine.put now cache k p) /\
  (forall k', k' <> k -> Engine.get (Engine.put now cache k p) k' = Engine.get cache k').
Proof.
  intros Httl. split; [| split].
  - eexists. unfold Engine.get, Engine.put. rewrite lookup_insert_eq.
    split; [done |]. split; [done |]. split; [done |].
    unfold Engine.is_fresh. simpl. apply Z.ltb_lt. lia.
  - intros before q. unfold Engine.put. apply insert_insert_eq.
  - intros k' Hk'. unfold Engine.get, Engine.put. by rewrite lookup_insert_ne.
Qed.

Lemma cache_round_trip_witness :
  (exists entry,
     Engine.get
       (Engine.put 1000 ∅ "cybersecurity|federal|"
          (Engine.collect_from_sources Engine.example_config Engine.example_world
             1000 "cybersecurity" "federal" [] None))
       "cybersecurity|federal|" = Some entry /\
     Engine.payload entry =
       Engine.collect_from_sources Engine.example_config Engine.example_world
         1000 "cybersecurity" "federal" [] None /\
     Engine.fetched_at entry = 1000%Z /\
     Engine.is_fresh 1000 entry Engine.default_ttl = true) /\
  (forall before q,
     Engine.put 1000 (Engine.put before ∅ "cybersecurity|federal|" q)
       "cybersecurity|federal|"
       (Engine.collect_from_sources Engine.example_config Engine.example_world
          1000 "cybersecurity" "federal" [] None)
     = Engine.put 1000 ∅ "cybersecurity|federal|"
         (Engine.collect_from_sources Engine.example_config Engine.example_world
            1000 "cybersecurity" "federal" [] None)) /\
  (forall k', k' <> "cybersecurity|federal|" ->
     Engine.get
       (Engine.put 1000 ∅ "cybersecurity|federal|"
          (Engine.collect_from_sources Engine.example_config Engine.example_world
             1000 "cybersecurity" "federal" [] None)) k'
     = Engine.get ∅ k').
Proof.
  apply (cache_round_trip ∅ "cybersecurity|federal|"
           (Engine.collect_from_sources Engine.example_config Engine.example_world
              1000 "cybersecurity" "federal" [] None)
           1000 Engine.default_ttl).
  reflexivity.
Defined.

(** With a time to live of 0 the entry read back right after the [put]
    is not fresh: [now - fetched_at < ttl] is [0 < 0]. *)
Lemma cache_round_trip_zero_ttl_counterexample :
  exists entry,
    Engine.get
      (Engine.put 1000 ∅ "cybersecurity|federal|"
         (Engine.collect_from_sources Engine.example_config Engine.example_world
            1000 "cybersecurity" "federal" [] None))
      "cybersecurity|federal|" = Some entry /\
    Engine.is_fresh 1000 entry 0 = false.
Proof. eexists. split; [vm_compute; reflexivity | reflexivity]. Qed.

(** ** Collection Orchestrator *)

Lemma merge_outcome_counters (outcomes : list Engine.SourceOutcome) (t : Engine.Tally) :
  Engine.succeeded (foldl Engine.merge_outcome t outcomes)
    = Engine.succeeded t + length (List.filter Engine.is_succeeded outcomes) /\
  Engine.attempted (foldl Engine.merge_outcome t outcomes)
    = Engine.attempted t + length (List.filter Engine.ran outcomes).
Proof.
  revert t. induction outcomes as [|o outcomes IH]; intros t; simpl; [lia |].
  destruct (IH (Engine.merge_outcome t o)) as [-> ->].
  destruct o; simpl; lia.
Qed.

Lemma succeeded_le_attempted (outcomes : list Engine.SourceOutcome) :
  length (List.filter Engine.is_succeeded outcomes) <= length (List.filter Engine.ran outcomes).
Proof. induction outcomes as [|[]]; simpl; lia. Qed.

Lemma ran_split (outcomes : list Engine.SourceOutcome) :
  length (List.filter Engine.ran outcomes)
  = length (List.filter Engine.is_succeeded outcomes)
    + length (List.filter Engine.is_errored outcomes).
Proof. induction outcomes as [|[]]; simpl; lia. Qed.

Lemma none_succeeded_spec (outcomes : list Engine.SourceOutcome) :
  forallb (fun o => negb (Engine.is_succeeded o)) outcomes = true <->
  length (List.filter Engine.is_succeeded outcomes) = 0.
Proof.
  induction outcomes as [|[]]; simpl; try tauto.
  split; [discriminate | lia].
Qed.

Lemma some_errored_spec (outcomes : list Engine.SourceOutcome) :
  existsb Engine.is_errored outcomes = true <->
  0 < length (List.filter Engine.is_errored outcomes).
Proof.
  induction outcomes as [|[]]; simpl; try tauto.
  - split; [discriminate | lia].
  - split; [lia | done].
Qed.

Lemma every_source_errored_spec (outcomes : list Engine.SourceOutcome) :
  Engine.every_source_errored outcomes = true <->
  length (List.filter Engine.is_succeeded outcomes) = 0 /\
  0 < length (List.filter Engine.ran outcomes).
Proof.
  unfold Engine.every_source_errored.
  rewrite andb_true_iff, none_succeeded_spec, some_errored_spec, ran_split. lia.
Qed.

Lemma collect_from_sources_consistent (cfg : Engine.Config) (w : Engine.World) (now : Z)
    (dom loc : string) (filters : list (string * string))
    (credentials : option Engine.Credentials) :
  Engine.degraded_consistent
    (Engine.collect_from_sources cfg w now dom loc filters credentials).
Proof.
  unfold Engine.degraded_consistent, Engine.collect_from_sources. simpl.
  match goal with |- context [foldl Engine.merge_outcome ?t ?os] =>
    destruct (merge_outcome_counters os t) as [-> ->] end.
  simpl. apply every_source_errored_spec.
Qed.

Lemma get_put (now : Z) (cache : gmap string Engine.Persisted) (k k' : string)
    (p : Engine.CollectionResult) (entry : Engine.CacheEntry) :
  Engine.get (Engine.put now cache k p) k' = Some entry ->
  Engine.payload entry = p \/ Engine.get cache k' = Some entry.
Proof.
  unfold Engine.get, Engine.put. rewrite lookup_insert. case_decide.
  - intros [= <-]. by left.
  - by right.
Qed.

Lemma get_invalidate (key_prefix : string) (cache : gmap string Engine.Persisted)
    (k : string) (entry : Engine.CacheEntry) :
  Engine.get (Engine.invalidate key_prefix cache) k = Some entry ->
  Engine.get cache k = Some entry.
Proof.
  unfold Engine.get, Engine.invalidate.
  destruct (filter _ cache !! k) as [stored|] eqn:Hl; [| done].
  apply map_lookup_filter_Some in Hl as [-> _]. done.
Qed.

Lemma collect_domain_data_consistent (cfg : Engine.Config) (w : Engine.World) (now : Z)
    (cache : gmap string Engine.Persisted) (dom loc : string)
    (filters : list (string * string)) (use_cache : bool)
    (credentials : option Engine.Credentials) :
  Engine.cache_consistent cache ->
  Engine.degraded_consistent
    (Engine.collect_domain_data cfg w now cache dom loc filters use_cache credentials).1 /\
  Engine.cache_consistent
    (Engine.collect_domain_data cfg w now cache dom loc filters use_cache credentials).2.
Proof.
  intros Hcache.
  pose proof (collect_from_sources_consistent cfg w now dom loc filters credentials) as Hnew.
  assert (Hput : Engine.cache_consistent
            (Engine.put now cache (Engine.cache_key dom loc filters)
               (Engine.collect_from_sources cfg w now dom loc filters credentials))).
  { intros k entry [-> | Hold]%get_put; [done | by eapply Hcache]. }
  unfold Engine.collect_domain_data.
  destruct use_cache; [| done].
  destruct (Engine.get cache (Engine.cache_key dom loc filters)) as [entry|] eqn:Hget;
    [| done].
  destruct (Engine.is_fresh now entry (Engine.ttl cfg)); [| done].
  split; [by eapply Hcache | done].
Qed.

Lemma reachable_consistent (cfg : Engine.Config) (cache : gmap string Engine.Persisted) :
  Engine.reachable cfg cache -> Engine.cache_consistent cache.
Proof.
  induction 1 as [| w now cache dom loc filters use_cache credentials _ IH
                  | key_prefix cache _ IH].
  - intros k entry. unfold Engine.get. by rewrite lookup_empty.
  - by apply collect_domain_data_consistent.
  - intros k entry Hget%get_invalidate. by eapply IH.
Qed.

(** C4: whatever the domain, the location, the filters, the behaviour of
    the sources and the state of the cache (any cache the engine can
    hold), the result of [collect_domain_data] has [degraded] set exactly
    when no source succeeded and at least one was attempted; and a
    collection in which a source succeeded is not degraded, even when that
    source yielded zero records. *)
Theorem degraded_iff_no_source_succeeded (cfg : Engine.Config)
    (cache : gmap string Engine.Persisted) :
  Engine.reachable cfg cache ->
  forall (w : Engine.World) (now : Z) (dom loc : string)
         (filters : list (string * string)) (use_cache : bool)
         (credentials : option Engine.Credentials),
  (Engine.degraded
     (Engine.collect_domain_data cfg w now cache dom loc filters use_cache credentials).1
     = true <->
   Engine.sources_succeeded
     (Engine.collect_domain_data cfg w now cache dom loc filters use_cache credentials).1
     = 0 /\
   0 < Engine.sources_attempted
         (Engine.collect_domain_data cfg w now cache dom loc filters use_cache credentials).1) /\
  (forall source,
     source ∈ Engine.resolve (Engine.registry cfg) dom ->
     Engine.dispatch cfg w now dom loc filters credentials source = Engine.Succeeded [] ->
     Engine.degraded (Engine.collect_from_sources cfg w now dom loc filters credentials)
     = false).
Proof.
  intros Hreach w now dom loc filters use_cache credentials. split.
  - apply collect_domain_data_consistent, reachable_consistent with cfg, Hreach.
  - intros source Hin Hok.
    apply not_true_iff_false. intros Hdeg.
    apply collect_from_sources_consistent in Hdeg as [Hzero _].
    unfold Engine.collect_from_sources in Hzero. simpl in Hzero.
    match type of Hzero with context [foldl Engine.merge_outcome ?t ?os] =>
      destruct (merge_outcome_counters os t) as [Hs _]; rewrite Hs in Hzero end.
    simpl in Hzero.
    assert (Engine.Succeeded [] ∈
              List.filter Engine.is_succeeded
                (Engine.dispatch cfg w now dom loc filters credentials
                   <$> Engine.resolve (Engine.registry cfg) dom)) as Hmem.
    { apply list_elem_of_In, filter_In. split; [| done].
      apply list_elem_of_In, list_elem_of_fmap. by exists source. }
    destruct (List.filter _ _); [by apply elem_of_nil in Hmem | simpl in Hzero; lia].
Qed.

Lemma degraded_iff_no_source_succeeded_witness :
  (Engine.degraded Engine.example_collection.1 = true <->
   Engine.sources_succeeded Engine.example_collection.1 = 0 /\
   0 < Engine.sources_attempted Engine.example_collection.1) /\
  (forall source,
     source ∈ Engine.resolve (Engine.registry Engine.example_config) "cybersecurity" ->
     Engine.dispatch Engine.example_config Engine.example_world 1000
       "cybersecurity" "federal" [] None source = Engine.Succeeded [] ->
     Engine.degraded
       (Engine.collect_from_sources Engine.example_config Engine.example_world 1000
          "cybersecurity" "federal" [] None)
     = false).
Proof.
  exact (degraded_iff_no_source_succeeded Engine.example_config ∅
           (Engine.reachable_empty Engine.example_config)
           Engine.example_world 1000 "cybersecurity" "federal" [] true None).
Defined.

(** ** The scroll-and-extract loop *)

Section ScrollLoop.
Variable consecutive : bool.
Variable params : Engine.CollectionParams.
Variable feed : Engine.Feed.

Abbreviation finished := (Engine.finished params).
Abbreviation iteration := (Engine.iteration consecutive params feed).
Abbreviation scroll_loop := (Engine.scroll_loop consecutive params feed).
Abbreviation after := (Engine.after consecutive params feed).
Abbreviation elapsed_after := (Engine.elapsed_after params feed).
Abbreviation measure := (Engine.measure params).

Lemma finished_false (st : Engine.LoopState) :
  finished st = false <->
  Engine.dropped st = false /\
  length (Engine.extracted st) < Engine.max_items params /\
  Engine.unproductive st < Engine.max_scrolls params /\
  Engine.elapsed st < Engine.session_timeout params.
Proof.
  unfold Engine.finished. rewrite !orb_false_iff, !Nat.leb_gt. tauto.
Qed.

Lemma finished_dropped (st : Engine.LoopState) :
  Engine.dropped st = true -> finished st = true.
Proof. intros Hd. unfold Engine.finished. by rewrite Hd. Qed.

Lemma iteration_progress (st : Engine.LoopState) :
  finished st = false ->
  Engine.dropped (iteration st) = true \/ measure (iteration st) < measure st.
Proof.
  intros (_ & Hitems & Hidle & _)%finished_false.
  unfold Engine.iteration, Engine.measure.
  destruct (Engine.scroll feed (Engine.scrolls st)) as [batch|]; [| by left].
  right. simpl.
  destruct (Engine.new_items _ batch) as [|it fresh] eqn:Hfresh.
  - rewrite take_nil, app_nil_r. lia.
  - rewrite length_app, length_take. simpl.
    set (len := length (Engine.extracted st)) in *.
    set (mi := Engine.max_items params) in *.
    set (ms := Engine.max_scrolls params) in *.
    set (k := (mi - len) `min` S (length fresh)).
    assert (1 <= k <= mi - len) by lia.
    assert ((mi - (len + k)) * S ms + ms < (mi - len) * S ms) by nia.
    destruct consecutive; lia.
Qed.

Lemma scroll_loop_finished (fuel : nat) (st : Engine.LoopState) :
  finished st = true -> scroll_loop fuel st = Some st.
Proof. intros Hf. destruct fuel; simpl; by rewrite Hf. Qed.

Lemma scroll_loop_step (fuel : nat) (st : Engine.LoopState) :
  finished st = false -> scroll_loop (S fuel) st = scroll_loop fuel (iteration st).
Proof. intros Hf. simpl. by rewrite Hf. Qed.

(** The loop returns whenever the fuel covers the measure. *)
Lemma scroll_loop_returns (fuel : nat) (st : Engine.LoopState) :
  measure st <= fuel -> exists st', scroll_loop fuel st = Some st'.
Proof.
  revert st. induction fuel as [|fuel IH]; intros st Hfuel.
  - destruct (finished st) eqn:Hf; [exists st; by apply scroll_loop_finished |].
    apply finished_false in Hf. unfold Engine.measure in Hfuel. lia.
  - destruct (finished st) eqn:Hf; [exists st; by apply scroll_loop_finished |].
    rewrite scroll_loop_step by done.
    destruct (iteration_progress st Hf) as [Hdrop | Hless].
    + eexists. by apply scroll_loop_finished, finished_dropped.
    + apply IH. lia.
Qed.

Lemma after_S (n : nat) (st : Engine.LoopState) :
  after (S n) st = after n (iteration st).
Proof. unfold Engine.after. apply Nat.iter_succ_r. Qed.

(** What the loop returns is the first finished state on the way. *)
Lemma scroll_loop_first_finished (fuel : nat) (st st' : Engine.LoopState) :
  scroll_loop fuel st = Some st' ->
  exists n, n <= fuel /\ st' = after n st /\ finished st' = true /\
    forall k, k < n -> finished (after k st) = false.
Proof.
  revert st. induction fuel as [|fuel IH]; intros st; simpl;
    destruct (finished st) eqn:Hf; try discriminate.
  - intros [= <-]. exists 0. split; [lia |]. split; [done |]. split; [done |]. lia.
  - intros [= <-]. exists 0. split; [lia |]. split; [done |]. split; [done |]. lia.
  - intros (n & Hn & -> & Hfin & Hbefore)%IH. exists (S n).
    split; [lia |]. split; [by rewrite after_S |]. split; [done |].
    intros [|k] Hk; [done |]. rewrite after_S. apply Hbefore. lia.
Qed.

Lemma scroll_loop_stops_at (n fuel : nat) (st : Engine.LoopState) :
  n <= fuel ->
  (forall k, k < n -> finished (after k st) = false) ->
  finished (after n st) = true ->
  scroll_loop fuel st = Some (after n st).
Proof.
  revert fuel st. induction n as [|n IH]; intros fuel st Hfuel Hbefore Hfin.
  - by apply scroll_loop_finished.
  - destruct fuel as [|fuel]; [lia |].
    rewrite scroll_loop_step by (apply (Hbefore 0); lia).
    rewrite after_S. apply IH; [lia | | by rewrite <- after_S].
    intros k Hk. rewrite <- after_S. apply Hbefore. lia.
Qed.

Lemma after_scrolls (n : nat) (st : Engine.LoopState) :
  Engine.scrolls (after n st) = Engine.scrolls st + n.
Proof.
  induction n as [|n IH]; simpl; [lia |].
  change (Engine.scrolls (iteration (after n st)) = Engine.scrolls st + S n).
  unfold Engine.iteration.
  destruct (Engine.scroll feed _); simpl; lia.
Qed.

Lemma enough_fuel_measure :
  measure Engine.loop_start <= Engine.enough_fuel params.
Proof. unfold Engine.measure, Engine.enough_fuel. simpl. lia. Qed.

(** The run of a feed without new items. *)
Lemma after_no_new_items (n : nat) :
  Engine.no_new_items feed ->
  after n Engine.loop_start =
    {| Engine.extracted := []; Engine.scrolls := n; Engine.unproductive := n;
       Engine.elapsed := elapsed_after n; Engine.dropped := false |}.
Proof.
  intros Hnone. induction n as [|n IH]; [done |].
  change (after (S n) Engine.loop_start) with (iteration (after n Engine.loop_start)).
  rewrite IH. unfold Engine.iteration. simpl. rewrite Hnone. simpl.
  by rewrite take_nil.
Qed.

Lemma seen_false (ids : list string) (it : Engine.Item) :
  (forall id, id ∈ ids -> id <> Engine.item_id it) -> Engine.seen ids it = false.
Proof.
  intros Hids. unfold Engine.seen. apply not_true_iff_false.
  intros (id & Hin & Heq)%existsb_exists.
  apply String.eqb_eq in Heq. apply (Hids id); [by apply list_elem_of_In | done].
Qed.

(** The run of a feed that shows one new item per scroll, up to the cap. *)
Lemma after_one_new_item (n : nat) :
  Engine.one_new_item_per_scroll feed ->
  n <= Engine.max_items params ->
  Engine.scrolls (after n Engine.loop_start) = n /\
  length (Engine.extracted (after n Engine.loop_start)) = n /\
  Engine.unproductive (after n Engine.loop_start) = 0 /\
  Engine.elapsed (after n Engine.loop_start) = elapsed_after n /\
  Engine.dropped (after n Engine.loop_start) = false /\
  (forall it, it ∈ Engine.extracted (after n Engine.loop_start) ->
     exists k, k < n /\ Engine.scroll feed k = Engine.Visible [it]).
Proof.
  intros [Hone Hinj]. induction n as [|n IH]; intros Hn.
  - repeat split. intros it Hit. by apply elem_of_nil in Hit.
  - destruct IH as (Hscrolls & Hlen & Hidle & Htime & Hdrop & Hshown); [lia |].
    change (after (S n) Engine.loop_start) with (iteration (after n Engine.loop_start)).
    set (st := after n Engine.loop_start) in *.
    unfold Engine.iteration. rewrite Hscrolls.
    destruct (Hone n) as [it Hit]. rewrite Hit.
    assert (Engine.new_items (Engine.item_id <$> Engine.extracted st) [it] = [it]) as ->.
    { simpl. rewrite seen_false; [done |].
      intros id (a & -> & Ha)%list_elem_of_fmap Heq.
      destruct (Hshown a Ha) as (k & Hk & Hka).
      pose proof (Hinj k n a it Hka Hit Heq). lia. }
    rewrite Hlen.
    replace (Engine.max_items params - n) with (S (Engine.max_items params - S n)) by lia.
    simpl. rewrite take_nil, length_app, Hlen, Hidle, Htime. simpl.
    repeat split; try lia.
    + by destruct consecutive.
    + intros a [Ha | ->%list_elem_of_singleton]%elem_of_app.
      * destruct (Hshown a Ha) as (k & Hk & Hka). exists k. split; [lia | done].
      * exists n. split; [lia | done].
Qed.


End ScrollLoop.

Lemma endless_feed_one_new_item : Engine.one_new_item_per_scroll Engine.endless_feed.
Proof.
  split.
  - intros n. by eexists.
  - intros n m a b [= <-] [= <-] Hid. simpl in Hid. by apply (inj pretty) in Hid.
Qed.

Lemma endless_feed_elapsed (params : Engine.CollectionParams) (n : nat) :
  Engine.elapsed_after params Engine.endless_feed n = n * Engine.pacing params.
Proof. induction n as [|n IH]; simpl; lia. Qed.



(** ** Examples *)

Example search_is_case_insensitive :
  exists data,
    Api.getMockData
      {| Api.Filters.search := Api.Text "CISCO"; Api.Filters.vendor := Api.Text "all";
         Api.Filters.severity := Api.Absent; Api.Filters.cwe := Api.Absent;
         Api.Filters.dateRange := Api.Absent; Api.Filters.sortBy := Api.Absent;
         Api.Filters.sortOrder := Api.Absent; Api.Filters.page := None;
         Api.Filters.limit := None |}
    = Api.Return data /\
    cveID <$> Api.threats data = ["CVE-2025-20362"; "CVE-2025-20333"].
Proof. eexists. split; reflexivity. Qed.

Example search_lowers_accented_letters :
  cveID <$> @App.filteredThreats JS.example_host
    {| App.threats := App.mockThreatData;
       App.searchTerm := "SYST" +:+ String "200"%char "MES";
       App.selectedVendor := "all"; App.selectedSeverity := "all";
       App.selectedCWE := "all"; App.dateRange := "all";
       App.sortBy := "dateAdded"; App.sortOrder := "desc"; App.currentPage := 1 |}
  = ["CVE-2025-5086"].
Proof. vm_compute. reflexivity. Qed.

Example accented_letter_is_one_code_unit :
  String.length ("Dassault Syst" +:+ String App.e_grave "mes") = 17 /\
  JS.toLowerCase ("SYST" +:+ String "200"%char "MES") = "syst" +:+ String App.e_grave "mes".
Proof. split; reflexivity. Qed.

Example mock_data_of_empty_filters :
  exists data,
    Api.getMockData Api.Filters.empty = Api.Return data /\
    Api.total data = 3 /\ Api.page data = 1%Z /\ Api.totalPages data = 1%Z.
Proof. eexists. repeat split. Qed.

Example fetch_error_falls_back :
  exists data,
    Api.getMockData Api.Filters.empty = Api.Return data /\
    @Api.fetchThreats JS.example_host
      (fun _ => Api.Throw (Api.FetchError "Failed to fetch")) Api.Filters.empty
    = Api.Return (Api.Mock data).
Proof. eexists. split; reflexivity. Qed.

Example http_500_falls_back :
  exists data,
    Api.getMockData Api.Filters.empty = Api.Return data /\
    @Api.fetchThreats JS.example_host
      (fun _ => Api.Return {| Api.ok := false; Api.status := 500;
                              Api.json := Api.Return Api.JNull |})
      Api.Filters.empty
    = Api.Return (Api.Mock data).
Proof. eexists. split; reflexivity. Qed.

Example unique_vendors_of_mock_threats :
  App.uniqueVendors Api.mockThreats = ["Cisco"; "Google"] /\
  App.uniqueCWEs Api.mockThreats = ["CWE-120"; "CWE-843"; "CWE-862"].
Proof. split; vm_compute; reflexivity. Qed.

Example severity_counts_of_mock_threats :
  App.severity_counts Api.mockThreats
  = [("Critical", JSObject.Number 2); ("High", JSObject.Number 1);
     ("Medium", JSObject.Number 0); ("Low", JSObject.Number 0)].
Proof. reflexivity. Qed.

Example last_two_days :
  cveID <$> @App.filteredThreats JS.example_host
    {| App.threats := Api.mockThreats; App.searchTerm := ""; App.selectedVendor := "all";
       App.selectedSeverity := "all"; App.selectedCWE := "all"; App.dateRange := "2";
       App.sortBy := "dateAdded"; App.sortOrder := "desc"; App.currentPage := 1 |}
  = ["CVE-2025-20362"; "CVE-2025-20333"].
Proof. vm_compute. reflexivity. Qed.

Example three_pages_of_27 :
  @App.totalPages JS.example_host (App.initial (concat (replicate 9 Api.mockThreats))) = 3 /\
  length (@App.paginatedThreats JS.example_host
            (App.with_page (App.initial (concat (replicate 9 Api.mockThreats))) 3)) = 7.
Proof. split; vm_compute; reflexivity. Qed.

Example one_source_times_out :
  Engine.sources_attempted Engine.example_collection.1 = 2 /\
  Engine.sources_succeeded Engine.example_collection.1 = 1 /\
  length (Engine.records Engine.example_collection.1) = 3 /\
  Engine.degraded Engine.example_collection.1 = false.
Proof. repeat split. Qed.

Example every_source_fails :
  Engine.records
    (Engine.collect_from_sources Engine.example_config Engine.unreachable_world 1000
       "cybersecurity" "federal" [] None) = [] /\
  Engine.degraded
    (Engine.collect_from_sources Engine.example_config Engine.unreachable_world 1000
       "cybersecurity" "federal" [] None) = true.
Proof. split; vm_compute; reflexivity. Qed.

Example unknown_domain_widgets :
  Engine.kind <$> Engine.resolve Engine.example_registry "widgets" = [Engine.scrape].
Proof. vm_compute. reflexivity. Qed.

(** * Further properties of the dashboard *)

(** ** Counting statistics: vendorStats, cweStats, timelineData *)

(** A list that [sort] left in the order of a comparator, of records
    that all hold a counter, has its counters in that order. *)
Lemma Sorted_counters {A} (cnt : A -> JSObject.primitive) (l : list A) :
  Forall (fun e => exists n, cnt e = JSObject.Number n) l ->
  Sorted (JS.cmp_le (fun a b => JSObject.subtract (cnt b) (cnt a))) l ->
  StronglySorted
    (fun a b => exists x y,
       cnt a = JSObject.Number x /\ cnt b = JSObject.Number y /\ y <= x) l.
Proof.
  intros Hnumbers Hsorted. induction Hsorted as [|a l Hsorted IH Hhd]; [constructor |].
  apply Forall_cons in Hnumbers as [[x Hx] Hnumbers].
  specialize (IH Hnumbers). constructor; [done |].
  destruct Hhd as [|b l Hab]; [constructor |].
  apply Forall_cons in Hnumbers as [[y Hy] Hnumbers].
  assert (y <= x) as Hyx.
  { unfold JS.cmp_le, JSObject.subtract in Hab. rewrite Hx, Hy in Hab.
    cbn [JSObject.to_number] in Hab. lia. }
  apply StronglySorted_cons in IH as [Hall _].
  constructor; [by exists x, y |].
  eapply Forall_impl; [exact Hall |].
  intros c (y' & z & Hy' & Hz & Hle). exists x, z.
  rewrite Hy in Hy'. injection Hy' as <-. split; [done |]. split; [done | lia].
Qed.

Section TopCounts.
Context `{JS.Host}.
Context {A : Type} (mk : string * JSObject.primitive -> A) (key : A -> string)
  (cnt : A -> JSObject.primitive).
Hypothesis key_mk : forall e, key (mk e) = e.1.
Hypothesis cnt_mk : forall e, cnt (mk e) = e.2.
Variable keys : list string.
Hypothesis keys_not_inherited : Forall (fun k => ~ JSObject.inherited k) keys.

Abbreviation by_count := (fun a b : A => JSObject.subtract (cnt b) (cnt a)).
Abbreviation tally := (foldl JSObject.increment [] keys).

Lemma tally_elem_of (k : string) (v : JSObject.primitive) :
  (k, v) ∈ tally <->
  k ∈ keys /\ v = JSObject.Number (length (filter (fun x => x = k) keys)).
Proof.
  rewrite elem_of_get_own by (apply tally_NoDup, NoDup_nil_2).
  assert (k ∈ keys ->
          JSObject.get_own tally k
          = Some (JSObject.Number (length (filter (fun x => x = k) keys)))) as Hget.
  { intros Hin. rewrite (tally_get [] keys k 0); [| | done].
    - rewrite decide_True by (by right). done.
    - by apply (proj1 (Forall_forall _ _) keys_not_inherited). }
  split.
  - intros Hv.
    assert (k ∈ keys) as Hin.
    { destruct (proj1 (tally_keys [] keys k)) as [Hin | [Hin _]];
        [| by apply elem_of_nil in Hin | done].
      apply dec_stable. intros Hnot. apply get_own_None in Hnot. congruence. }
    split; [done |]. rewrite (Hget Hin) in Hv. congruence.
  - intros [Hin ->]. by apply Hget.
Qed.

Lemma records_elem_of (e : A) :
  e ∈ mk <$> JSObject.entries tally <->
  e = mk (key e, cnt e) /\ key e ∈ keys /\
  cnt e = JSObject.Number (length (filter (fun x => x = key e) keys)).
Proof.
  rewrite entries_Permutation, list_elem_of_fmap. split.
  - intros ([k c] & -> & Hin). rewrite key_mk, cnt_mk. simpl.
    apply tally_elem_of in Hin as [? ?]. done.
  - intros (He & Hk & Hc). exists (key e, cnt e). split; [done |].
    apply tally_elem_of. done.
Qed.

Lemma records_keys : key <$> (mk <$> JSObject.entries tally) ≡ₚ tally.*1.
Proof.
  rewrite <- list_fmap_compose, entries_Permutation.
  erewrite list_fmap_ext; [done |]. intros i e _. simpl. apply key_mk.
Qed.

Lemma records_distinct : length (mk <$> JSObject.entries tally) = length (JS.Set_from keys).
Proof.
  rewrite length_fmap, entries_Permutation, <- (length_fmap fst).
  apply Permutation_length, NoDup_Permutation.
  - apply tally_NoDup, NoDup_nil_2.
  - apply Set_from_NoDup.
  - intros k. rewrite Set_from_elem_of, list_elem_of_fmap. split.
    + intros ([k' c] & -> & Hin). by apply tally_elem_of in Hin as [? _].
    + intros Hin. eexists (k, _). split; [done |]. apply tally_elem_of. done.
Qed.

Lemma records_counters :
  Forall (fun e => exists n, cnt e = JSObject.Number n) (mk <$> JSObject.entries tally).
Proof. apply Forall_forall. intros e (_ & _ & He)%records_elem_of. by eexists. Qed.

Lemma records_total :
  sum_list_with (fun e => JSObject.counter (cnt e)) (mk <$> JSObject.entries tally)
  = length keys.
Proof.
  transitivity (sum_list_with (fun e => JSObject.counter e.2) (JSObject.entries tally)).
  - generalize (JSObject.entries tally). intros l.
    induction l as [|e l IH]; [done |]. rewrite fmap_cons. simpl.
    rewrite cnt_mk. f_equal. exact IH.
  - rewrite entries_Permutation.
    destruct (tally_total [] keys keys_not_inherited) as [_ ->]; [constructor | done].
Qed.

#[local] Instance by_count_total : Total (JS.cmp_le by_count).
Proof.
  intros a b. unfold JS.cmp_le, JSObject.subtract.
  destruct (cnt a), (cnt b); cbn [JSObject.to_number]; lia.
Qed.

(** On records that hold counters the comparator is consistent. *)
Lemma by_count_consistent (l : list A) :
  Forall (fun e => exists n, cnt e = JSObject.Number n) l -> JS.consistent by_count l.
Proof.
  intros Hnumbers. rewrite Forall_forall in Hnumbers. unfold JSObject.subtract.
  split; [| split].
  - intros a [x Hx]%Hnumbers. rewrite Hx. cbn [JSObject.to_number]. lia.
  - intros a b [x Hx]%Hnumbers [y Hy]%Hnumbers. rewrite Hx, Hy.
    cbn [JSObject.to_number]. lia.
  - intros a b c [x Hx]%Hnumbers [y Hy]%Hnumbers [z Hz]%Hnumbers.
    rewrite Hx, Hy, Hz. cbn [JSObject.to_number]. lia.
Qed.

Lemma ranked_Permutation :
  JS.sort_by by_count (mk <$> JSObject.entries tally) ≡ₚ mk <$> JSObject.entries tally.
Proof. apply sort_by_Permutation. Qed.

Lemma ranked_descending :
  StronglySorted
    (fun a b => exists x y,
       cnt a = JSObject.Number x /\ cnt b = JSObject.Number y /\ y <= x)
    (JS.sort_by by_count (mk <$> JSObject.entries tally)).
Proof.
  apply Sorted_counters.
  - rewrite ranked_Permutation. apply records_counters.
  - rewrite sort_by_consistent by apply by_count_consistent, records_counters.
    apply sort_stable_Sorted, _.
Qed.

(** The first [n] of the ranking. *)
Lemma top_counts_spec (n : nat) :
  let top := JS.slice (JS.sort_by by_count (mk <$> JSObject.entries tally)) 0 n in
  length top = n `min` length (JS.Set_from keys) /\
  (forall e, e ∈ top ->
     key e ∈ keys /\
     cnt e = JSObject.Number (length (filter (fun x => x = key e) keys))) /\
  NoDup (key <$> top) /\
  StronglySorted
    (fun a b => exists x y,
       cnt a = JSObject.Number x /\ cnt b = JSObject.Number y /\ y <= x) top /\
  (forall k, k ∈ keys -> k ∉ key <$> top ->
     forall e, e ∈ top ->
       exists x, cnt e = JSObject.Number x /\ length (filter (fun x => x = k) keys) <= x) /\
  (length (JS.Set_from keys) <= n ->
   exists counts, cnt <$> top = JSObject.Number <$> counts /\ sum_list counts = length keys).
Proof.
  intros top.
  set (ranked := JS.sort_by by_count (mk <$> JSObject.entries tally)) in *.
  assert (Htop : top = take n ranked).
  { subst top. unfold JS.slice. by rewrite drop_0, Nat.sub_0_r. }
  clearbody top. subst top.
  pose proof ranked_Permutation as Hperm. fold ranked in Hperm.
  pose proof ranked_descending as Hsorted. fold ranked in Hsorted.
  assert (Hsplit : ranked = take n ranked ++ drop n ranked) by (symmetry; apply take_drop).
  split; [| split; [| split; [| split; [| split]]]].
  - rewrite length_take, Hperm, records_distinct. lia.
  - intros e He. assert (e ∈ ranked) as Hin by (rewrite Hsplit; apply elem_of_app; by left).
    rewrite Hperm in Hin. apply records_elem_of in Hin as (_ & ? & ?). done.
  - assert (NoDup (key <$> ranked)) as Hnd.
    { rewrite Hperm, records_keys. apply tally_NoDup, NoDup_nil_2. }
    rewrite Hsplit, fmap_app in Hnd. by apply NoDup_app in Hnd as [? _].
  - rewrite Hsplit in Hsorted. by apply StronglySorted_app_1_l in Hsorted.
  - intros k Hk Hnot e He.
    assert (mk (k, JSObject.Number (length (filter (fun x => x = k) keys))) ∈ ranked) as Hin.
    { rewrite Hperm. apply records_elem_of. rewrite key_mk, cnt_mk. done. }
    rewrite Hsplit in Hin. apply elem_of_app in Hin as [Hin | Hin].
    + exfalso. apply Hnot. apply list_elem_of_fmap. eexists. split; [| exact Hin].
      by rewrite key_mk.
    + rewrite Hsplit in Hsorted.
      destruct (StronglySorted_app_1_elem_of _ _ _ _ _ Hsorted He Hin)
        as (x & y & Hx & Hy & Hle).
      rewrite cnt_mk in Hy. simpl in Hy. injection Hy as <-. by exists x.
  - intros Hfew.
    assert (take n ranked = ranked) as ->.
    { apply take_ge. rewrite Hperm, records_distinct. done. }
    destruct (counters_numbers cnt ranked) as [Hnumbers Htotal].
    { rewrite Hperm. apply records_counters. }
    eexists. split; [exact Hnumbers |].
    rewrite Htotal, Hperm. apply records_total.
Qed.

End TopCounts.

Lemma vendor_counts_tally (threats : list Threat) :
  App.vendor_counts threats = foldl JSObject.increment [] (vendorProject <$> threats).
Proof. unfold App.vendor_counts. by rewrite foldl_fmap. Qed.

Lemma cwe_counts_tally (threats : list Threat) :
  App.cwe_counts threats = foldl JSObject.increment [] (flat_map cwes threats).
Proof.
  unfold App.cwe_counts. generalize (@nil (string * JSObject.primitive)).
  induction threats as [|t threats IH]; intros stats; simpl; [done |].
  by rewrite foldl_app, IH.
Qed.

Lemma timeline_counts_tally (threats : list Threat) :
  App.timeline_counts threats = foldl JSObject.increment [] (dateAdded <$> threats).
Proof. unfold App.timeline_counts. by rewrite foldl_fmap. Qed.

(** X1: when no vendor name is a key that objects inherit from
    [Object.prototype], [vendorStats] lists the ten most frequent
    vendors: it has as many entries as there are distinct vendors, up to
    ten; each entry gives a vendor of the list with the number of its
    threats; no vendor appears twice; the counts never increase along the
    list; a vendor that is left out has no more threats than any vendor
    listed; and with at most ten distinct vendors the counts add up to
    the number of threats. *)
Theorem vendorStats_top_ten `{JS.Host} (threats : list Threat) :
  Forall (fun t => ~ JSObject.inherited (vendorProject t)) threats ->
  length (App.vendorStats threats) = 10 `min` length (App.uniqueVendors threats) /\
  (forall e, e ∈ App.vendorStats threats ->
     (exists t, t ∈ threats /\ vendorProject t = App.VendorStat.vendor e) /\
     App.VendorStat.count e
     = JSObject.Number
         (length (filter (fun t => vendorProject t = App.VendorStat.vendor e) threats))) /\
  NoDup (App.VendorStat.vendor <$> App.vendorStats threats) /\
  StronglySorted
    (fun a b => exists x y,
       App.VendorStat.count a = JSObject.Number x /\
       App.VendorStat.count b = JSObject.Number y /\ y <= x)
    (App.vendorStats threats) /\
  (forall t, t ∈ threats ->
     vendorProject t ∉ App.VendorStat.vendor <$> App.vendorStats threats ->
     forall e, e ∈ App.vendorStats threats ->
       exists x,
         App.VendorStat.count e = JSObject.Number x /\
         length (filter (fun t' => vendorProject t' = vendorProject t) threats) <= x) /\
  (length (App.uniqueVendors threats) <= 10 ->
   exists counts,
     App.VendorStat.count <$> App.vendorStats threats = JSObject.Number <$> counts /\
     sum_list counts = length threats).
Proof.
  intros Hclean. unfold App.vendorStats, App.uniqueVendors.
  rewrite vendor_counts_tally, sort_strings_Permutation.
  destruct (top_counts_spec
              (fun entry => {| App.VendorStat.vendor := entry.1;
                               App.VendorStat.count := entry.2 |})
              App.VendorStat.vendor App.VendorStat.count
              (fun _ => eq_refl) (fun _ => eq_refl) (vendorProject <$> threats)
              (proj2 (Forall_fmap vendorProject (fun k => ~ JSObject.inherited k) threats)
                 Hclean) 10)
    as (Hlen & Hin & Hnd & Hsorted & Htop & Hsum).
  split; [exact Hlen |]. split; [| split; [exact Hnd |]; split; [exact Hsorted |]; split].
  - intros e He. destruct (Hin e He) as [Hk Hc]. split.
    + apply list_elem_of_fmap in Hk as (t & ? & ?). by exists t.
    + by rewrite <- filter_fmap_length.
  - intros t Ht Hnot e He. rewrite <- filter_fmap_length.
    apply Htop; [| done | done]. apply list_elem_of_fmap. by exists t.
  - intros Hfew. destruct (Hsum Hfew) as (counts & Hcounts & Htotal).
    exists counts. split; [done |]. by rewrite Htotal, length_fmap.
Qed.

Lemma vendorStats_top_ten_witness :
  length (@App.vendorStats JS.example_host App.mockThreatData)
  = 10 `min` length (App.uniqueVendors App.mockThreatData).
Proof.
  apply (@vendorStats_top_ten JS.example_host App.mockThreatData).
  apply (bool_decide_unpack _). vm_compute. exact I.
Defined.

(** X2: when no CWE identifier is a key that objects inherit from
    [Object.prototype], [cweStats] lists the eight most frequent CWE
    identifiers: as many entries as there are distinct identifiers, up to
    eight; each entry gives an identifier found in a [cwes] array with
    its number of occurrences over all the arrays; no identifier appears
    twice; the counts never increase along the list; an identifier that
    is left out occurs no more often than any identifier listed; and
    with at most eight distinct identifiers the counts add up to the
    number of occurrences. *)
Theorem cweStats_top_eight `{JS.Host} (threats : list Threat) :
  Forall (fun c => ~ JSObject.inherited c) (flat_map cwes threats) ->
  length (App.cweStats threats) = 8 `min` length (App.uniqueCWEs threats) /\
  (forall e, e ∈ App.cweStats threats ->
     (exists t, t ∈ threats /\ App.CweStat.cwe e ∈ cwes t) /\
     App.CweStat.count e
     = JSObject.Number
         (length (filter (fun c => c = App.CweStat.cwe e) (flat_map cwes threats)))) /\
  NoDup (App.CweStat.cwe <$> App.cweStats threats) /\
  StronglySorted
    (fun a b => exists x y,
       App.CweStat.count a = JSObject.Number x /\
       App.CweStat.count b = JSObject.Number y /\ y <= x)
    (App.cweStats threats) /\
  (forall c, c ∈ flat_map cwes threats ->
     c ∉ App.CweStat.cwe <$> App.cweStats threats ->
     forall e, e ∈ App.cweStats threats ->
       exists x,
         App.CweStat.count e = JSObject.Number x /\
         length (filter (fun c' => c' = c) (flat_map cwes threats)) <= x) /\
  (length (App.uniqueCWEs threats) <= 8 ->
   exists counts,
     App.CweStat.count <$> App.cweStats threats = JSObject.Number <$> counts /\
     sum_list counts = length (flat_map cwes threats)).
Proof.
  intros Hclean. unfold App.cweStats, App.uniqueCWEs.
  rewrite cwe_counts_tally, sort_strings_Permutation.
  destruct (top_counts_spec
              (fun entry => {| App.CweStat.cwe := entry.1; App.CweStat.count := entry.2 |})
              App.CweStat.cwe App.CweStat.count
              (fun _ => eq_refl) (fun _ => eq_refl) (flat_map cwes threats) Hclean 8)
    as (Hlen & Hin & Hnd & Hsorted & Htop & Hsum).
  split; [exact Hlen |]. split; [| done].
  intros e He. destruct (Hin e He) as [Hk Hc]. split; [| done].
  apply list_elem_of_In, in_flat_map in Hk as (t & Ht & Hc').
  exists t. by rewrite !list_elem_of_In.
Qed.

Lemma cweStats_top_eight_witness :
  length (@App.cweStats JS.example_host App.mockThreatData)
  = 8 `min` length (App.uniqueCWEs App.mockThreatData).
Proof.
  apply (@cweStats_top_eight JS.example_host App.mockThreatData).
  apply (bool_decide_unpack _). vm_compute. exact I.
Defined.

Section TimelineProofs.
Context `{JS.Host}.

#[local] Instance compare_dates_total : Total (JS.cmp_le App.compare_dates).
Proof.
  intros a b. unfold JS.cmp_le, App.compare_dates.
  destruct (JS.Date_parse (App.TimelineEntry.date a)),
    (JS.Date_parse (App.TimelineEntry.date b)); lia.
Qed.

(** On entries with valid dates the comparator is consistent. *)
Lemma compare_dates_consistent (l : list App.TimelineEntry.t) :
  Forall (fun e => is_Some (JS.Date_parse (App.TimelineEntry.date e))) l ->
  JS.consistent App.compare_dates l.
Proof.
  intros Hvalid. rewrite Forall_forall in Hvalid. unfold App.compare_dates.
  split; [| split].
  - intros a [x Hx]%Hvalid. rewrite Hx. lia.
  - intros a b [x Hx]%Hvalid [y Hy]%Hvalid. rewrite Hx, Hy. lia.
  - intros a b c [x Hx]%Hvalid [y Hy]%Hvalid [z Hz]%Hvalid. rewrite Hx, Hy, Hz. lia.
Qed.

(** On entries with valid dates, a list sorted with [compare_dates] is in
    ascending order of time. *)
Lemma compare_dates_Sorted_ascending (l : list App.TimelineEntry.t) :
  Forall (fun e => is_Some (JS.Date_parse (App.TimelineEntry.date e))) l ->
  Sorted (JS.cmp_le App.compare_dates) l ->
  StronglySorted
    (fun a b => forall x y,
       JS.Date_parse (App.TimelineEntry.date a) = Some x ->
       JS.Date_parse (App.TimelineEntry.date b) = Some y -> (x <= y)%Z) l.
Proof.
  intros Hvalid Hsorted. induction Hsorted as [|a l Hsorted IH Hhd]; [constructor |].
  apply Forall_cons in Hvalid as [[x Hx] Hvalid].
  specialize (IH Hvalid). constructor; [done |].
  destruct Hhd as [|b l Hab]; [constructor |].
  apply Forall_cons in Hvalid as [[y Hy] Hvalid].
  assert (x <= y)%Z as Hxy.
  { unfold JS.cmp_le, App.compare_dates in Hab. rewrite Hx, Hy in Hab. lia. }
  apply StronglySorted_cons in IH as [Hall _].
  constructor.
  - intros x' y' Hx' Hy'. congruence.
  - eapply Forall_impl; [exact Hall |]. intros c Hbc x' z Hx' Hz.
    assert (x' = x) as -> by congruence. specialize (Hbc y z Hy Hz). lia.
Qed.

(** X3: when no [dateAdded] is a key that objects inherit from
    [Object.prototype], [timelineData] has one entry per distinct
    [dateAdded], up to thirty; each entry gives a date of the list with
    the number of threats added on it; no date appears twice; with at
    most thirty distinct dates the counts add up to the number of
    threats. When every [dateAdded] is a valid date as well, the entries
    are in ascending order of time and a date that is left out is not
    later than any date listed: the entries are the thirty latest
    dates. *)
Theorem timelineData_last_thirty (threats : list Threat) :
  Forall (fun t => ~ JSObject.inherited (dateAdded t)) threats ->
  length (App.timelineData threats)
  = 30 `min` length (JS.Set_from (dateAdded <$> threats)) /\
  (forall e, e ∈ App.timelineData threats ->
     (exists t, t ∈ threats /\ dateAdded t = App.TimelineEntry.date e) /\
     App.TimelineEntry.count e
     = JSObject.Number
         (length (filter (fun t => dateAdded t = App.TimelineEntry.date e) threats))) /\
  NoDup (App.TimelineEntry.date <$> App.timelineData threats) /\
  (length (JS.Set_from (dateAdded <$> threats)) <= 30 ->
   exists counts,
     App.TimelineEntry.count <$> App.timelineData threats = JSObject.Number <$> counts /\
     sum_list counts = length threats) /\
  ((forall t, t ∈ threats -> is_Some (JS.Date_parse (dateAdded t))) ->
   StronglySorted
     (fun a b => forall x y,
        JS.Date_parse (App.TimelineEntry.date a) = Some x ->
        JS.Date_parse (App.TimelineEntry.date b) = Some y -> (x <= y)%Z)
     (App.timelineData threats) /\
   (forall t, t ∈ threats ->
      dateAdded t ∉ App.TimelineEntry.date <$> App.timelineData threats ->
      forall e x y, e ∈ App.timelineData threats ->
        JS.Date_parse (dateAdded t) = Some x ->
        JS.Date_parse (App.TimelineEntry.date e) = Some y -> (x <= y)%Z)).
Proof.
  intros Hclean.
  apply (proj2 (Forall_fmap dateAdded (fun k => ~ JSObject.inherited k) threats)) in Hclean.
  unfold App.timelineData, JS.slice_last. rewrite timeline_counts_tally.
  set (mk := fun entry : string * JSObject.primitive =>
               {| App.TimelineEntry.date := entry.1; App.TimelineEntry.count := entry.2 |}).
  set (keys := dateAdded <$> threats) in *.
  set (recs := mk <$> JSObject.entries (foldl JSObject.increment [] keys)).
  set (sorted := JS.sort_by App.compare_dates recs).
  assert (Hperm : sorted ≡ₚ recs) by apply sort_by_Permutation.
  assert (Hmk1 : forall e, App.TimelineEntry.date (mk e) = e.1) by done.
  assert (Hmk2 : forall e, App.TimelineEntry.count (mk e) = e.2) by done.
  pose proof (records_elem_of mk _ _ Hmk1 Hmk2 keys Hclean) as Helem. fold recs in Helem.
  pose proof (records_keys mk _ Hmk1 keys) as Hkeys. fold recs in Hkeys.
  pose proof (records_distinct mk keys Hclean) as Hdistinct. fold recs in Hdistinct.
  pose proof (records_total mk _ Hmk2 keys Hclean) as Htotal. fold recs in Htotal.
  pose proof (records_counters mk _ _ Hmk1 Hmk2 keys Hclean) as Hcounters.
  fold recs in Hcounters.
  set (k := length sorted - 30).
  assert (Hsplit : sorted = take k sorted ++ drop k sorted) by (symmetry; apply take_drop).
  assert (Hsub : forall e, e ∈ drop k sorted -> e ∈ recs).
  { intros e He. rewrite <- Hperm, Hsplit. apply elem_of_app. by right. }
  split; [| split; [| split; [| split]]].
  - rewrite length_drop. unfold k. rewrite Hperm, Hdistinct. lia.
  - intros e He. apply Hsub, Helem in He as (_ & Hk & Hc). split.
    + apply list_elem_of_fmap in Hk as (t & ? & ?). by exists t.
    + rewrite Hc. f_equal. apply filter_fmap_length.
  - assert (NoDup (App.TimelineEntry.date <$> sorted)) as Hnd.
    { rewrite Hperm, Hkeys. apply tally_NoDup, NoDup_nil_2. }
    rewrite Hsplit, fmap_app in Hnd. apply NoDup_app in Hnd as (_ & _ & ?). done.
  - intros Hfew. assert (k = 0) as -> by (unfold k; rewrite Hperm, Hdistinct; lia).
    rewrite drop_0.
    destruct (counters_numbers App.TimelineEntry.count sorted) as [Hnumbers Hsum].
    { by rewrite Hperm. }
    eexists. split; [exact Hnumbers |].
    rewrite Hsum, Hperm, Htotal. apply length_fmap.
  - intros Hvalid.
    assert (Forall (fun e => is_Some (JS.Date_parse (App.TimelineEntry.date e))) recs)
      as Hdates.
    { apply Forall_forall. intros e He.
      apply Helem in He as (_ & (t & -> & Ht)%list_elem_of_fmap & _). by apply Hvalid. }
    assert (StronglySorted
              (fun a b => forall x y,
                 JS.Date_parse (App.TimelineEntry.date a) = Some x ->
                 JS.Date_parse (App.TimelineEntry.date b) = Some y -> (x <= y)%Z)
              sorted) as Hsorted.
    { apply compare_dates_Sorted_ascending; [by rewrite Hperm |].
      unfold sorted. rewrite sort_by_consistent by by apply compare_dates_consistent.
      apply sort_stable_Sorted, _. }
    rewrite Hsplit in Hsorted. split; [by apply StronglySorted_app_1_r in Hsorted |].
    intros t Ht Hnot e x y He Hx Hy.
    assert (mk (dateAdded t,
                JSObject.Number (length (filter (fun d => d = dateAdded t) keys))) ∈ sorted)
      as Hin.
    { rewrite Hperm. apply Helem. simpl. split; [done |]. split; [| done].
      apply list_elem_of_fmap. by exists t. }
    rewrite Hsplit in Hin. apply elem_of_app in Hin as [Hin | Hin].
    + by apply (StronglySorted_app_1_elem_of _ _ _ _ _ Hsorted Hin He).
    + exfalso. apply Hnot. apply list_elem_of_fmap. eexists. split; [| exact Hin]. done.
Qed.

End TimelineProofs.

Lemma timelineData_last_thirty_witness :
  length (@App.timelineData JS.example_host App.mockThreatData)
  = 30 `min` length (JS.Set_from (dateAdded <$> App.mockThreatData)).
Proof.
  apply (@timelineData_last_thirty JS.example_host App.mockThreatData).
  apply (bool_decide_unpack _). vm_compute. exact I.
Defined.

(** ** The requests and the other endpoints of api.js *)

Lemma append_value_elem_of `{JS.Host} (key : string) (value : Api.FilterValue)
    (params : list (string * string)) (k v : string) :
  (k, v) ∈ Api.append_value key value params <->
  (k, v) ∈ params \/ (k = key /\ Api.sent value v).
Proof.
  unfold Api.append_value, Api.sent.
  destruct value as [s | n | [|] |]; cbn [Api.truthy_value Api.value_string].
  - destruct (String.eqb_spec s "") as [-> | Hs]; cbn [negb].
    + split; [by left |].
      intros [? | (_ & [(s & [= <-] & ? & _) | [(n & ? & _) | [? _]]])]; done.
    + rewrite elem_of_app, list_elem_of_singleton. split.
      * intros [? | [= -> ->]]; [by left |]. right. split; [done |]. left. by exists s.
      * intros [? | (-> & [(s' & [= <-] & _ & ->) | [(n & ? & _) | [? _]]])];
          [by left | by right | done | done].
  - destruct (Z.eqb_spec n 0) as [-> | Hn]; cbn [negb].
    + split; [by left |].
      intros [? | (_ & [(s & ? & _) | [(n & [= <-] & ? & _) | [? _]]])]; done.
    + rewrite elem_of_app, list_elem_of_singleton. split.
      * intros [? | [= -> ->]]; [by left |]. right. split; [done |]. right. left. by exists n.
      * intros [? | (-> & [(s & ? & _) | [(n' & [= <-] & _ & ->) | [? _]]])];
          [by left | done | by right | done].
  - rewrite elem_of_app, list_elem_of_singleton. split.
    + intros [? | [= -> ->]]; [by left |]. right. split; [done |]. right. by right.
    + intros [? | (-> & [(s & ? & _) | [(n & ? & _) | [_ ->]]])];
        [by left | done | done | by right].
  - split; [by left |].
    intros [? | (_ & [(s & ? & _) | [(n & ? & _) | [? _]]])]; done.
  - split; [by left |].
    intros [? | (_ & [(s & ? & _) | [(n & ? & _) | [? _]]])]; done.
Qed.

Lemma append_number_elem_of `{JS.Host} (key : string) (o : option Z)
    (params : list (string * string)) (k v : string) :
  (k, v) ∈ Api.append_number key o params <->
  (k, v) ∈ params \/
  (k = key /\ exists n, o = Some n /\ n <> 0%Z /\ v = JS.Number_toString n).
Proof.
  unfold Api.append_number. destruct o as [n|].
  - destruct (n =? 0)%Z eqn:E.
    + apply Z.eqb_eq in E as ->. split; [by left |].
      intros [? | (_ & n & [= <-] & ? & _)]; done.
    + apply Z.eqb_neq in E.
      rewrite elem_of_app, list_elem_of_singleton. split.
      * intros [? | [= -> ->]]; [by left |]. right. split; [done |]. by exists n.
      * intros [? | (-> & m & [= <-] & _ & ->)]; [by left | by right].
  - split; [by left |]. intros [? | (_ & n & ? & _)]; done.
Qed.

Lemma append_value_keys `{JS.Host} (key : string) (value : Api.FilterValue)
    (params : list (string * string)) (keys : list string) :
  params.*1 `sublist_of` keys ->
  (Api.append_value key value params).*1 `sublist_of` keys ++ [key].
Proof.
  intros Hsub. unfold Api.append_value. destruct (Api.truthy_value value).
  - rewrite fmap_app. by apply sublist_app.
  - by apply sublist_inserts_r.
Qed.

Lemma append_number_keys `{JS.Host} (key : string) (o : option Z)
    (params : list (string * string)) (keys : list string) :
  params.*1 `sublist_of` keys ->
  (Api.append_number key o params).*1 `sublist_of` keys ++ [key].
Proof.
  intros Hsub. unfold Api.append_number.
  destruct o as [n|]; [destruct (n =? 0)%Z |].
  - by apply sublist_inserts_r.
  - rewrite fmap_app. by apply sublist_app.
  - by apply sublist_inserts_r.
Qed.

(** X4: the request of [fetchThreats] goes to [/threats]; it carries a
    filter exactly when the filter is set (a string that is not empty, a
    number that is not zero, or [true]), as the string of its value,
    under the keys search, vendor, severity, cwe, date_range, sort_by,
    sort_order, page, limit, in this order and each at most once. The
    value 'all' is sent like any other, and a safe integer is sent as its
    decimal numeral. *)
Theorem threats_request_params `{JS.Host} (filters : Api.Filters.t) :
  Api.url (Api.threats_request filters) = "http://localhost:5000/api/v1/threats" /\
  (Api.queryParams (Api.threats_request filters)).*1 `sublist_of` Api.threats_request_keys /\
  (forall k v, (k, v) ∈ Api.queryParams (Api.threats_request filters) <->
     (k = "search" /\ Api.sent (Api.Filters.search filters) v) \/
     (k = "vendor" /\ Api.sent (Api.Filters.vendor filters) v) \/
     (k = "severity" /\ Api.sent (Api.Filters.severity filters) v) \/
     (k = "cwe" /\ Api.sent (Api.Filters.cwe filters) v) \/
     (k = "date_range" /\ Api.sent (Api.Filters.dateRange filters) v) \/
     (k = "sort_by" /\ Api.sent (Api.Filters.sortBy filters) v) \/
     (k = "sort_order" /\ Api.sent (Api.Filters.sortOrder filters) v) \/
     (k = "page" /\
      exists n, Api.Filters.page filters = Some n /\ n <> 0%Z /\ v = JS.Number_toString n) \/
     (k = "limit" /\
      exists n, Api.Filters.limit filters = Some n /\ n <> 0%Z /\ v = JS.Number_toString n)) /\
  (forall n, (Z.abs n <= JS.MAX_SAFE_INTEGER)%Z -> JS.Number_toString n = pretty n).
Proof.
  split; [reflexivity |]. split; [| split].
  - unfold Api.threats_request. cbn [Api.queryParams].
    change Api.threats_request_keys
      with ([] ++ ["search"] ++ ["vendor"] ++ ["severity"] ++ ["cwe"] ++ ["date_range"]
            ++ ["sort_by"] ++ ["sort_order"] ++ ["page"] ++ ["limit"]).
    rewrite !(assoc_L (++)).
    repeat first [apply append_number_keys | apply append_value_keys].
    done.
  - intros k v. unfold Api.threats_request. cbn [Api.queryParams].
    rewrite !append_number_elem_of, !append_value_elem_of, elem_of_nil. tauto.
  - apply JS.Number_toString_safe.
Qed.

(** X5: [fetchThreatById] and [fetchAnalytics] throw nothing. For a
    response that is OK with a JSON body they return the body; in every
    other case [fetchThreatById] returns [null] and [fetchAnalytics]
    the mock analytics. *)
Theorem lookups_never_throw (fetch : Api.Network) (cveId : string) :
  (forall response body,
     fetch (Api.threat_request cveId) = Api.Return response ->
     Api.ok response = true -> Api.json response = Api.Return body ->
     Api.fetchThreatById fetch cveId = Api.Return body) /\
  ((forall response body,
      fetch (Api.threat_request cveId) = Api.Return response ->
      Api.ok response = true -> Api.json response <> Api.Return body) ->
   Api.fetchThreatById fetch cveId = Api.Return Api.JNull) /\
  (forall response body,
     fetch Api.analytics_request = Api.Return response ->
     Api.ok response = true -> Api.json response = Api.Return body ->
     Api.fetchAnalytics fetch = Api.Return (Api.AnalyticsBody body)) /\
  ((forall response body,
      fetch Api.analytics_request = Api.Return response ->
      Api.ok response = true -> Api.json response <> Api.Return body) ->
   Api.fetchAnalytics fetch = Api.Return (Api.AnalyticsMock Api.getMockAnalytics)).
Proof.
  unfold Api.fetchThreatById, Api.fetchAnalytics, Api.try_catch, Api.bind.
  split; [| split; [| split]].
  - intros response body -> -> ->. done.
  - intros Hfail. destruct (fetch (Api.threat_request cveId)) as [response|e]; [| done].
    destruct (Api.ok response) eqn:Hok; [| done]. simpl.
    destruct (Api.json response) as [body|e] eqn:Hjson; [| done].
    by destruct (Hfail response body).
  - intros response body -> -> ->. done.
  - intros Hfail. destruct (fetch Api.analytics_request) as [response|e]; [| done].
    destruct (Api.ok response) eqn:Hok; [| done]. simpl.
    destruct (Api.json response) as [body|e] eqn:Hjson; [| done].
    by destruct (Hfail response body).
Qed.

Lemma download_outcome (outcome : Api.Completion Api.Download.Response) (result : Api.Completion string) :
  Api.try_catch
    (Api.bind outcome (fun response =>
       if negb (Api.Download.ok response)
       then Api.Throw (Api.HttpError (Api.Download.status response))
       else Api.bind (Api.Download.blob response) (fun file => Api.Return file)))
    (fun error => Api.Throw error) = result <->
  match result with
  | Api.Return file =>
      exists response, outcome = Api.Return response /\
        Api.Download.ok response = true /\ Api.Download.blob response = Api.Return file
  | Api.Throw e =>
      outcome = Api.Throw e \/
      exists response, outcome = Api.Return response /\
        ((Api.Download.ok response = false /\ e = Api.HttpError (Api.Download.status response)) \/
         (Api.Download.ok response = true /\ Api.Download.blob response = Api.Throw e))
  end.
Proof.
  unfold Api.try_catch, Api.bind.
  destruct outcome as [response|e0].
  - destruct (Api.Download.ok response) eqn:Hok; simpl.
    + destruct (Api.Download.blob response) as [file|e1] eqn:Hblob.
      * split.
        -- intros <-. by exists response.
        -- destruct result as [file'|e].
           ++ intros (r & [= <-] & _ & Hb). congruence.
           ++ intros [? | (r & [= <-] & [[? _] | [_ ?]])]; congruence.
      * split.
        -- intros <-. right. exists response. split; [done |]. by right.
        -- destruct result as [file'|e].
           ++ intros (r & [= <-] & _ & Hb). congruence.
           ++ intros [? | (r & [= <-] & [[? _] | [_ ?]])]; congruence.
    + split.
      * intros <-. right. exists response. split; [done |]. by left.
      * destruct result as [file'|e].
        -- intros (r & [= <-] & ? & _). congruence.
        -- intros [? | (r & [= <-] & [[_ ->] | [? _]])]; congruence.
  - split.
    + intros <-. by left.
    + destruct result as [file'|e].
      * intros (r & ? & _). congruence.
      * intros [[= ->] | (r & ? & _)]; congruence.
Qed.

(** X6: [generateReport] and [exportData] give back a file only when the
    response is OK and its blob can be read, and then it is that blob;
    there is no fallback: when [fetch] throws, or reading the blob
    throws, the same error is thrown again, and a response that is not
    OK is thrown as an HTTP error with its status. *)
Theorem downloads_propagate_errors `{JS.Host} (fetch : Api.Download.Network)
    (reportType : string)
    (filters : Api.Filters.t) (format : option string)
    (entries : list (string * Api.FilterValue)) (result : Api.Completion string) :
  (Api.generateReport fetch reportType filters = result <->
   match result with
   | Api.Return file =>
       exists response,
         fetch (Api.report_request reportType filters) = Api.Return response /\
         Api.Download.ok response = true /\ Api.Download.blob response = Api.Return file
   | Api.Throw e =>
       fetch (Api.report_request reportType filters) = Api.Throw e \/
       exists response,
         fetch (Api.report_request reportType filters) = Api.Return response /\
         ((Api.Download.ok response = false /\
           e = Api.HttpError (Api.Download.status response)) \/
          (Api.Download.ok response = true /\ Api.Download.blob response = Api.Throw e))
   end) /\
  (Api.exportData fetch format entries = result <->
   match result with
   | Api.Return file =>
       exists response,
         fetch (Api.export_request format entries) = Api.Return response /\
         Api.Download.ok response = true /\ Api.Download.blob response = Api.Return file
   | Api.Throw e =>
       fetch (Api.export_request format entries) = Api.Throw e \/
       exists response,
         fetch (Api.export_request format entries) = Api.Return response /\
         ((Api.Download.ok response = false /\
           e = Api.HttpError (Api.Download.status response)) \/
          (Api.Download.ok response = true /\ Api.Download.blob response = Api.Throw e))
   end).
Proof. split; apply download_outcome. Qed.

(** ** The mock data *)

Lemma filter_bool_ext {A} (f g : A -> bool) (l : list A) :
  (forall x, x ∈ l -> f x = g x) -> List.filter f l = List.filter g l.
Proof.
  induction l as [|x l IH]; intros Hext; simpl; [done |].
  rewrite (Hext x) by left. rewrite IH; [done |]. intros y Hy. apply Hext. by right.
Qed.


Lemma ceil_div_negative (a b : Z) : (0 <= a)%Z -> (b < 0)%Z -> (JS.ceil_div a b <= 0)%Z.
Proof.
  intros Ha Hb. unfold JS.ceil_div.
  pose proof (Z.div_mod (- a) b ltac:(lia)) as Hdm.
  pose proof (Z.mod_neg_bound (- a) b Hb) as Hmod.
  nia.
Qed.

Lemma getMockData_fields (filters : Api.Filters.t) (data : Api.MockResult) :
  Api.getMockData filters = Api.Return data ->
  Api.total data <= 3 /\
  Api.page data = JS.or_default (Api.Filters.page filters) 1 /\
  Api.totalPages data
  = JS.ceil_div (Z.of_nat (Api.total data)) (JS.or_default (Api.Filters.limit filters) 10).
Proof.
  intros Hdata.
  pose proof (sublist_length _ _ (getMockData_sublist filters data Hdata)) as Hlen.
  destruct (Api.truthy_value (Api.Filters.search filters)) eqn:Htruthy.
  - destruct (Api.Filters.search filters) as [s | n | b |] eqn:Hsearch;
      [| by rewrite getMockData_Throw in Hdata by (by rewrite ?Hsearch) ..].
    destruct (getMockData_Return filters (JS.toLowerCase s))
      as (data' & Hdata' & _ & Htotal & Hpage & Hpages); [by rewrite Hsearch |].
    rewrite Hdata in Hdata'. injection Hdata' as <-.
    split; [rewrite Htotal; exact Hlen | done].
  - destruct (getMockData_Return filters "")
      as (data' & Hdata' & _ & Htotal & Hpage & Hpages); [by rewrite Htruthy |].
    rewrite Hdata in Hdata'. injection Hdata' as <-.
    split; [rewrite Htotal; exact Hlen | done].
Qed.

(** X8: the paging fields of the mock data, when [getMockData] returns.
    [page] is the requested page, or 1 when none or 0 is requested; it
    is not checked against [totalPages]. With a positive limit (10 when
    none or 0 is given), [totalPages] is the least number of pages of
    that size that hold [total] threats; with a negative limit it is not
    positive. *)
Theorem getMockData_paging (filters : Api.Filters.t) (data : Api.MockResult) :
  Api.getMockData filters = Api.Return data ->
  (Api.Filters.page filters = None \/ Api.Filters.page filters = Some 0%Z ->
   Api.page data = 1%Z) /\
  (forall n, Api.Filters.page filters = Some n -> n <> 0%Z -> Api.page data = n) /\
  (forall size,
     size = JS.or_default (Api.Filters.limit filters) 10 ->
     ((0 < size)%Z ->
      (Z.of_nat (Api.total data) <= Api.totalPages data * size
       < Z.of_nat (Api.total data) + size)%Z) /\
     ((size < 0)%Z -> (Api.totalPages data <= 0)%Z)) /\
  (Api.Filters.limit filters = None \/ Api.Filters.limit filters = Some 0%Z ->
   Api.totalPages data = if Api.total data =? 0 then 0%Z else 1%Z).
Proof.
  intros Hdata. destruct (getMockData_fields filters data Hdata) as (Htotal & -> & ->).
  split; [| split; [| split]].
  - intros [-> | ->]; reflexivity.
  - intros n -> Hn. simpl. by apply Z.eqb_neq in Hn as ->.
  - intros size ->. split.
    + intros Hsize. rewrite ceil_div_up by lia.
      set (a := Z.of_nat (Api.total data)).
      set (b := JS.or_default (Api.Filters.limit filters) 10) in *.
      pose proof (Z.div_mod (a + (b - 1)) b ltac:(lia)) as Hdm.
      pose proof (Z.mod_pos_bound (a + (b - 1)) b Hsize) as Hmod.
      nia.
    + intros Hsize. apply ceil_div_negative; lia.
  - intros Hlimit.
    assert (JS.or_default (Api.Filters.limit filters) 10 = 10%Z) as ->
      by (destruct Hlimit as [-> | ->]; reflexivity).
    destruct (Api.total data) as [|[|[|[|n]]]]; try reflexivity. lia.
Qed.

Lemma getMockData_paging_witness :
  exists data,
    Api.getMockData
      {| Api.Filters.search := Api.Text "cisco"; Api.Filters.vendor := Api.Absent;
         Api.Filters.severity := Api.Absent; Api.Filters.cwe := Api.Absent;
         Api.Filters.dateRange := Api.Absent; Api.Filters.sortBy := Api.Absent;
         Api.Filters.sortOrder := Api.Absent; Api.Filters.page := Some 2%Z;
         Api.Filters.limit := Some 1%Z |}
    = Api.Return data /\
    Api.page data = 2%Z.
Proof.
  eexists. split; [reflexivity |].
  apply (getMockData_paging
           {| Api.Filters.search := Api.Text "cisco"; Api.Filters.vendor := Api.Absent;
              Api.Filters.severity := Api.Absent; Api.Filters.cwe := Api.Absent;
              Api.Filters.dateRange := Api.Absent; Api.Filters.sortBy := Api.Absent;
              Api.Filters.sortOrder := Api.Absent; Api.Filters.page := Some 2%Z;
              Api.Filters.limit := Some 1%Z |} _ eq_refl); [reflexivity | discriminate].
Defined.

(** X9: the mock data and the filter of the [App] component agree. For
    the mock threats, with a vendor and a severity selection that are not
    empty and no CWE or date restriction, [filteredThreats] holds the same
    threats as [getMockData] gives for the same search term, vendor and
    severity. *)
Theorem client_filter_agrees_with_mock_data `{JS.Host} (st : App.State) :
  App.threats st = Api.mockThreats ->
  App.selectedVendor st <> "" ->
  App.selectedSeverity st <> "" ->
  App.selectedCWE st = "all" ->
  App.dateRange st = "all" ->
  exists data,
    Api.getMockData
      {| Api.Filters.search := Api.Text (App.searchTerm st);
         Api.Filters.vendor := Api.Text (App.selectedVendor st);
         Api.Filters.severity := Api.Text (App.selectedSeverity st);
         Api.Filters.cwe := Api.Absent; Api.Filters.dateRange := Api.Absent;
         Api.Filters.sortBy := Api.Absent; Api.Filters.sortOrder := Api.Absent;
         Api.Filters.page := None; Api.Filters.limit := None |}
    = Api.Return data /\
    App.filteredThreats st ≡ₚ Api.threats data.
Proof.
  intros Hthreats Hvendor Hseverity Hcwe Hdate.
  destruct (getMockData_Return
              {| Api.Filters.search := Api.Text (App.searchTerm st);
                 Api.Filters.vendor := Api.Text (App.selectedVendor st);
                 Api.Filters.severity := Api.Text (App.selectedSeverity st);
                 Api.Filters.cwe := Api.Absent; Api.Filters.dateRange := Api.Absent;
                 Api.Filters.sortBy := Api.Absent; Api.Filters.sortOrder := Api.Absent;
                 Api.Filters.page := None; Api.Filters.limit := None |}
              (JS.toLowerCase (App.searchTerm st)))
    as (data & Hdata & Hmock & _); [done |].
  exists data. split; [done |].
  rewrite (filteredThreats_Permutation st), Hmock, Hthreats.
  cbn [Api.Filters.search Api.Filters.vendor Api.Filters.severity].
  erewrite filter_bool_ext; [done |]. intros t _.
  unfold App.filter_callback, App.matchesSearch, App.matchesVendor, App.matchesSeverity,
    App.matchesCWE, App.matchesDate, Api.set_and_not_all, Api.search_callback.
  cbn [Api.truthy_value Api.strict_equal].
  rewrite Hcwe, Hdate, !String.eqb_refl. cbn [negb orb andb].
  rewrite !andb_true_r.
  rewrite (String.eqb_sym "all" (App.selectedVendor st)).
  rewrite (String.eqb_sym "all" (App.selectedSeverity st)).
  apply String.eqb_neq in Hvendor as ->. apply String.eqb_neq in Hseverity as ->.
  cbn [negb andb].
  rewrite <- andb_assoc.
  destruct (String.eqb (App.searchTerm st) ""),
    (String.eqb (App.selectedVendor st) "all"),
    (String.eqb (App.selectedSeverity st) "all"); cbn [negb orb andb];
    rewrite ?orb_assoc; done.
Qed.

Lemma client_filter_agrees_with_mock_data_witness :
  exists data,
    Api.getMockData
      {| Api.Filters.search := Api.Text "FIREWALL"; Api.Filters.vendor := Api.Text "Cisco";
         Api.Filters.severity := Api.Text "Critical";
         Api.Filters.cwe := Api.Absent; Api.Filters.dateRange := Api.Absent;
         Api.Filters.sortBy := Api.Absent; Api.Filters.sortOrder := Api.Absent;
         Api.Filters.page := None; Api.Filters.limit := None |}
    = Api.Return data /\
    @App.filteredThreats JS.example_host
      {| App.threats := Api.mockThreats; App.searchTerm := "FIREWALL";
         App.selectedVendor := "Cisco"; App.selectedSeverity := "Critical";
         App.selectedCWE := "all"; App.dateRange := "all";
         App.sortBy := "dateAdded"; App.sortOrder := "desc"; App.currentPage := 1 |}
    ≡ₚ Api.threats data.
Proof.
  apply (@client_filter_agrees_with_mock_data JS.example_host
           {| App.threats := Api.mockThreats; App.searchTerm := "FIREWALL";
              App.selectedVendor := "Cisco"; App.selectedSeverity := "Critical";
              App.selectedCWE := "all"; App.dateRange := "all";
              App.sortBy := "dateAdded"; App.sortOrder := "desc"; App.currentPage := 1 |});
    done.
Defined.

(** ** Due dates and urgency *)

Lemma lt_of_Z (a b : Z) : JS.lt (JS.of_Z a) (JS.of_Z b) = (a <? b)%Z.
Proof.
  unfold JS.lt, JS.of_Z, Qle_bool. simpl. rewrite !Z.mul_1_r.
  by rewrite Z.ltb_antisym.
Qed.

Lemma le_of_Z (a b : Z) : JS.le (JS.of_Z a) (JS.of_Z b) = (a <=? b)%Z.
Proof. unfold JS.le, JS.of_Z, Qle_bool. simpl. by rewrite !Z.mul_1_r. Qed.

(** [Math.ceil(a / b)] is at most [n] exactly when [a] is at most
    [n * b]. *)
Lemma ceil_div_le (a b n : Z) : (0 < b)%Z -> (JS.ceil_div a b <= n)%Z <-> (a <= n * b)%Z.
Proof.
  intros Hb. unfold JS.ceil_div.
  pose proof (Z.div_mod (- a) b ltac:(lia)) as Hdm.
  pose proof (Z.mod_pos_bound (- a) b Hb) as Hmod.
  split; intros Hle; nia.
Qed.

Lemma ceil_div_bounds (a b : Z) :
  (0 < b)%Z -> ((JS.ceil_div a b - 1) * b < a <= JS.ceil_div a b * b)%Z.
Proof.
  intros Hb. unfold JS.ceil_div.
  pose proof (Z.div_mod (- a) b ltac:(lia)) as Hdm.
  pose proof (Z.mod_pos_bound (- a) b Hb) as Hmod.
  nia.
Qed.

Lemma ceil_div_leb (a b n : Z) : (0 < b)%Z -> (JS.ceil_div a b <=? n)%Z = (a <=? n * b)%Z.
Proof.
  intros Hb. pose proof (ceil_div_le a b n Hb) as Hiff.
  destruct (Z.leb_spec (JS.ceil_div a b) n), (Z.leb_spec a (n * b)); try done; lia.
Qed.

Section Urgency.
Context `{JS.Host}.

Lemma getDaysUntilDue_valid (dueDate : string) (t : Z) :
  JS.Date_parse dueDate = Some t ->
  App.getDaysUntilDue dueDate = JS.of_Z (JS.ceil_div (t - JS.now) JS.ms_per_day).
Proof. intros Ht. unfold App.getDaysUntilDue. by rewrite Ht. Qed.

Lemma getDaysUntilDue_invalid (dueDate : string) :
  JS.Date_parse dueDate = None -> App.getDaysUntilDue dueDate = JS.NaN.
Proof. intros Ht. unfold App.getDaysUntilDue. by rewrite Ht. Qed.

Lemma ms_per_day_pos : (0 < JS.ms_per_day)%Z.
Proof. reflexivity. Qed.

(** X10: the number of days until a due date and its colour, by the time
    of the due date. An invalid date gives NaN and the grey class. A
    valid date at time [t] gives the integer [n] with
    [(n - 1) days < t - now <= n days]; the class is red when the date
    lies a full day or more in the past, orange up to three days ahead
    (which includes dates less than a day in the past), yellow up to
    seven days ahead, and grey beyond. *)
Theorem urgency_by_due_time (dueDate : string) :
  match JS.Date_parse dueDate with
  | None =>
      App.getDaysUntilDue dueDate = JS.NaN /\
      App.getUrgencyColor (App.getDaysUntilDue dueDate) = "text-gray-600"
  | Some t =>
      (exists n,
         App.getDaysUntilDue dueDate = JS.of_Z n /\
         ((n - 1) * JS.ms_per_day < t - JS.now <= n * JS.ms_per_day)%Z) /\
      App.getUrgencyColor (App.getDaysUntilDue dueDate) =
        if (t + JS.ms_per_day <=? JS.now)%Z then "text-red-600 font-bold"
        else if (t <=? JS.now + 3 * JS.ms_per_day)%Z then "text-orange-600 font-semibold"
        else if (t <=? JS.now + 7 * JS.ms_per_day)%Z then "text-yellow-600"
        else "text-gray-600"
  end.
Proof.
  destruct (JS.Date_parse dueDate) as [t|] eqn:Ht.
  - rewrite (getDaysUntilDue_valid _ _ Ht). split.
    + eexists. split; [done |].
      apply ceil_div_bounds, ms_per_day_pos.
    + unfold App.getUrgencyColor. rewrite lt_of_Z, !le_of_Z.
      replace (JS.ceil_div (t - JS.now) JS.ms_per_day <? 0)%Z
        with (JS.ceil_div (t - JS.now) JS.ms_per_day <=? -1)%Z
        by (destruct (Z.leb_spec (JS.ceil_div (t - JS.now) JS.ms_per_day) (-1)),
              (Z.ltb_spec (JS.ceil_div (t - JS.now) JS.ms_per_day) 0); try done; lia).
      rewrite !ceil_div_leb by apply ms_per_day_pos.
      replace (t - JS.now <=? -1 * JS.ms_per_day)%Z with (t + JS.ms_per_day <=? JS.now)%Z
        by (destruct (Z.leb_spec (t + JS.ms_per_day) JS.now),
              (Z.leb_spec (t - JS.now) (-1 * JS.ms_per_day)); try done; lia).
      replace (t - JS.now <=? 3 * JS.ms_per_day)%Z with (t <=? JS.now + 3 * JS.ms_per_day)%Z
        by (destruct (Z.leb_spec t (JS.now + 3 * JS.ms_per_day)),
              (Z.leb_spec (t - JS.now) (3 * JS.ms_per_day)); try done; lia).
      replace (t - JS.now <=? 7 * JS.ms_per_day)%Z with (t <=? JS.now + 7 * JS.ms_per_day)%Z
        by (destruct (Z.leb_spec t (JS.now + 7 * JS.ms_per_day)),
              (Z.leb_spec (t - JS.now) (7 * JS.ms_per_day)); try done; lia).
      done.
  - rewrite (getDaysUntilDue_invalid _ Ht). done.
Qed.

(** X11: the Urgency field of the details modal, by the time of the due
    date: Immediate when the due date is not in the future, High up to
    three days ahead, Medium beyond and for an invalid date. The field is
    shown in the class of [getUrgencyColor], so that a threat whose due
    date passed less than a day ago reads Immediate in the orange class,
    not the red one. *)
Theorem modal_urgency_by_due_time (threat : Threat) :
  match JS.Date_parse (dueDate threat) with
  | None =>
      ThreatDetailsModal.urgency (ThreatDetailsModal.daysUntilDue threat) = "Medium" /\
      ThreatDetailsModal.urgencyColor threat = "text-gray-600"
  | Some t =>
      ThreatDetailsModal.urgency (ThreatDetailsModal.daysUntilDue threat) =
        (if (t <=? JS.now)%Z then "Immediate"
         else if (t <=? JS.now + 3 * JS.ms_per_day)%Z then "High"
         else "Medium") /\
      ((JS.now - JS.ms_per_day < t <= JS.now)%Z ->
       ThreatDetailsModal.urgency (ThreatDetailsModal.daysUntilDue threat) = "Immediate" /\
       ThreatDetailsModal.urgencyColor threat = "text-orange-600 font-semibold")
  end.
Proof.
  unfold ThreatDetailsModal.urgencyColor, ThreatDetailsModal.daysUntilDue.
  change (Api.getDaysUntilDue (dueDate threat)) with (App.getDaysUntilDue (dueDate threat)).
  destruct (JS.Date_parse (dueDate threat)) as [t|] eqn:Ht.
  - rewrite (getDaysUntilDue_valid _ _ Ht).
    unfold ThreatDetailsModal.urgency, Api.getUrgencyColor.
    rewrite lt_of_Z, !le_of_Z.
    rewrite !ceil_div_leb by apply ms_per_day_pos.
    assert ((t - JS.now <=? 0 * JS.ms_per_day) = (t <=? JS.now))%Z as ->
      by (destruct (Z.leb_spec t JS.now), (Z.leb_spec (t - JS.now) (0 * JS.ms_per_day));
          try done; lia).
    assert ((t - JS.now <=? 3 * JS.ms_per_day) = (t <=? JS.now + 3 * JS.ms_per_day))%Z as ->
      by (destruct (Z.leb_spec t (JS.now + 3 * JS.ms_per_day)),
            (Z.leb_spec (t - JS.now) (3 * JS.ms_per_day)); try done; lia).
    split; [done |]. intros [Hlo Hhi].
    assert ((t <=? JS.now)%Z = true) as -> by (apply Z.leb_le; lia).
    split; [done |].
    assert ((JS.ceil_div (t - JS.now) JS.ms_per_day <? 0)%Z = false) as ->.
    { apply Z.ltb_ge.
      pose proof (ceil_div_le (t - JS.now) JS.ms_per_day (-1) ms_per_day_pos). lia. }
    assert ((t <=? JS.now + 3 * JS.ms_per_day)%Z = true) as ->; [| done].
    apply Z.leb_le. pose proof ms_per_day_pos. lia.
  - rewrite (getDaysUntilDue_invalid _ Ht). done.
Qed.

End Urgency.

(** ** The cards of the dashboard tab *)

Lemma filter_eqb_length (s : string) (threats : list Threat) :
  length (List.filter (fun t => String.eqb (severity t) s) threats)
  = length (filter (fun t => severity t = s) threats).
Proof.
  induction threats as [|t threats IH]; [done |].
  rewrite filter_cons. simpl. destruct (String.eqb_spec (severity t) s).
  - rewrite decide_True by done. simpl. by rewrite IH.
  - by rewrite decide_False.
Qed.

Lemma overdue_spec `{JS.Host} (dueDate : string) :
  JS.lt (App.getDaysUntilDue dueDate) (JS.of_Z 0) =
  match JS.Date_parse dueDate with
  | Some t => (t + JS.ms_per_day <=? JS.now)%Z
  | None => false
  end.
Proof.
  destruct (JS.Date_parse dueDate) as [t|] eqn:Ht.
  - rewrite (getDaysUntilDue_valid _ _ Ht), lt_of_Z.
    pose proof (ceil_div_le (t - JS.now) JS.ms_per_day (-1) ms_per_day_pos) as Hle.
    destruct (Z.ltb_spec (JS.ceil_div (t - JS.now) JS.ms_per_day) 0),
      (Z.leb_spec (t + JS.ms_per_day) JS.now); try done; lia.
  - by rewrite (getDaysUntilDue_invalid _ Ht).
Qed.

(** X12: the cards of the dashboard tab. The Critical Threats card shows
    the count of the Critical entry of [severityStats]. The Recent
    Critical Threats list holds Critical threats only, in the order of the
    list, the first five of them (all when there are fewer). The Overdue
    Actions card counts the threats whose due date is valid and lies a
    full day or more in the past: a threat with an invalid due date, or
    one that became due less than a day ago, is not counted. *)
Theorem dashboard_cards `{JS.Host} (threats : list Threat) :
  (exists e, e ∈ App.severityStats threats /\
     App.SeverityStat.severity e = "Critical" /\
     App.SeverityStat.count e = JSObject.Number (App.criticalCount threats)) /\
  App.recentCritical threats `sublist_of` threats /\
  (forall t, t ∈ App.recentCritical threats -> severity t = "Critical") /\
  length (App.recentCritical threats) = 5 `min` App.criticalCount threats /\
  (exists rest,
     List.filter (fun t => String.eqb (severity t) "Critical") threats
     = App.recentCritical threats ++ rest) /\
  App.overdueCount threats =
    length (List.filter
              (fun t => match JS.Date_parse (dueDate t) with
                        | Some x => (x + JS.ms_per_day <=? JS.now)%Z
                        | None => false
                        end) threats).
Proof.
  assert (Hrecent : App.recentCritical threats
                    = take 5 (List.filter (fun t => String.eqb (severity t) "Critical") threats)).
  { unfold App.recentCritical, JS.slice. by rewrite drop_0. }
  split; [| split; [| split; [| split; [| split]]]].
  - exists {| App.SeverityStat.severity := "Critical";
              App.SeverityStat.count := JSObject.Number (App.criticalCount threats) |}.
    split; [| done]. apply severityStats_elem_of. simpl.
    rewrite severity_counts_get by (apply level_not_inherited; left).
    rewrite decide_True by (left; left).
    unfold App.criticalCount. by rewrite filter_eqb_length.
  - rewrite Hrecent. etrans; [apply sublist_take | apply filter_bool_sublist].
  - intros t Ht. rewrite Hrecent in Ht.
    assert (t ∈ List.filter (fun t => String.eqb (severity t) "Critical") threats) as Hin.
    { by apply (subseteq_take 5). }
    apply list_elem_of_In, filter_In in Hin as [_ Heq]. by apply String.eqb_eq.
  - rewrite Hrecent, length_take. unfold App.criticalCount. lia.
  - rewrite Hrecent. eexists. symmetry. apply take_drop.
  - unfold App.overdueCount. f_equal. apply filter_bool_ext. intros t _. apply overdue_spec.
Qed.

(** ** The page shown and the pagination controls *)

Section PaginationControls.
Context `{JS.Host}.

Lemma totalPages_up (st : App.State) :
  App.totalPages st = (length (App.filteredThreats st) + 9) / 10.
Proof.
  unfold App.totalPages. rewrite ceil_div_nat_up; [done | unfold App.itemsPerPage; lia].
Qed.

Lemma totalPages_le (st : App.State) (n : nat) :
  App.totalPages st <= n <-> length (App.filteredThreats st) <= n * 10.
Proof.
  rewrite totalPages_up.
  pose proof (Nat.div_mod (length (App.filteredThreats st) + 9) 10 ltac:(lia)).
  pose proof (Nat.mod_upper_bound (length (App.filteredThreats st) + 9) 10 ltac:(lia)).
  lia.
Qed.

Lemma paginatedThreats_length (st : App.State) :
  1 <= App.currentPage st ->
  length (App.paginatedThreats st)
  = 10 `min` (length (App.filteredThreats st) - (App.currentPage st - 1) * 10).
Proof.
  intros Hp. unfold App.paginatedThreats, JS.slice, App.itemsPerPage.
  rewrite length_take, length_drop. lia.
Qed.

Lemma page_shown_length_aux (st : App.State) :
  1 <= App.currentPage st ->
  (App.paginatedThreats st = [] <-> App.totalPages st < App.currentPage st).
Proof.
  intros Hp. rewrite <- length_zero_iff_nil, paginatedThreats_length by done.
  pose proof (totalPages_le st (App.currentPage st - 1)). lia.
Qed.

(** X13: the number of threats on the page shown ("Showing n of m
    threats"): on page [p], counted from 1, it is the smaller of 10 and
    what is left of the filtered list after [p - 1] full pages; the page
    is empty exactly when [p] is beyond [totalPages]; and a page number 0
    shows nothing. *)
Theorem page_shown_length (st : App.State) :
  (1 <= App.currentPage st ->
   length (App.paginatedThreats st)
   = 10 `min` (length (App.filteredThreats st) - (App.currentPage st - 1) * 10)) /\
  (1 <= App.currentPage st ->
   (App.paginatedThreats st = [] <-> App.totalPages st < App.currentPage st)) /\
  (App.currentPage st = 0 -> App.paginatedThreats st = []).
Proof.
  split; [apply paginatedThreats_length |]. split.
  - apply page_shown_length_aux.
  - intros Hp. unfold App.paginatedThreats, JS.slice. rewrite Hp. simpl. apply take_0.
Qed.

Lemma click_keeps (st st' : App.State) :
  App.click st st' ->
  App.filteredThreats st' = App.filteredThreats st /\
  (App.page_in_range st -> App.page_in_range st').
Proof.
  unfold App.page_in_range.
  destruct 1 as [st Hvisible _ | st page Hvisible Hpage | st Hvisible _];
    (split; [reflexivity |]); intros Hrange;
    apply Nat.ltb_lt in Hvisible.
  - change (App.totalPages (App.previous_page st)) with (App.totalPages st).
    unfold App.previous_page. simpl. lia.
  - change (App.totalPages (App.with_page st page)) with (App.totalPages st). simpl.
    unfold App.page_buttons in Hpage.
    apply list_elem_of_fmap in Hpage as (i & -> & Hi).
    apply elem_of_seq in Hi. lia.
  - change (App.totalPages (App.next_page st)) with (App.totalPages st).
    unfold App.next_page. simpl. lia.
Qed.

Lemma clicks_keep (st st' : App.State) :
  rtc App.click st st' ->
  App.filteredThreats st' = App.filteredThreats st /\
  (App.page_in_range st -> App.page_in_range st').
Proof.
  induction 1 as [st | st st1 st2 Hclick _ [IHf IHr]]; [done |].
  destruct (click_keeps _ _ Hclick) as [Hf Hr].
  split; [by rewrite IHf | auto].
Qed.

Lemma with_current_page (st : App.State) : App.with_page st (App.currentPage st) = st.
Proof. by destruct st. Qed.

Lemma next_reaches (st : App.State) (p : nat) :
  App.currentPage st = 1 -> 1 <= p <= App.totalPages st ->
  rtc App.click st (App.with_page st p).
Proof.
  intros Hfirst [Hlo Hhi]. induction p as [|p IH]; [lia |].
  destruct (decide (p = 0)) as [-> | Hp].
  - rewrite <- Hfirst, with_current_page. done.
  - eapply rtc_r; [apply IH; lia |].
    replace (App.with_page st (S p))
      with (App.next_page (App.with_page st p)).
    + apply App.click_next.
      * unfold App.pagination_visible.
        change (App.totalPages (App.with_page st p)) with (App.totalPages st).
        apply Nat.ltb_lt. lia.
      * unfold App.next_disabled.
        change (App.totalPages (App.with_page st p)) with (App.totalPages st).
        simpl. apply Nat.eqb_neq. lia.
    + unfold App.next_page.
      change (App.totalPages (App.with_page st p)) with (App.totalPages st).
      simpl. replace (App.totalPages st `min` (p + 1)) with (S p) by lia. done.
Qed.

(** X14: the pagination controls, from page 1. Whatever is clicked, the
    filtered list stays the same and the page number stays between 1 and
    [totalPages], so that the page shown is not empty unless the filtered
    list is. Every page from 1 to [totalPages] can be reached (by Next);
    the numbered buttons are those of the pages 1 to 5 at most; and when
    there is a single page or none, no control can be clicked. *)
Theorem pagination_controls (st : App.State) :
  App.currentPage st = 1 ->
  (forall st', rtc App.click st st' ->
     App.filteredThreats st' = App.filteredThreats st /\
     1 <= App.currentPage st' /\
     (App.filteredThreats st <> [] ->
      App.currentPage st' <= App.totalPages st /\ App.paginatedThreats st' <> [])) /\
  (forall p, 1 <= p <= App.totalPages st -> rtc App.click st (App.with_page st p)) /\
  App.page_buttons st = seq 1 (5 `min` App.totalPages st) /\
  (App.totalPages st <= 1 -> forall st', ~ App.click st st').
Proof.
  intros Hfirst. split; [| split; [| split]].
  - intros st' Hclicks. destruct (clicks_keep _ _ Hclicks) as [Hf Hr].
    assert (App.page_in_range st') as [Hlo Hhi] by (apply Hr; unfold App.page_in_range; lia).
    split; [done |]. split; [done |]. intros Hne.
    assert (App.totalPages st' = App.totalPages st) as Htp
      by (unfold App.totalPages; by rewrite Hf).
    assert (1 <= App.totalPages st) as Hpages.
    { destruct (decide (1 <= App.totalPages st)) as [|Hno]; [done |].
      exfalso. apply Hne, length_zero_iff_nil.
      pose proof (totalPages_le st 0). lia. }
    split; [lia |]. intros Hempty.
    apply (proj1 (page_shown_length_aux st' Hlo)) in Hempty. lia.
  - intros p Hp. by apply next_reaches.
  - unfold App.page_buttons. rewrite <- fmap_S_seq.
    apply list_fmap_ext. intros i x _. lia.
  - intros Hone st' Hclick.
    assert (App.pagination_visible st = true) as Hvisible by (by destruct Hclick).
    apply Nat.ltb_lt in Hvisible. lia.
Qed.

End PaginationControls.

Lemma pagination_controls_witness :
  rtc (@App.click JS.example_host)
    (App.initial (concat (replicate 9 Api.mockThreats)))
    (App.with_page (App.initial (concat (replicate 9 Api.mockThreats))) 3).
Proof.
  apply (@pagination_controls JS.example_host
           (App.initial (concat (replicate 9 Api.mockThreats))) eq_refl).
  vm_compute. lia.
Defined.


(** ** The threats of the dashboard: generateMockData *)

Section MockDataProofs.
Context `{App.MathRandom}.

Lemma nth_elem_of (l : list string) (i : nat) :
  i < length l -> nth i l "undefined" ∈ l.
Proof. intros Hi. apply list_elem_of_In, nth_In, Hi. Qed.

Lemma additional_threat_fields (i : nat) :
  vendorProject (App.additional_threat i) ∈ App.vendors /\
  severity (App.additional_threat i) ∈ App.severities /\
  (exists cwe, cwes (App.additional_threat i) = [cwe] /\ cwe ∈ App.cwe_ids) /\
  knownRansomwareCampaignUse (App.additional_threat i) ∈ ["Known"; "Unknown"].
Proof.
  unfold App.additional_threat. cbn [vendorProject severity cwes knownRansomwareCampaignUse].
  split; [| split; [| split]].
  - apply nth_elem_of, App.floor_random_lt. simpl. lia.
  - apply nth_elem_of, App.floor_random_lt. simpl. lia.
  - eexists. split; [done |]. apply nth_elem_of, App.floor_random_lt. simpl. lia.
  - destruct (App.random_above _); [left | right; left].
Qed.

Lemma generateMockData_keys : NoDup (cveID <$> App.generateMockData).
Proof. apply (bool_decide_unpack _). vm_compute. exact I. Qed.

(** X15: [generateMockData], whatever [Math.random()] returns: the five
    fixed threats first, then 50 generated ones, 55 in all; the CVE ids,
    the keys of the rows, are pairwise distinct; every severity is one of
    Critical, High, Medium and Low and every threat has exactly one CWE;
    the vendor and the CWE of a generated threat are taken from the lists
    of the function, and its ransomware flag is Known or Unknown. *)
Theorem generateMockData_shape :
  length App.generateMockData = 55 /\
  take 5 App.generateMockData = App.mockThreatData /\
  NoDup (cveID <$> App.generateMockData) /\
  (forall t, t ∈ App.generateMockData ->
     severity t ∈ App.severities /\ length (cwes t) = 1) /\
  (forall t, t ∈ drop 5 App.generateMockData ->
     vendorProject t ∈ App.vendors /\
     (exists cwe, cwes t = [cwe] /\ cwe ∈ App.cwe_ids) /\
     knownRansomwareCampaignUse t ∈ ["Known"; "Unknown"]).
Proof.
  split; [| split; [| split; [| split]]].
  - unfold App.generateMockData. rewrite length_app, length_fmap, length_seq. done.
  - done.
  - apply generateMockData_keys.
  - intros t Ht. unfold App.generateMockData in Ht.
    apply elem_of_app in Ht as [Ht | Ht].
    + apply (Forall_forall (fun t => severity t ∈ App.severities /\ length (cwes t) = 1)
               App.mockThreatData); [| done].
      repeat constructor; set_solver.
    + apply list_elem_of_fmap in Ht as (i & -> & _).
      destruct (additional_threat_fields i) as (_ & Hs & (cwe & -> & _) & _). done.
  - intros t Ht. change (drop 5 App.generateMockData)
      with (App.additional_threat <$> seq 0 50) in Ht.
    apply list_elem_of_fmap in Ht as (i & -> & _).
    destruct (additional_threat_fields i) as (Hv & _ & Hc & Hk). done.
Qed.

End MockDataProofs.

Section InitialDashboard.
Context `{JS.Host} `{App.MathRandom}.

Lemma paginatedThreats_sublist (st : App.State) :
  App.paginatedThreats st `sublist_of` App.filteredThreats st.
Proof.
  unfold App.paginatedThreats, JS.slice.
  etransitivity; [apply sublist_take | apply sublist_drop].
Qed.

Lemma filter_keys_NoDup (f : Threat -> bool) (l : list Threat) :
  NoDup (cveID <$> l) -> NoDup (cveID <$> List.filter f l).
Proof.
  intros Hl. refine (sublist_NoDup _ _ Hl _).
  apply fmap_sublist, filter_bool_sublist.
Qed.

Lemma initial_filteredThreats (threats : list Threat) :
  App.filteredThreats (App.initial threats) ≡ₚ threats.
Proof.
  rewrite (filteredThreats_Permutation (App.initial threats)), filter_all; [done |].
  intros t _. by apply filter_callback_true.
Qed.

(** X16: the rows of the table have distinct keys: when the threats of
    the dashboard are those of [generateMockData], then for every search
    term, selection, sort order and page the CVE ids of the filtered
    threats, of the page shown and of the recent critical threats are
    pairwise distinct. *)
Theorem row_keys_distinct (st : App.State) :
  App.threats st = App.generateMockData ->
  NoDup (cveID <$> App.filteredThreats st) /\
  NoDup (cveID <$> App.paginatedThreats st) /\
  NoDup (cveID <$> App.recentCritical (App.threats st)).
Proof.
  intros Hthreats.
  assert (NoDup (cveID <$> App.filteredThreats st)) as Hfiltered.
  { rewrite (filteredThreats_Permutation st), Hthreats.
    apply filter_keys_NoDup, generateMockData_keys. }
  split; [done |]. split.
  - refine (sublist_NoDup _ _ Hfiltered _).
    apply fmap_sublist, paginatedThreats_sublist.
  - rewrite Hthreats. refine (sublist_NoDup _ _ generateMockData_keys _).
    apply fmap_sublist. unfold App.recentCritical, JS.slice.
    etransitivity; [apply sublist_take |].
    etransitivity; [apply sublist_drop | apply filter_bool_sublist].
Qed.

(** X17: the dashboard as it starts, whatever [Math.random()] returns and
    whatever the clock: all 55 threats pass the filter, there are 6 pages,
    the first five of 10 threats and the last of 5; the numbered buttons
    are those of pages 1 to 5: page 6 has no button of its own and is
    reached by Next. *)
Theorem initial_dashboard_pages :
  let st := App.initial App.generateMockData in
  App.filteredThreats st ≡ₚ App.generateMockData /\
  App.totalPages st = 6 /\
  (forall p, 1 <= p <= 5 -> length (App.paginatedThreats (App.with_page st p)) = 10) /\
  length (App.paginatedThreats (App.with_page st 6)) = 5 /\
  App.page_buttons st = [1; 2; 3; 4; 5] /\
  rtc App.click st (App.with_page st 6).
Proof.
  intros st.
  assert (length (App.filteredThreats st) = 55) as Hlen.
  { unfold st. rewrite (initial_filteredThreats App.generateMockData).
    unfold App.generateMockData. rewrite length_app, length_fmap, length_seq. done. }
  assert (App.totalPages st = 6) as Hpages by (rewrite totalPages_up, Hlen; done).
  split; [apply initial_filteredThreats |]. split; [done |].
  split; [| split; [| split]].
  - intros p Hp. rewrite paginatedThreats_length by (simpl; lia).
    change (App.filteredThreats (App.with_page st p)) with (App.filteredThreats st).
    change (App.currentPage (App.with_page st p)) with p.
    rewrite Hlen. lia.
  - rewrite paginatedThreats_length by (simpl; lia).
    change (App.filteredThreats (App.with_page st 6)) with (App.filteredThreats st).
    rewrite Hlen. done.
  - unfold App.page_buttons. rewrite Hpages. done.
  - apply next_reaches; [done | lia].
Qed.

End InitialDashboard.

Lemma row_keys_distinct_witness :
  NoDup (cveID <$> @App.paginatedThreats JS.example_host
                     (App.initial (@App.generateMockData App.first_choice))).
Proof.
  apply (@row_keys_distinct JS.example_host App.first_choice
           (App.initial (@App.generateMockData App.first_choice)) eq_refl).
Defined.
